(** * Hypercomplex container codec (Arm.h): model and properties

    A shallow embedding of the C implementation in [Arm.h]:
    [quaternion_is_valid], [quaternion_generate_key], [compute_checksum],
    [hypercomplex_encrypt_data] and [hypercomplex_decrypt_data], then
    [quaternion_init], [quaternion_identity] and [hypercomplex_benchmark], and
    of [test_encryption_decryption] in [Arm.c].

    Conventions of the embedding.
    - [uint8_t] is [byte]; [uint32_t] and [size_t] are [Z] with the
      wrap-around written out ([mod 2^32], [mod 2^64]; the target is ARM64,
      so [size_t] has 64 bits).
    - A [float] is its IEEE-754 binary32 bit pattern, a [Z] below [2^32];
      arithmetic goes through [SpecFloat] at precision 24, emax 128.
    - A pointer argument is an [option]: [None] is the null pointer.  An input
      buffer (pointer and [size_t] length) is the [list byte] of that length.
      An output buffer is the [list byte] of the whole object pointed to; the
      in/out size parameter is a separate [Z].
    - A call whose accesses leave the object it was given has no defined
      behaviour in C; such a call yields [None] here, a returning call yields
      [Some] of the return value and the final contents of what it wrote.
    - The routines written in assembly are not part of [Arm.h].  The block
      transform [hypercomplex_encrypt] is a parameter of the codec and
      [quaternion_multiply] one of the benchmark; [quaternion_conjugate] and
      [quaternion_normalize] are modelled from the specification.
    - Facts about the key of every seed are obtained by evaluation: the key
      derivation depends on the low 16 bits of the seed only, and a second
      evaluator of the binary32 operations, on 63-bit machine integers and
      proved equal to [SpecFloat], runs it on all 65536 of them. *)

From Stdlib Require Import Uint63.
From Stdlib Require Import ZArith NArith List Bool Lia.
From Stdlib Require Import Strings.Byte.
From Stdlib Require Import Floats.SpecFloat.
Import ListNotations.

Local Open Scope Z_scope.

(* ------------------------------------------------------------------------- *)
(** ** Return codes (Arm.h, lines 33-36) *)

Definition HC_SUCCESS : Z := 0.
Definition HC_ERROR_NULL_PTR : Z := -1.
Definition HC_ERROR_DIVIDE_ZERO : Z := -2.
Definition HC_ERROR_INVALID_DATA : Z := -3.

(* ------------------------------------------------------------------------- *)
(** ** Machine integers and bytes *)

Definition UINT32_MOD : Z := 2 ^ 32.
Definition SIZE_MOD : Z := 2 ^ 64.

Definition Z_of_byte (b : byte) : Z := Z.of_N (Byte.to_N b).

Definition byte_of_Z (v : Z) : byte :=
  match Byte.of_N (Z.to_N (v mod 256)) with
  | Some b => b
  | None => x00
  end.

(** Little-endian image of the low [n] bytes of [v], and its inverse. *)
Fixpoint le_bytes (n : nat) (v : Z) : list byte :=
  match n with
  | O => []
  | S n' => byte_of_Z v :: le_bytes n' (v / 256)
  end.

Fixpoint le_value (bs : list byte) : Z :=
  match bs with
  | [] => 0
  | b :: rest => Z_of_byte b + 256 * le_value rest
  end.

(* ------------------------------------------------------------------------- *)
(** ** Memory objects

    [load] and [store] are the bounds-checked reads and writes of a run of
    bytes inside one object; [None] is an access outside it. *)

Definition load (buf : list byte) (off n : nat) : option (list byte) :=
  if (off + n <=? length buf)%nat then Some (firstn n (skipn off buf)) else None.

Definition store (buf : list byte) (off : nat) (data : list byte) : option (list byte) :=
  if (off + length data <=? length buf)%nat
  then Some (firstn off buf ++ data ++ skipn (off + length data) buf)
  else None.

Notation "x <- a ;; b" :=
  (match a with Some x => b | None => None end)
  (at level 61, a at next level, right associativity, only parsing).

(* ------------------------------------------------------------------------- *)
(** ** Floats: binary32 bit patterns over [SpecFloat] *)

Definition float32 : Type := Z.

Definition prec32 : Z := 24.
Definition emax32 : Z := 128.

Definition f32_sign (bits : float32) : bool := Z.testbit bits 31.
Definition f32_exponent (bits : float32) : Z := Z.land (Z.shiftr bits 23) 255.
Definition f32_mantissa (bits : float32) : Z := Z.land bits (2 ^ 23 - 1).

Definition SF_of_bits (bits : float32) : spec_float :=
  let s := f32_sign bits in
  let e := f32_exponent bits in
  let m := f32_mantissa bits in
  if e =? 0 then
    match m with
    | Zpos p => S754_finite s p (-149)
    | _ => S754_zero s
    end
  else if e =? 255 then
    (if m =? 0 then S754_infinity s else S754_nan)
  else
    match m + 2 ^ 23 with
    | Zpos p => S754_finite s p (e - 150)
    | _ => S754_nan
    end.

Definition bits_of_SF (f : spec_float) : float32 :=
  let sign (s : bool) := if s then 2 ^ 31 else 0 in
  Z.land
    match f with
    | S754_zero s => sign s
    | S754_infinity s => sign s + 255 * 2 ^ 23
    | S754_nan => 255 * 2 ^ 23 + 2 ^ 22
    | S754_finite s m e =>
        if Zpos m <? 2 ^ 23 then sign s + Zpos m
        else sign s + (e + 150) * 2 ^ 23 + (Zpos m - 2 ^ 23)
    end (UINT32_MOD - 1).

Definition f32_of_Z (n : Z) : float32 :=
  bits_of_SF (binary_normalize prec32 emax32 n 0 false).

Definition f32_lift2 (op : Z -> Z -> spec_float -> spec_float -> spec_float)
    (a b : float32) : float32 :=
  bits_of_SF (op prec32 emax32 (SF_of_bits a) (SF_of_bits b)).

Definition f32_add : float32 -> float32 -> float32 := f32_lift2 SFadd.
Definition f32_sub : float32 -> float32 -> float32 := f32_lift2 SFsub.
Definition f32_mul : float32 -> float32 -> float32 := f32_lift2 SFmul.
Definition f32_div : float32 -> float32 -> float32 := f32_lift2 SFdiv.
Definition f32_sqrt (a : float32) : float32 :=
  bits_of_SF (SFsqrt prec32 emax32 (SF_of_bits a)).
Definition f32_neg (a : float32) : float32 := Z.lxor a (2 ^ 31).
Definition f32_abs (a : float32) : float32 := Z.land a (2 ^ 31 - 1).
Definition f32_eqb (a b : float32) : bool := SFeqb (SF_of_bits a) (SF_of_bits b).
Definition f32_leb (a b : float32) : bool := SFleb (SF_of_bits a) (SF_of_bits b).

(** C's [isfinite]: neither infinity nor NaN, i.e. the exponent field is not
    all ones. *)
Definition isfinite (a : float32) : bool := negb (f32_exponent a =? 255).

(* ------------------------------------------------------------------------- *)
(** ** Quaternions (Arm.h, lines 19-21) *)

Record quaternion_t : Type := mkQuaternion {
  w : float32;
  x : float32;
  y : float32;
  z : float32
}.

(** The four components are 32-bit words. *)
Definition quaternion_wf (q : quaternion_t) : Prop :=
  0 <= w q < UINT32_MOD /\ 0 <= x q < UINT32_MOD /\
  0 <= y q < UINT32_MOD /\ 0 <= z q < UINT32_MOD.

(** Arm.h, lines 118-123. *)
Definition quaternion_is_valid (q : option quaternion_t) : Z :=
  match q with
  | None => 0
  | Some q =>
      if isfinite (w q) && isfinite (x q) && isfinite (y q) && isfinite (z q)
      then 1 else 0
  end.

(** Modelled from the spec: the conjugate computed by the assembly routine
    [quaternion_conjugate], which is not in [Arm.h].  Section 4.1:
    Conjugate(a) is (w, -x, -y, -z). *)
Definition conjugate (a : quaternion_t) : quaternion_t :=
  mkQuaternion (w a) (f32_neg (x a)) (f32_neg (y a)) (f32_neg (z a)).

(** Modelled from the spec: [quaternion_conjugate] is an assembly routine that
    is not in [Arm.h].  Section 4.1: a null input or output is NullArgument.
    The result pair is the return code and the final contents of
    [*result]. *)
Definition quaternion_conjugate (input result : option quaternion_t)
  : Z * option quaternion_t :=
  match input, result with
  | Some a, Some _ => (HC_SUCCESS, Some (conjugate a))
  | _, _ => (HC_ERROR_NULL_PTR, result)
  end.

(** Modelled from the spec: [quaternion_norm] is an assembly routine that is
    not in [Arm.h].  Section 4.1: the Euclidean norm sqrt(w^2+x^2+y^2+z^2). *)
Definition quaternion_norm (q : quaternion_t) : float32 :=
  f32_sqrt
    (f32_add
       (f32_add (f32_add (f32_mul (w q) (w q)) (f32_mul (x q) (x q)))
          (f32_mul (y q) (y q)))
       (f32_mul (z q) (z q))).

(** Modelled from the spec: [quaternion_normalize] is an assembly routine that
    is not in [Arm.h].  Section 4.1: Normalize(a) is a / Norm(a); it fails with
    DivideByZero when Norm(a) is zero and with NullArgument on a null input or
    output.  A failing call leaves [*result] as it was. *)
Definition quaternion_normalize (input result : option quaternion_t)
  : Z * option quaternion_t :=
  match input, result with
  | Some a, Some _ =>
      let n := quaternion_norm a in
      if f32_eqb n (f32_of_Z 0) then (HC_ERROR_DIVIDE_ZERO, result)
      else
        (HC_SUCCESS,
         Some (mkQuaternion (f32_div (w a) n) (f32_div (x a) n)
                 (f32_div (y a) n) (f32_div (z a) n)))
  | _, _ => (HC_ERROR_NULL_PTR, result)
  end.

(** "Unit" in the sense of the spec (sections 3 and 8): the norm is within
    1e-6 of 1. *)
Definition f32_tolerance : float32 := f32_div (f32_of_Z 1) (f32_of_Z 1000000).

Definition quaternion_is_unit (q : quaternion_t) : bool :=
  f32_leb (f32_abs (f32_sub (f32_of_Z 1) (quaternion_norm q))) f32_tolerance.

(* ------------------------------------------------------------------------- *)
(** ** Key derivation (Arm.h, lines 125-146) *)

(** What a C call hands back to its caller: nothing for a [void] function,
    an [int] otherwise. *)
Inductive c_return : Type :=
| RetVoid
| RetInt (code : Z).

Definition lcg_step (state : Z) : Z := (state * 1103515245 + 12345) mod SIZE_MOD.

(** [(float)(state & 0xFFFF) / 65535.0f * 2.0f - 1.0f] *)
Definition lcg_component (state : Z) : float32 :=
  f32_sub
    (f32_mul (f32_div (f32_of_Z (Z.land state 65535)) (f32_of_Z 65535)) (f32_of_Z 2))
    (f32_of_Z 1).

(** The four raw components, before the call of [quaternion_normalize]. *)
Definition raw_key (seed : Z) : quaternion_t :=
  let state := seed in
  let state := lcg_step state in
  let kw := lcg_component state in
  let state := lcg_step state in
  let kx := lcg_component state in
  let state := lcg_step state in
  let ky := lcg_component state in
  let state := lcg_step state in
  let kz := lcg_component state in
  mkQuaternion kw kx ky kz.

(** The function is [void]: the caller gets no return value, only the final
    contents of [*key].  The return code of [quaternion_normalize(key, key)]
    is dropped. *)
Definition quaternion_generate_key (key : option quaternion_t) (seed : Z)
  : c_return * option quaternion_t :=
  match key with
  | None => (RetVoid, None)
  | Some _ =>
      let key := Some (raw_key seed) in
      let '(_, key) := quaternion_normalize key key in
      (RetVoid, key)
  end.

(* ------------------------------------------------------------------------- *)
(** ** Checksum (Arm.h, lines 148-157) *)

(** One iteration: [checksum = (checksum << 1) ^ bytes[i]] on [uint32_t]. *)
Definition checksum_step (checksum : Z) (b : byte) : Z :=
  Z.lxor (Z.shiftl checksum 1 mod UINT32_MOD) (Z_of_byte b).

(** The loop [for (i = 0; i < length; i++)], with [n] iterations to go. *)
Fixpoint checksum_loop (bytes : list byte) (i n : nat) (checksum : Z) : Z :=
  match n with
  | O => checksum
  | S n' => checksum_loop bytes (S i) n' (checksum_step checksum (nth i bytes x00))
  end.

Definition compute_checksum (data : list byte) (length : nat) : Z :=
  checksum_loop data 0 length 0.

(** The digest as the specification words it (section 4.3): a left fold from
    0 of [acc |-> (acc << 1) XOR byte], taken modulo 2^32. *)
Definition spec_checksum (bytes : list byte) : Z :=
  fold_left (fun acc b => Z.lxor (Z.shiftl acc 1) (Z_of_byte b) mod UINT32_MOD) bytes 0.

(* ------------------------------------------------------------------------- *)
(** ** Container header (Arm.h, lines 23-28)

    [hypercomplex_header_t] under the ARM64 (LP64, little-endian) data layout:
    [magic] at offset 0, four bytes of padding, [length] at 8, [key] at 16
    ([w], [x], [y], [z] at 16, 20, 24, 28), [checksum] at 32, four bytes of
    tail padding; [sizeof] is 40. *)

Record hypercomplex_header_t : Type := mkHeader {
  h_magic : Z;
  h_length : Z;
  h_key : quaternion_t;
  h_checksum : Z
}.

Definition HEADER_MAGIC : Z := 0xDEADBEEF.

Definition sizeof_header : nat := 40.
Definition OFF_MAGIC : nat := 0.
Definition OFF_LENGTH : nat := 8.
Definition OFF_KEY : nat := 16.
Definition OFF_CHECKSUM : nat := 32.

Definition quaternion_bytes (q : quaternion_t) : list byte :=
  le_bytes 4 (w q) ++ le_bytes 4 (x q) ++ le_bytes 4 (y q) ++ le_bytes 4 (z q).

Definition load_quaternion (buf : list byte) (off : nat) : option quaternion_t :=
  bw <- load buf off 4;;
  bx <- load buf (off + 4) 4;;
  by_ <- load buf (off + 8) 4;;
  bz <- load buf (off + 12) 4;;
  Some (mkQuaternion (le_value bw) (le_value bx) (le_value by_) (le_value bz)).

(** The fields of the header a container starts with. *)
Definition read_header (buf : list byte) : option hypercomplex_header_t :=
  m <- load buf OFF_MAGIC 4;;
  l <- load buf OFF_LENGTH 8;;
  k <- load_quaternion buf OFF_KEY;;
  c <- load buf OFF_CHECKSUM 4;;
  Some (mkHeader (le_value m) (le_value l) k (le_value c)).

(** [((length + 15) / 16) * 16] on [size_t]. *)
Definition padded_length_of (length : Z) : Z :=
  ((length + 15) mod SIZE_MOD / 16 * 16) mod SIZE_MOD.

(** [p] is the smallest multiple of 16 that is at least [l]. *)
Definition smallest_multiple_of_16 (l p : Z) : Prop :=
  p mod 16 = 0 /\ l <= p /\ forall m, m mod 16 = 0 -> l <= m -> p <= m.

(* ------------------------------------------------------------------------- *)
(** ** The codec (Arm.h, lines 159-255) *)

Section Codec.

(** The block transform, [int hypercomplex_encrypt(input, key, output,
    length)], is an assembly routine outside [Arm.h].  It is given the
    [length] input bytes and the key, and yields its return code and the
    bytes it leaves in [output]. *)
Variable hypercomplex_encrypt : list byte -> quaternion_t -> Z * list byte.

(** Result of both entry points: return code, final contents of the output
    buffer, final value of the size out-parameter. *)
Definition codec_result : Type := Z * option (list byte) * option Z.

Definition hypercomplex_encrypt_data
    (plaintext : option (list byte)) (key : option quaternion_t)
    (ciphertext : option (list byte)) (cipher_length : option Z)
  : option codec_result :=
  match plaintext, key, ciphertext, cipher_length with
  | Some pt, Some k, Some ct, Some cl =>
      if quaternion_is_valid key =? 0
      then Some (HC_ERROR_INVALID_DATA, Some ct, Some cl)
      else
        let length := Z.of_nat (List.length pt) in
        let header_size := Z.of_nat sizeof_header in
        let padded_length := padded_length_of length in
        let total_size := (header_size + padded_length) mod SIZE_MOD in
        if cl <? total_size
        then Some (HC_ERROR_INVALID_DATA, Some ct, Some total_size)
        else
          (* header->magic, ->length, ->key, ->checksum *)
          ct <- store ct OFF_MAGIC (le_bytes 4 HEADER_MAGIC);;
          ct <- store ct OFF_LENGTH (le_bytes 8 length);;
          ct <- store ct OFF_KEY (quaternion_bytes k);;
          ct <- store ct OFF_CHECKSUM
                  (le_bytes 4 (compute_checksum pt (List.length pt)));;
          (* memcpy(padded_data, plaintext, length) *)
          ct <- store ct sizeof_header pt;;
          (* memset(padded_data + length, 0, padded_length - length) *)
          ct <- (if length <? padded_length
                 then store ct (sizeof_header + List.length pt)
                        (repeat x00 (Z.to_nat (padded_length - length)))
                 else Some ct);;
          (* hypercomplex_encrypt(padded_data, key, padded_data, padded_length) *)
          input <- load ct sizeof_header (Z.to_nat padded_length);;
          let '(result, output) := hypercomplex_encrypt input k in
          ct <- store ct sizeof_header output;;
          Some (result, Some ct,
                Some (if result =? HC_SUCCESS then total_size else cl))
  | _, _, _, _ => Some (HC_ERROR_NULL_PTR, ciphertext, cipher_length)
  end.

(** Arm.h, lines 232-242: the payload is copied into the output buffer and
    transformed there with the conjugate of the key stored in the header.
    Yields the transform's return code and the output buffer. *)
Definition decrypt_recover (ct : list byte) (header : hypercomplex_header_t)
    (pt : list byte) : option (Z * list byte) :=
  let cipher_length := Z.of_nat (List.length ct) in
  let data_size := (cipher_length - Z.of_nat sizeof_header) mod SIZE_MOD in
  encrypted_data <- load ct sizeof_header (Z.to_nat data_size);;
  (* memcpy(plaintext, encrypted_data, data_size) *)
  pt <- store pt 0 encrypted_data;;
  (* quaternion_conjugate(&header->key, &inv_key) *)
  inv_key <- snd (quaternion_conjugate (Some (h_key header)) (Some (h_key header)));;
  (* hypercomplex_encrypt(plaintext, &inv_key, plaintext, data_size) *)
  input <- load pt 0 (Z.to_nat data_size);;
  let '(result, output) := hypercomplex_encrypt input inv_key in
  pt <- store pt 0 output;;
  Some (result, pt).

Definition hypercomplex_decrypt_data
    (ciphertext : option (list byte)) (key : option quaternion_t)
    (plaintext : option (list byte)) (plain_length : option Z)
  : option codec_result :=
  match ciphertext, key, plaintext, plain_length with
  | Some ct, Some _, Some pt, Some pl =>
      let cipher_length := Z.of_nat (List.length ct) in
      if cipher_length <? Z.of_nat sizeof_header
      then Some (HC_ERROR_INVALID_DATA, Some pt, Some pl)
      else
        header <- read_header ct;;
        if negb (h_magic header =? HEADER_MAGIC)
        then Some (HC_ERROR_INVALID_DATA, Some pt, Some pl)
        else if pl <? h_length header
        then Some (HC_ERROR_INVALID_DATA, Some pt, Some (h_length header))
        else
          match decrypt_recover ct header pt with
          | Some (result, pt) =>
              if result =? HC_SUCCESS
              then
                (* compute_checksum(plaintext, header->length) *)
                _ <- load pt 0 (Z.to_nat (h_length header));;
                let checksum := compute_checksum pt (Z.to_nat (h_length header)) in
                if negb (checksum =? h_checksum header)
                then Some (HC_ERROR_INVALID_DATA, Some pt, Some (h_length header))
                else Some (result, Some pt, Some (h_length header))
              else Some (result, Some pt, Some pl)
          | None => None
          end
  | _, _, _, _ => Some (HC_ERROR_NULL_PTR, plaintext, plain_length)
  end.

End Codec.

(* ------------------------------------------------------------------------- *)
(** ** A transform that meets the contract

    Byte-wise XOR with the low byte of the key's scalar component, which
    conjugation leaves alone.  It stands in for the assembly routine wherever
    a concrete run of the codec is evaluated. *)

Definition byte_xor (a m : byte) : byte :=
  byte_of_Z (Z.lxor (Z_of_byte a) (Z_of_byte m)).

Definition xor_transform (input : list byte) (key : quaternion_t) : Z * list byte :=
  (HC_SUCCESS, map (fun b => byte_xor b (byte_of_Z (w key))) input).

(** A transform that behaves as [xor_transform] under keys whose scalar
    component is that of [k], and refuses every other key. *)
Definition xor_transform_only (k : quaternion_t) (input : list byte)
    (key : quaternion_t) : Z * list byte :=
  if w key =? w k then xor_transform input key else (HC_ERROR_INVALID_DATA, input).

(** Byte-wise XOR with the top byte of the key's first vector component, the
    byte that holds its sign: this transform tells a key from its
    conjugate. *)
Definition xor_transform_sign (input : list byte) (key : quaternion_t)
  : Z * list byte :=
  (HC_SUCCESS, map (fun b => byte_xor b (byte_of_Z (Z.shiftr (x key) 24))) input).

(* ------------------------------------------------------------------------- *)
(** ** Test vectors

    The key of the test suite ([quaternion_generate_key] with seed 12345), a
    three-byte plaintext, and the container Encode makes of them in a zeroed
    56-byte buffer under [xor_transform]. *)

Definition example_key : quaternion_t :=
  mkQuaternion 3206384765 3204684014 3205828934 1040786122.

Definition example_plaintext : list byte := [x61; x62; x63].

(** Magic EF BE AD DE, padding, length 3, the key, checksum 0x123, padding;
    then the payload: 61 62 63 and thirteen zero bytes, each XOR 7D. *)
Definition example_container : list byte :=
  [xef; xbe; xad; xde; x00; x00; x00; x00;
   x03; x00; x00; x00; x00; x00; x00; x00;
   x7d; x8c; x1d; xbf; xee; x98; x03; xbf;
   x46; x11; x15; xbf; xca; x22; x09; x3e;
   x23; x01; x00; x00; x00; x00; x00; x00;
   x1c; x1f; x1e; x7d; x7d; x7d; x7d; x7d;
   x7d; x7d; x7d; x7d; x7d; x7d; x7d; x7d].

(** A 40-byte plaintext and its container (88 bytes): length 40, checksum
    0xFFFFFFDF, payload forty bytes 61 and eight zero bytes, each XOR 7D. *)
Definition example_long_plaintext : list byte := repeat x61 40.

Definition example_long_container : list byte :=
  [xef; xbe; xad; xde; x00; x00; x00; x00;
   x28; x00; x00; x00; x00; x00; x00; x00;
   x7d; x8c; x1d; xbf; xee; x98; x03; xbf;
   x46; x11; x15; xbf; xca; x22; x09; x3e;
   xdf; xff; xff; xff; x00; x00; x00; x00]
  ++ repeat x1c 40 ++ repeat x7d 8.

(** What Decode leaves in a zeroed 16-byte output buffer. *)
Definition example_recovered : list byte := example_plaintext ++ repeat x00 13.

(* ------------------------------------------------------------------------- *)
(** ** Vocabulary of the specification *)

(** The header fields read off the first [sizeof_header] bytes of an object. *)
Definition header_of (buf : list byte) : hypercomplex_header_t :=
  mkHeader
    (le_value (firstn 4 buf))
    (le_value (firstn 8 (skipn 8 buf)))
    (mkQuaternion
       (le_value (firstn 4 (skipn 16 buf))) (le_value (firstn 4 (skipn 20 buf)))
       (le_value (firstn 4 (skipn 24 buf))) (le_value (firstn 4 (skipn 28 buf))))
    (le_value (firstn 4 (skipn 32 buf))).

(** The header bytes [hypercomplex_encrypt_data] leaves in an object that
    held [old]: the four fields, and the padding bytes of [old] untouched. *)
Definition header_image (old : list byte) (length : Z) (key : quaternion_t)
    (checksum : Z) : list byte :=
  le_bytes 4 HEADER_MAGIC ++ firstn 4 (skipn 4 old) ++
  le_bytes 8 length ++ quaternion_bytes key ++
  le_bytes 4 checksum ++ firstn 4 (skipn 36 old).

(** The plaintext followed by the zero bytes that pad it to [padded] bytes. *)
Definition zero_padded (pt : list byte) (padded : Z) : list byte :=
  pt ++ repeat x00 (Z.to_nat (padded - Z.of_nat (length pt))).

(** The contract of the block transform (section 4.4): on a block whose
    length is a multiple of 16 and a valid unit key it succeeds, keeps the
    length, and is undone by the transform under the conjugate key. *)
Definition transform_contract
    (transform : list byte -> quaternion_t -> Z * list byte) : Prop :=
  forall (block : list byte) (key : quaternion_t),
    quaternion_is_valid (Some key) = 1 ->
    quaternion_is_unit key = true ->
    Z.of_nat (length block) mod 16 = 0 ->
    exists out,
      transform block key = (HC_SUCCESS, out) /\
      length out = length block /\
      transform out (conjugate key) = (HC_SUCCESS, block).

(** The object [buf] with the byte at offset [i] replaced by [b]. *)
Definition set_byte (buf : list byte) (i : nat) (b : byte) : list byte :=
  firstn i buf ++ b :: skipn (S i) buf.

(** The error kinds of the specification (section 7). *)
Inductive hc_error : Type :=
| NullArgument
| DivideByZero
| InvalidKey
| Malformed
| BufferTooSmall
| IntegrityMismatch.

(** When Encode raises which kind (section 4.5). *)
Inductive encode_raises (pt : list byte) (key : quaternion_t) (capacity : Z)
  : hc_error -> Prop :=
| encode_invalid_key :
    quaternion_is_valid (Some key) = 0 ->
    encode_raises pt key capacity InvalidKey
| encode_too_small :
    quaternion_is_valid (Some key) = 1 ->
    Z.of_nat (length pt) + 15 + Z.of_nat sizeof_header < SIZE_MOD ->
    capacity < Z.of_nat sizeof_header + padded_length_of (Z.of_nat (length pt)) ->
    encode_raises pt key capacity BufferTooSmall.

(** When Decode raises which kind (section 4.5). *)
Inductive decode_raises
    (transform : list byte -> quaternion_t -> Z * list byte)
    (ct pt : list byte) (capacity : Z) : hc_error -> Prop :=
| decode_too_short :
    Z.of_nat (length ct) < Z.of_nat sizeof_header ->
    decode_raises transform ct pt capacity Malformed
| decode_bad_magic :
    Z.of_nat sizeof_header <= Z.of_nat (length ct) ->
    h_magic (header_of ct) <> HEADER_MAGIC ->
    decode_raises transform ct pt capacity Malformed
| decode_too_small :
    Z.of_nat sizeof_header <= Z.of_nat (length ct) ->
    h_magic (header_of ct) = HEADER_MAGIC ->
    capacity < h_length (header_of ct) ->
    decode_raises transform ct pt capacity BufferTooSmall
| decode_integrity (recovered : list byte) :
    Z.of_nat sizeof_header <= Z.of_nat (length ct) ->
    h_magic (header_of ct) = HEADER_MAGIC ->
    h_length (header_of ct) <= capacity ->
    decrypt_recover transform ct (header_of ct) pt = Some (HC_SUCCESS, recovered) ->
    h_length (header_of ct) <= Z.of_nat (length recovered) ->
    compute_checksum recovered (Z.to_nat (h_length (header_of ct)))
      <> h_checksum (header_of ct) ->
    decode_raises transform ct pt capacity IntegrityMismatch.

(** Byte-wise XOR of two buffers, up to the shorter one. *)
Definition xor_bytes (a b : list byte) : list byte :=
  map (fun p => byte_xor (fst p) (snd p)) (combine a b).

(* ------------------------------------------------------------------------- *)
(** ** Initialisers (Arm.h, lines 55-66) *)

Definition quaternion_init (q : option quaternion_t) (w x y z : float32)
  : option quaternion_t :=
  match q with
  | Some _ => Some (mkQuaternion w x y z)
  | None => None
  end.

(** [quaternion_init(q, 1.0f, 0.0f, 0.0f, 0.0f)] *)
Definition quaternion_identity (q : option quaternion_t) : option quaternion_t :=
  quaternion_init q 0x3F800000 0 0 0.

(* ------------------------------------------------------------------------- *)
(** ** Benchmark (Arm.h, lines 257-281)

    [uint64_t] and [size_t] are 64 bits wide, [time_t] and [long] are signed
    64-bit integers, [double] is binary64.  The two readings of
    [clock_gettime(CLOCK_MONOTONIC, ...)] are inputs of the model. *)

Record perf_stats_t : Type := mkPerfStats {
  operations_per_second : Z;
  average_latency_ns : spec_float;
  bytes_processed : Z
}.

Record timespec : Type := mkTimespec {
  tv_sec : Z;
  tv_nsec : Z
}.

Definition LONG_MIN : Z := - 2 ^ 63.
Definition LONG_MAX : Z := 2 ^ 63 - 1.

(** Subtraction on [long]; signed overflow is undefined. *)
Definition long_sub (a b : Z) : option Z :=
  let d := a - b in
  if (LONG_MIN <=? d) && (d <=? LONG_MAX) then Some d else None.

Definition prec64 : Z := 53.
Definition emax64 : Z := 1024.

(** Conversion of an integer to [double], round to nearest even. *)
Definition f64_of_Z (n : Z) : spec_float := binary_normalize prec64 emax64 n 0 false.

Section Benchmark.

(** [int quaternion_multiply(q1, q2, result)] is an assembly routine outside
    [Arm.h]; its two inputs are [const].  It is given the inputs and the old
    contents of [*result], and yields its return code and the new contents
    of [*result]. *)
Variable quaternion_multiply :
  quaternion_t -> quaternion_t -> quaternion_t -> Z * quaternion_t.

(** The loop [for (i = 0; i < iterations; i++)], with [n] iterations to go;
    the return code of the product is dropped. *)
Fixpoint benchmark_loop (q1 q2 result : quaternion_t) (n : nat) : quaternion_t :=
  match n with
  | O => result
  | S n' => benchmark_loop q1 q2 (snd (quaternion_multiply q1 q2 result)) n'
  end.

(** [locals] is what the uninitialised locals [q1], [q2], [result] hold on
    entry; [start] and [end_] are the two clock readings.  Yields the return
    code and the final contents of [*stats]. *)
Definition hypercomplex_benchmark (iterations : Z) (stats : option perf_stats_t)
    (locals : quaternion_t) (start end_ : timespec)
  : option (Z * option perf_stats_t) :=
  match stats with
  | None => Some (HC_ERROR_NULL_PTR, None)
  | Some _ =>
      (* quaternion_init(&q1, 1.0f, 2.0f, 3.0f, 4.0f) *)
      q1 <- quaternion_init (Some locals) 0x3F800000 0x40000000 0x40400000 0x40800000;;
      (* quaternion_init(&q2, 0.5f, 1.5f, 2.5f, 3.5f) *)
      q2 <- quaternion_init (Some locals) 0x3F000000 0x3FC00000 0x40200000 0x40600000;;
      let result := benchmark_loop q1 q2 locals (Z.to_nat iterations) in
      sec <- long_sub (tv_sec end_) (tv_sec start);;
      nsec <- long_sub (tv_nsec end_) (tv_nsec start);;
      let elapsed_ns :=
        ((sec mod SIZE_MOD * 1000000000) mod SIZE_MOD + nsec mod SIZE_MOD) mod SIZE_MOD in
      if elapsed_ns =? 0 then None
      else
        Some (HC_SUCCESS,
              Some (mkPerfStats
                      ((iterations * 1000000000) mod SIZE_MOD / elapsed_ns)
                      (SFdiv prec64 emax64 (f64_of_Z elapsed_ns) (f64_of_Z iterations))
                      (((iterations * 16) mod SIZE_MOD * 2) mod SIZE_MOD)))
  end.

End Benchmark.

(** The elapsed time in nanoseconds between two normalised clock readings of
    which the second is not earlier than the first. *)
Definition true_elapsed_ns (start end_ : timespec) : Z :=
  (tv_sec end_ - tv_sec start) * 1000000000 + (tv_nsec end_ - tv_nsec start).

(* ------------------------------------------------------------------------- *)
(** ** The round-trip test of the suite (Arm.c, lines 205-237) *)

(** ["Hello, hypercomplex world! This is test data."], 45 bytes. *)
Definition test_data : list byte :=
  [x48; x65; x6c; x6c; x6f; x2c; x20; x68; x79; x70; x65; x72; x63; x6f; x6d;
   x70; x6c; x65; x78; x20; x77; x6f; x72; x6c; x64; x21; x20; x54; x68; x69;
   x73; x20; x69; x73; x20; x74; x65; x73; x74; x20; x64; x61; x74; x61; x2e].

Fixpoint bytes_eqb (a b : list byte) : bool :=
  match a, b with
  | [], [] => true
  | c :: a', d :: b' => Byte.eqb c d && bytes_eqb a' b'
  | _, _ => false
  end.

(** [memcmp(a, b, n) == 0] *)
Definition memcmp_is_zero (a b : list byte) (n : nat) : option bool :=
  a <- load a 0 n;;
  b <- load b 0 n;;
  Some (bytes_eqb a b).

Section TestSuite.

Variable hypercomplex_encrypt : list byte -> quaternion_t -> Z * list byte.

(** [key0] is what the uninitialised local [key] holds on entry;
    [ciphertext] and [decrypted] are what the two calls of [malloc] return
    ([None] for [NULL]).  A failing [TEST_ASSERT] prints and returns 0; the
    model keeps the return value. *)
Definition test_encryption_decryption (key0 : quaternion_t)
    (ciphertext decrypted : option (list byte)) : option Z :=
  let data_len := Z.of_nat (length test_data) in
  let '(_, key) := quaternion_generate_key (Some key0) 12345 in
  let cipher_len := (data_len + Z.of_nat sizeof_header + 32) mod SIZE_MOD in
  let decrypted_len := (data_len + 16) mod SIZE_MOD in
  match ciphertext, decrypted with
  | None, _ => Some 0
  | _, None => Some 0
  | Some _, Some _ =>
      r <- hypercomplex_encrypt_data hypercomplex_encrypt
             (Some test_data) key ciphertext (Some cipher_len);;
      let '(ret, ciphertext, cipher_len) := r in
      if negb (ret =? HC_SUCCESS) then Some 0
      else
        ct <- ciphertext;;
        cipher_len <- cipher_len;;
        input <- load ct 0 (Z.to_nat cipher_len);;
        r <- hypercomplex_decrypt_data hypercomplex_encrypt
               (Some input) key decrypted (Some decrypted_len);;
        let '(ret, decrypted, decrypted_len) := r in
        if negb (ret =? HC_SUCCESS) then Some 0
        else
          decrypted_len <- decrypted_len;;
          if negb (decrypted_len =? data_len) then Some 0
          else
            d <- decrypted;;
            same <- memcmp_is_zero test_data d (Z.to_nat data_len);;
            if same then Some 1 else Some 0
  end.

End TestSuite.

(* ------------------------------------------------------------------------- *)
(** ** Binary32 arithmetic on machine integers

    A second evaluator of the binary32 operations the key derivation uses,
    over 63-bit machine integers: a normal number is a sign, a mantissa in
    [2^23, 2^24) and an exponent biased by 1024.  Every operation answers
    [FOther] outside the cases it handles (subnormal results, overflow,
    NaN).  The properties part proves each operation equal to its
    [SpecFloat] counterpart wherever the answer is not [FOther]; it serves to
    run the key derivation on all 65536 values of the low 16 bits of the
    seed. *)

(** The record [shr] leaves after a shift by [n] places, in closed form. *)
Definition shr_closed (m : Z) (r s : bool) (n : Z) : shr_record :=
  if n <=? 0 then {| shr_m := m; shr_r := r; shr_s := s |}
  else
    let rem := m mod 2 ^ n in
    let half := 2 ^ (n - 1) in
    {| shr_m := m / 2 ^ n;
       shr_r := half <=? rem;
       shr_s := r || s || negb ((rem =? 0) || (rem =? half)) |}.

(** Normal binary32 numbers and zeros with machine-integer fields: mantissa
    in [2^23, 2^24), exponent biased by 1024. *)
Inductive fast_float : Type :=
| FZero (s : bool)
| FNorm (s : bool) (m e : int)
| FOther.

Definition fast_wf (f : fast_float) : Prop :=
  match f with
  | FZero _ => True
  | FNorm _ m e =>
      8388608 <= Uint63.to_Z m < 16777216 /\ 875 <= Uint63.to_Z e <= 1128
  | FOther => False
  end.

Definition SF_of_fast (f : fast_float) : spec_float :=
  match f with
  | FZero s => S754_zero s
  | FNorm s m e => S754_finite s (Z.to_pos (Uint63.to_Z m)) (Uint63.to_Z e - 1024)
  | FOther => S754_nan
  end.

(** [round_nearest_even] on a mantissa with its round and sticky bits. *)
Definition round_up (q : int) (r st : bool) : int :=
  if r then (if st then (q + 1)%uint63
             else if Uint63.is_even q then q else (q + 1)%uint63)
  else q.

(** [binary_round_aux] on a mantissa of at least 24 digits, for a result in
    the normal range. *)
Definition fast_round (s : bool) (m e : int) (r st : bool) : fast_float :=
  let d := (63 - Uint63.head0 m)%uint63 in
  if (d <? 24)%uint63 then FOther
  else
    let n := (d - 24)%uint63 in
    let e1 := (e + n)%uint63 in
    if (e1 <? 875)%uint63 || (1127 <? e1)%uint63 then FOther
    else
      let q := (m >> n)%uint63 in
      let rem := (m - (q << n))%uint63 in
      let half := (1 << (n - 1))%uint63 in
      let r1 := if (n =? 0)%uint63 then r else (half <=? rem)%uint63 in
      let s1 := if (n =? 0)%uint63 then st
                else r || st || negb ((rem =? 0)%uint63 || (rem =? half)%uint63) in
      let q' := round_up q r1 s1 in
      if (q' =? 16777216)%uint63 then FNorm s 8388608 (e1 + 1)%uint63
      else FNorm s q' e1.

(** [SFmul], [SFdiv] on normal numbers and zeros. *)
Definition fast_mul (a b : fast_float) : fast_float :=
  match a, b with
  | FNorm sa ma ea, FNorm sb mb eb =>
      fast_round (xorb sa sb) (ma * mb)%uint63 (ea + eb - 1024)%uint63 false false
  | FNorm sa _ _, FZero sb => FZero (xorb sa sb)
  | FZero sa, FNorm sb _ _ => FZero (xorb sa sb)
  | FZero sa, FZero sb => FZero (xorb sa sb)
  | _, _ => FOther
  end.

Definition fast_div (a b : fast_float) : fast_float :=
  match a, b with
  | FNorm sa ma ea, FNorm sb mb eb =>
      if (ea + 125 <? eb)%uint63 then FOther
      else
        let n := (ma << 24)%uint63 in
        let q := (n / mb)%uint63 in
        let k := (n mod mb)%uint63 in
        let k2 := (k + k)%uint63 in
        fast_round (xorb sa sb) q (ea + 1000 - eb)%uint63
          (mb <=? k2)%uint63 (negb ((k =? 0)%uint63 || (k2 =? mb)%uint63))
  | FZero sa, FNorm sb _ _ => FZero (xorb sa sb)
  | _, _ => FOther
  end.

(** [SFsqrt] on a positive normal number. *)
Definition fast_sqrt (a : fast_float) : fast_float :=
  match a with
  | FNorm false ma ea =>
      let s := if Uint63.is_even ea then 24%uint63 else 23%uint63 in
      let n := (ma << s)%uint63 in
      let q := Uint63.sqrt n in
      let k := (n - q * q)%uint63 in
      fast_round false q ((ea + 1001) / 2)%uint63
        ((q <? k)%uint63) (negb (k =? 0)%uint63)
  | FZero s => FZero s
  | _ => FOther
  end.

(** [binary_round]: an exact value [m * 2^e] brought to 24 digits. *)
Definition fast_normalize (s : bool) (m e : int) : fast_float :=
  let d := (63 - Uint63.head0 m)%uint63 in
  if (d <? 24)%uint63 then
    let k := (24 - d)%uint63 in
    if (e <? k + 875)%uint63 then FOther
    else fast_round s (m << k)%uint63 (e - k)%uint63 false false
  else fast_round s m e false false.

(** [binary_normalize] of a non-negative integer at exponent 0. *)
Definition fast_of_Z (v : int) : fast_float :=
  if (v =? 0)%uint63 then FZero false else fast_normalize false v 1024.

(** [SFadd] on two normal numbers: alignment, exact sum or difference,
    normalisation. *)
Definition fast_add_finite (sa : bool) (ma ea : int) (sb : bool) (mb eb : int)
  : fast_float :=
  let ez := if (ea <=? eb)%uint63 then ea else eb in
  let da := (ea - ez)%uint63 in
  let db := (eb - ez)%uint63 in
  if (37 <? da)%uint63 || (37 <? db)%uint63 then FOther
  else
    let a := (ma << da)%uint63 in
    let b := (mb << db)%uint63 in
    if Bool.eqb sa sb then fast_normalize sa (a + b)%uint63 ez
    else if (b <? a)%uint63 then fast_normalize sa (a - b)%uint63 ez
    else if (a <? b)%uint63 then fast_normalize sb (b - a)%uint63 ez
    else FZero false.

Definition fast_add (a b : fast_float) : fast_float :=
  match a, b with
  | FNorm sa ma ea, FNorm sb mb eb => fast_add_finite sa ma ea sb mb eb
  | FZero sa, FZero sb => if Bool.eqb sa sb then a else FZero false
  | FZero _, FNorm _ _ _ => b
  | FNorm _ _ _, FZero _ => a
  | _, _ => FOther
  end.

Definition fast_sub (a b : fast_float) : fast_float :=
  match a, b with
  | FNorm sa ma ea, FNorm sb mb eb => fast_add_finite sa ma ea (negb sb) mb eb
  | FZero sa, FZero sb => if Bool.eqb sa (negb sb) then a else FZero false
  | FZero _, FNorm sb mb eb => FNorm (negb sb) mb eb
  | FNorm _ _ _, FZero _ => a
  | _, _ => FOther
  end.

Definition fast_abs (a : fast_float) : fast_float :=
  match a with
  | FZero _ => FZero false
  | FNorm _ m e => FNorm false m e
  | FOther => FOther
  end.

(** [a <= b] for a non-negative [a] and a positive [b]; [false] outside
    these cases. *)
Definition fast_leb (a b : fast_float) : bool :=
  match a, b with
  | FZero _, FNorm false _ _ => true
  | FNorm false ma ea, FNorm false mb eb =>
      (ea <? eb)%uint63 || ((ea =? eb)%uint63 && (ma <=? mb)%uint63)
  | _, _ => false
  end.

(** [x] is the bit pattern of [f], unless [f] is outside the fast path. *)
Definition fast_rep (f : fast_float) (x : float32) : Prop :=
  f <> FOther -> fast_wf f /\ x = bits_of_SF (SF_of_fast f).

(** The low 16 bits of the next LCG state. *)
Definition lcg16 (v : int) : int := ((v * 1103515245 + 12345) land 65535)%uint63.

(** The constants of the key derivation and of the unit test. *)
Definition fast_65535 : fast_float := Eval vm_compute in fast_of_Z 65535.

Definition fast_2 : fast_float := Eval vm_compute in fast_of_Z 2.

Definition fast_1 : fast_float := Eval vm_compute in fast_of_Z 1.

Definition fast_tolerance : fast_float :=
  Eval vm_compute in fast_div (fast_of_Z 1) (fast_of_Z 1000000).

(** [lcg_component], [quaternion_norm]. *)
Definition fast_component (v : int) : fast_float :=
  fast_sub (fast_mul (fast_div (fast_of_Z v) fast_65535) fast_2) fast_1.

Definition fast_norm (a b c d : fast_float) : fast_float :=
  fast_sqrt (fast_add (fast_add (fast_add (fast_mul a a) (fast_mul b b)) (fast_mul c c)) (fast_mul d d)).

Definition is_fast (f : fast_float) : bool :=
  match f with FOther => false | _ => true end.

(** Key derivation from the low 16 bits [v0] of the seed: the norm of the raw
    components is positive, the normalized components are finite and their
    norm is within the tolerance of 1. *)
Definition fast_key_ok (v0 : int) : bool :=
  let v1 := lcg16 v0 in
  let v2 := lcg16 v1 in
  let v3 := lcg16 v2 in
  let v4 := lcg16 v3 in
  let a := fast_component v1 in
  let b := fast_component v2 in
  let c := fast_component v3 in
  let d := fast_component v4 in
  match fast_norm a b c d with
  | FNorm false m e =>
      let n := FNorm false m e in
      let ka := fast_div a n in
      let kb := fast_div b n in
      let kc := fast_div c n in
      let kd := fast_div d n in
      is_fast ka && is_fast kb && is_fast kc && is_fast kd &&
      fast_leb (fast_abs (fast_sub fast_1 (fast_norm ka kb kc kd))) fast_tolerance
  | _ => false
  end.

(** [fast_key_ok] on [n] consecutive values from [v] on. *)
Fixpoint fast_keys_ok (n : nat) (v : int) : bool :=
  match n with
  | O => true
  | S n' => fast_key_ok v && fast_keys_ok n' (v + 1)%uint63
  end.

(* ========================================================================= *)
(** * Properties *)

(* ------------------------------------------------------------------------- *)
(** ** Bytes and little-endian images *)

Lemma Z_of_byte_range (b : byte) : 0 <= Z_of_byte b < 256.
Proof.
  unfold Z_of_byte. pose proof (Byte.to_N_bounded b). lia.
Qed.

Lemma byte_of_Z_of_byte (b : byte) : byte_of_Z (Z_of_byte b) = b.
Proof.
  unfold byte_of_Z.
  rewrite Z.mod_small by apply Z_of_byte_range.
  unfold Z_of_byte. rewrite N2Z.id, Byte.of_to_N. reflexivity.
Qed.

Lemma Z_of_byte_of_Z (v : Z) : Z_of_byte (byte_of_Z v) = v mod 256.
Proof.
  unfold byte_of_Z, Z_of_byte.
  pose proof (Z.mod_pos_bound v 256 ltac:(lia)) as Hr.
  destruct (Byte.of_N (Z.to_N (v mod 256))) as [b|] eqn:E.
  - apply Byte.to_of_N in E. rewrite E. apply Z2N.id. lia.
  - apply Byte.of_N_None_iff in E. lia.
Qed.

Lemma le_bytes_length (n : nat) (v : Z) : length (le_bytes n v) = n.
Proof.
  revert v. induction n as [|n IH]; intros v; simpl; [reflexivity|].
  now rewrite IH.
Qed.

Lemma le_value_range (bs : list byte) : 0 <= le_value bs < 256 ^ Z.of_nat (length bs).
Proof.
  induction bs as [|b rest IH]; [simpl; lia|].
  cbn [le_value length]. rewrite Nat2Z.inj_succ, Z.pow_succ_r by lia.
  pose proof (Z_of_byte_range b). nia.
Qed.

Lemma le_value_le_bytes (n : nat) (v : Z) :
  le_value (le_bytes n v) = v mod 256 ^ Z.of_nat n.
Proof.
  revert v. induction n as [|n IH]; intros v.
  - simpl. now rewrite Z.mod_1_r.
  - cbn [le_bytes le_value]. rewrite IH, Z_of_byte_of_Z.
    rewrite Nat2Z.inj_succ, Z.pow_succ_r by lia.
    rewrite Z.rem_mul_r by lia. reflexivity.
Qed.

Lemma le_value_le_bytes_small (n : nat) (v : Z) :
  0 <= v < 256 ^ Z.of_nat n -> le_value (le_bytes n v) = v.
Proof.
  intros Hv. rewrite le_value_le_bytes. now apply Z.mod_small.
Qed.

Lemma le_bytes_le_value (bs : list byte) : le_bytes (length bs) (le_value bs) = bs.
Proof.
  induction bs as [|b rest IH]; [reflexivity|].
  cbn [length le_bytes le_value].
  pose proof (Z_of_byte_range b) as Hb.
  assert (Hq : (Z_of_byte b + 256 * le_value rest) / 256 = le_value rest).
  { rewrite Z.add_comm, Z.mul_comm, Z.div_add_l by lia.
    rewrite Z.div_small by lia. lia. }
  assert (Hm : byte_of_Z (Z_of_byte b + 256 * le_value rest) = b).
  { unfold byte_of_Z.
    rewrite Z.mul_comm, Z.mod_add, Z.mod_small by lia.
    unfold Z_of_byte. now rewrite N2Z.id, Byte.of_to_N. }
  now rewrite Hq, Hm, IH.
Qed.

(** Two byte strings of one length with one value are the same string. *)
Lemma le_value_inj (a b : list byte) :
  length a = length b -> le_value a = le_value b -> a = b.
Proof.
  intros Hl Hv.
  rewrite <- (le_bytes_le_value a), <- (le_bytes_le_value b).
  now rewrite Hl, Hv.
Qed.

(* ------------------------------------------------------------------------- *)
(** ** Checksum *)

Lemma land_lxor_distr (a b m : Z) :
  Z.land (Z.lxor a b) m = Z.lxor (Z.land a m) (Z.land b m).
Proof.
  apply Z.bits_inj'. intros n _.
  rewrite Z.land_spec, !Z.lxor_spec, !Z.land_spec.
  destruct (Z.testbit a n), (Z.testbit b n), (Z.testbit m n); reflexivity.
Qed.

Lemma checksum_step_mod (c : Z) (b : byte) :
  checksum_step c b = Z.lxor (Z.shiftl c 1) (Z_of_byte b) mod UINT32_MOD.
Proof.
  unfold checksum_step, UINT32_MOD.
  pose proof (Z_of_byte_range b) as Hb.
  rewrite <- !Z.land_ones by lia.
  rewrite land_lxor_distr.
  f_equal. rewrite Z.land_ones by lia.
  symmetry. apply Z.mod_small. lia.
Qed.

Lemma checksum_step_range (c : Z) (b : byte) :
  0 <= checksum_step c b < UINT32_MOD.
Proof.
  rewrite checksum_step_mod. apply Z.mod_pos_bound. reflexivity.
Qed.

Lemma skipn_cons_nth (A : Type) (d : A) (l : list A) (i : nat) :
  (i < length l)%nat -> skipn i l = nth i l d :: skipn (S i) l.
Proof.
  revert i. induction l as [|a l IH]; intros i Hi; simpl in Hi; [lia|].
  destruct i as [|i]; [reflexivity|].
  cbn [skipn nth]. apply IH. lia.
Qed.

Lemma checksum_loop_fold (bytes : list byte) (n i : nat) (acc : Z) :
  (i + n <= length bytes)%nat ->
  checksum_loop bytes i n acc = fold_left checksum_step (firstn n (skipn i bytes)) acc.
Proof.
  revert i acc. induction n as [|n IH]; intros i acc Hb; [reflexivity|].
  cbn [checksum_loop].
  rewrite (skipn_cons_nth _ x00 bytes i) by lia.
  cbn [firstn fold_left]. apply IH. lia.
Qed.

Lemma fold_checksum_step_spec (bytes : list byte) (acc : Z) :
  fold_left checksum_step bytes acc =
  fold_left (fun a b => Z.lxor (Z.shiftl a 1) (Z_of_byte b) mod UINT32_MOD) bytes acc.
Proof.
  revert acc. induction bytes as [|b rest IH]; intros acc; [reflexivity|].
  cbn [fold_left]. rewrite checksum_step_mod. apply IH.
Qed.

Lemma compute_checksum_firstn (data : list byte) (n : nat) :
  (n <= length data)%nat ->
  compute_checksum data n = spec_checksum (firstn n data).
Proof.
  intros Hn. unfold compute_checksum, spec_checksum.
  rewrite checksum_loop_fold by (simpl; lia).
  cbn [skipn]. apply fold_checksum_step_spec.
Qed.

Lemma compute_checksum_all (data : list byte) :
  compute_checksum data (length data) = spec_checksum data.
Proof.
  rewrite compute_checksum_firstn by lia. now rewrite firstn_all.
Qed.

Lemma fold_checksum_step_range (bytes : list byte) (acc : Z) :
  0 <= acc < UINT32_MOD -> 0 <= fold_left checksum_step bytes acc < UINT32_MOD.
Proof.
  revert acc. induction bytes as [|b rest IH]; intros acc Ha; [exact Ha|].
  cbn [fold_left]. apply IH, checksum_step_range.
Qed.

Lemma compute_checksum_range (data : list byte) (n : nat) :
  (n <= length data)%nat -> 0 <= compute_checksum data n < UINT32_MOD.
Proof.
  intros Hn. unfold compute_checksum.
  rewrite checksum_loop_fold by (simpl; lia).
  apply fold_checksum_step_range. unfold UINT32_MOD. lia.
Qed.

(** The checksum reads only the first [n] bytes of the object. *)
Lemma compute_checksum_prefix (a b : list byte) (n : nat) :
  (n <= length a)%nat -> (n <= length b)%nat -> firstn n a = firstn n b ->
  compute_checksum a n = compute_checksum b n.
Proof.
  intros Ha Hb E. now rewrite !compute_checksum_firstn, E by assumption.
Qed.

(** C4.  [compute_checksum] over a whole byte sequence is the left fold, from
    accumulator 0, of [acc |-> ((acc << 1) XOR byte) mod 2^32]; the checksum
    of the empty sequence is 0; and the digest depends on the order of the
    bytes (01 02 and 02 01 have different checksums). *)
Theorem checksum_is_left_fold :
  (forall bytes : list byte,
      compute_checksum bytes (length bytes) =
      fold_left (fun acc b => Z.lxor (Z.shiftl acc 1) (Z_of_byte b) mod 2 ^ 32) bytes 0)
  /\ compute_checksum [] 0 = 0
  /\ compute_checksum [x01; x02] 2 <> compute_checksum [x02; x01] 2.
Proof.
  split; [|split].
  - intros bytes. apply compute_checksum_all.
  - reflexivity.
  - vm_compute. discriminate.
Qed.

(* ------------------------------------------------------------------------- *)
(** ** Key derivation *)

Lemma quaternion_normalize_cases (a r : quaternion_t) :
  quaternion_normalize (Some a) (Some r) =
  if f32_eqb (quaternion_norm a) (f32_of_Z 0)
  then (HC_ERROR_DIVIDE_ZERO, Some r)
  else (HC_SUCCESS,
        Some (mkQuaternion (f32_div (w a) (quaternion_norm a))
                (f32_div (x a) (quaternion_norm a))
                (f32_div (y a) (quaternion_norm a))
                (f32_div (z a) (quaternion_norm a)))).
Proof. reflexivity. Qed.

(** The key the test suite derives (seed 12345) is finite and of unit norm. *)
Example generate_key_12345 :
  exists k,
    quaternion_generate_key (Some (mkQuaternion 0 0 0 0)) 12345 = (RetVoid, Some k)
    /\ k = mkQuaternion 3206384765 3204684014 3205828934 1040786122
    /\ quaternion_is_valid (Some k) = 1
    /\ quaternion_is_unit k = true.
Proof.
  eexists. split; [vm_compute; reflexivity|].
  split; [reflexivity|]. split; vm_compute; reflexivity.
Qed.

(** The modelled assembly routines on the inputs of the test suite (Arm.c):
    Normalize of the zero quaternion fails with [HC_ERROR_DIVIDE_ZERO],
    Normalize of (1,2,3,4) has norm within 1e-6 of 1, the norm of (0,3,4,0)
    is 5 and the conjugate of (1,2,3,4) is (1,-2,-3,-4). *)
Example normalize_zero_quaternion :
  let q := mkQuaternion (f32_of_Z 0) (f32_of_Z 0) (f32_of_Z 0) (f32_of_Z 0) in
  quaternion_normalize (Some q) (Some q) = (HC_ERROR_DIVIDE_ZERO, Some q).
Proof. vm_compute. reflexivity. Qed.

Example normalize_1234_is_unit :
  let q := mkQuaternion (f32_of_Z 1) (f32_of_Z 2) (f32_of_Z 3) (f32_of_Z 4) in
  fst (quaternion_normalize (Some q) (Some q)) = HC_SUCCESS /\
  option_map quaternion_is_unit (snd (quaternion_normalize (Some q) (Some q)))
  = Some true.
Proof. vm_compute. split; reflexivity. Qed.

Example norm_0340 :
  quaternion_norm (mkQuaternion (f32_of_Z 0) (f32_of_Z 3) (f32_of_Z 4) (f32_of_Z 0))
  = f32_of_Z 5.
Proof. vm_compute. reflexivity. Qed.

Example conjugate_1234 :
  let q := mkQuaternion (f32_of_Z 1) (f32_of_Z 2) (f32_of_Z 3) (f32_of_Z 4) in
  quaternion_conjugate (Some q) (Some q) =
  (HC_SUCCESS,
   Some (mkQuaternion (f32_of_Z 1) (f32_of_Z (-2)) (f32_of_Z (-3)) (f32_of_Z (-4)))).
Proof. vm_compute. reflexivity. Qed.

Lemma bits_of_SF_range (f : spec_float) : 0 <= bits_of_SF f < UINT32_MOD.
Proof.
  unfold bits_of_SF. change (UINT32_MOD - 1) with (Z.ones 32).
  rewrite Z.land_ones by lia. apply Z.mod_pos_bound. reflexivity.
Qed.

Lemma raw_key_wf (seed : Z) : quaternion_wf (raw_key seed).
Proof.
  unfold quaternion_wf, raw_key, lcg_component, f32_sub, f32_lift2. cbn [w x y z].
  repeat split; apply bits_of_SF_range.
Qed.

(** Whatever Normalize reports, the key left behind is made of 32-bit words. *)
Lemma generate_key_wf (k0 : quaternion_t) (seed : Z) (key : quaternion_t) :
  quaternion_generate_key (Some k0) seed = (RetVoid, Some key) -> quaternion_wf key.
Proof.
  unfold quaternion_generate_key. cbv zeta. rewrite quaternion_normalize_cases.
  pose proof (raw_key_wf seed) as Hraw.
  generalize dependent (raw_key seed). intros raw Hraw.
  generalize (quaternion_norm raw). intros n.
  generalize (f32_eqb n (f32_of_Z 0)). intros [|] H; injection H as <-.
  - exact Hraw.
  - unfold quaternion_wf, f32_div, f32_lift2. cbn [w x y z].
    repeat split; apply bits_of_SF_range.
Qed.

(* ------------------------------------------------------------------------- *)
(** ** Memory objects *)

Lemma load_ok (buf : list byte) (off n : nat) :
  (off + n <= length buf)%nat -> load buf off n = Some (firstn n (skipn off buf)).
Proof.
  intros H. unfold load. apply Nat.leb_le in H. now rewrite H.
Qed.

Lemma load_inv (buf : list byte) (off n : nat) (d : list byte) :
  load buf off n = Some d ->
  (off + n <= length buf)%nat /\ d = firstn n (skipn off buf).
Proof.
  unfold load. destruct (off + n <=? length buf)%nat eqn:E; [|discriminate].
  intros H. injection H as <-. apply Nat.leb_le in E. now split.
Qed.

Lemma store_ok (buf : list byte) (off : nat) (data : list byte) :
  (off + length data <= length buf)%nat ->
  store buf off data =
  Some (firstn off buf ++ data ++ skipn (off + length data) buf).
Proof.
  intros H. unfold store. apply Nat.leb_le in H. now rewrite H.
Qed.

Lemma store_inv (buf : list byte) (off : nat) (data buf' : list byte) :
  store buf off data = Some buf' ->
  (off + length data <= length buf)%nat /\
  buf' = firstn off buf ++ data ++ skipn (off + length data) buf.
Proof.
  unfold store. destruct (off + length data <=? length buf)%nat eqn:E; [|discriminate].
  intros H. injection H as <-. apply Nat.leb_le in E. now split.
Qed.

Lemma store_length (buf : list byte) (off : nat) (data buf' : list byte) :
  store buf off data = Some buf' -> length buf' = length buf.
Proof.
  intros H. apply store_inv in H as [Hb ->].
  rewrite !length_app, length_firstn, length_skipn. lia.
Qed.

(* ------------------------------------------------------------------------- *)
(** ** Padding *)

Lemma padded_length_no_wrap (l : Z) :
  0 <= l -> l + 15 < SIZE_MOD -> padded_length_of l = (l + 15) / 16 * 16.
Proof.
  intros H0 H1. unfold padded_length_of, SIZE_MOD in *.
  rewrite (Z.mod_small (l + 15)) by lia.
  apply Z.mod_small.
  pose proof (Z.mul_div_le (l + 15) 16 ltac:(lia)). 
  pose proof (Z.div_pos (l + 15) 16 ltac:(lia) ltac:(lia)). lia.
Qed.

Lemma padded_length_smallest (l : Z) :
  0 <= l -> l + 15 < SIZE_MOD -> smallest_multiple_of_16 l (padded_length_of l).
Proof.
  intros H0 H1. rewrite padded_length_no_wrap by assumption.
  unfold smallest_multiple_of_16.
  pose proof (Z.div_mod (l + 15) 16 ltac:(lia)) as Hd.
  pose proof (Z.mod_pos_bound (l + 15) 16 ltac:(lia)) as Hm.
  split; [apply Z.mod_mul; lia|]. split; [lia|].
  intros m Hm16 Hlm.
  pose proof (Z.div_mod m 16 ltac:(lia)) as Hdm. rewrite Hm16 in Hdm. lia.
Qed.

Lemma smallest_multiple_of_16_unique (l p q : Z) :
  smallest_multiple_of_16 l p -> smallest_multiple_of_16 l q -> p = q.
Proof.
  intros (Hp1 & Hp2 & Hp3) (Hq1 & Hq2 & Hq3).
  pose proof (Hp3 q Hq1 Hq2). pose proof (Hq3 p Hp1 Hp2). lia.
Qed.

Lemma padded_length_bounds (l : Z) :
  0 <= l -> l + 15 < SIZE_MOD ->
  l <= padded_length_of l < l + 16 /\ padded_length_of l mod 16 = 0.
Proof.
  intros H0 H1. rewrite padded_length_no_wrap by assumption.
  pose proof (Z.div_mod (l + 15) 16 ltac:(lia)) as Hd.
  pose proof (Z.mod_pos_bound (l + 15) 16 ltac:(lia)) as Hm.
  split; [lia|]. apply Z.mod_mul. lia.
Qed.

(* ------------------------------------------------------------------------- *)
(** ** Header layout *)

Tactic Notation "list_of_length" ident(l) hyp(H) integer(n) :=
  do n (destruct l as [|? l]; [discriminate H|]);
  destruct l; [|discriminate H].

Tactic Notation "split_prefix" ident(buf) hyp(H) integer(n) :=
  do n (destruct buf as [|? buf]; [cbn [length] in H; lia|]).

Lemma store_app_at (a r d : list byte) (off : nat) :
  length a = off -> (length d <= length r)%nat ->
  store (a ++ r) off d = Some (a ++ d ++ skipn (length d) r).
Proof.
  intros Ha Hd. rewrite store_ok by (rewrite length_app; lia).
  rewrite firstn_app, <- Ha, firstn_all, Nat.sub_diag, firstn_O, app_nil_r.
  rewrite skipn_app, skipn_all2 by lia.
  replace (length a + length d - length a)%nat with (length d) by lia.
  reflexivity.
Qed.

Lemma load_app_at (a d r : list byte) (off n : nat) :
  length a = off -> length d = n -> load (a ++ d ++ r) off n = Some d.
Proof.
  intros Ha Hd. rewrite load_ok by (rewrite !length_app; lia).
  rewrite skipn_app, skipn_all2, <- Ha, Nat.sub_diag by lia.
  cbn [skipn app]. rewrite firstn_app, <- Hd, firstn_all, Nat.sub_diag, firstn_O.
  now rewrite app_nil_r.
Qed.

(** The four field stores of [hypercomplex_encrypt_data], one after the
    other, on an object of at least [sizeof_header] bytes. *)
Lemma store_header_fields (ct m l k c : list byte) :
  length m = 4%nat -> length l = 8%nat -> length k = 16%nat -> length c = 4%nat ->
  (sizeof_header <= length ct)%nat ->
  exists ct1 ct2 ct3,
    store ct OFF_MAGIC m = Some ct1 /\
    store ct1 OFF_LENGTH l = Some ct2 /\
    store ct2 OFF_KEY k = Some ct3 /\
    store ct3 OFF_CHECKSUM c =
    Some ((m ++ firstn 4 (skipn 4 ct) ++ l ++ k ++ c ++ firstn 4 (skipn 36 ct))
            ++ skipn sizeof_header ct).
Proof.
  intros Hm Hl Hk Hc Hct. unfold sizeof_header in *.
  list_of_length m Hm 4. list_of_length l Hl 8.
  list_of_length k Hk 16. list_of_length c Hc 4.
  split_prefix ct Hct 40.
  do 3 eexists. repeat split; reflexivity.
Qed.

Lemma read_header_ok (buf : list byte) :
  (sizeof_header <= length buf)%nat -> read_header buf = Some (header_of buf).
Proof.
  intros H. unfold sizeof_header in H.
  unfold read_header, load_quaternion, OFF_MAGIC, OFF_LENGTH, OFF_KEY, OFF_CHECKSUM.
  rewrite !load_ok by (cbn [Nat.add]; lia).
  reflexivity.
Qed.

Lemma header_of_app (h rest : list byte) :
  length h = sizeof_header -> header_of (h ++ rest) = header_of h.
Proof.
  intros H. unfold sizeof_header in H.
  do 40 (destruct h as [|? h]; [discriminate H|]).
  reflexivity.
Qed.

Lemma quaternion_bytes_length (q : quaternion_t) : length (quaternion_bytes q) = 16%nat.
Proof. reflexivity. Qed.

Lemma header_image_length (old : list byte) (len : Z) (key : quaternion_t) (cks : Z) :
  (sizeof_header <= length old)%nat ->
  length (header_image old len key cks) = sizeof_header.
Proof.
  intros H. unfold header_image, sizeof_header in *.
  rewrite !length_app, !length_firstn, !length_skipn, !le_bytes_length,
    quaternion_bytes_length.
  lia.
Qed.

Lemma header_of_fields (m p1 l kw kx ky kz c p2 : list byte) :
  length m = 4%nat -> length p1 = 4%nat -> length l = 8%nat ->
  length kw = 4%nat -> length kx = 4%nat -> length ky = 4%nat -> length kz = 4%nat ->
  length c = 4%nat ->
  header_of (m ++ p1 ++ l ++ (kw ++ kx ++ ky ++ kz) ++ c ++ p2) =
  mkHeader (le_value m) (le_value l)
    (mkQuaternion (le_value kw) (le_value kx) (le_value ky) (le_value kz))
    (le_value c).
Proof.
  intros Hm Hp1 Hl Hkw Hkx Hky Hkz Hc.
  list_of_length m Hm 4. list_of_length p1 Hp1 4. list_of_length l Hl 8.
  list_of_length kw Hkw 4. list_of_length kx Hkx 4.
  list_of_length ky Hky 4. list_of_length kz Hkz 4.
  list_of_length c Hc 4.
  reflexivity.
Qed.

(** Reading back the header Encode wrote gives the four fields it stored. *)
Lemma header_of_image (old : list byte) (len : Z) (key : quaternion_t) (cks : Z) :
  (sizeof_header <= length old)%nat ->
  0 <= len < SIZE_MOD -> quaternion_wf key -> 0 <= cks < UINT32_MOD ->
  header_of (header_image old len key cks) = mkHeader HEADER_MAGIC len key cks.
Proof.
  intros Hold Hlen (Hw & Hx & Hy & Hz) Hcks.
  unfold sizeof_header in Hold.
  unfold header_image, quaternion_bytes.
  rewrite header_of_fields
    by (rewrite ?le_bytes_length, ?length_firstn, ?length_skipn; lia).
  change UINT32_MOD with (256 ^ Z.of_nat 4) in *.
  change SIZE_MOD with (256 ^ Z.of_nat 8) in *.
  rewrite !le_value_le_bytes_small by (try assumption; vm_compute; split; congruence).
  destruct key; reflexivity.
Qed.

(** Replacing a byte of the stored checksum changes that field and nothing
    else. *)
Lemma set_byte_checksum_field (c : list byte) (i : nat) (b : byte) :
  (sizeof_header <= length c)%nat -> (32 <= i < 36)%nat -> nth i c x00 <> b ->
  length (set_byte c i b) = length c /\
  skipn sizeof_header (set_byte c i b) = skipn sizeof_header c /\
  h_magic (header_of (set_byte c i b)) = h_magic (header_of c) /\
  h_length (header_of (set_byte c i b)) = h_length (header_of c) /\
  h_key (header_of (set_byte c i b)) = h_key (header_of c) /\
  h_checksum (header_of (set_byte c i b)) <> h_checksum (header_of c).
Proof.
  intros Hc Hi Hb. unfold sizeof_header in *.
  split_prefix c Hc 40.
  assert (Hi' : i = 32%nat \/ i = 33%nat \/ i = 34%nat \/ i = 35%nat) by lia.
  destruct Hi' as [->|[->|[->| ->]]]; cbn [nth] in Hb;
    (repeat split; try reflexivity);
    cbn [header_of h_checksum set_byte firstn skipn app];
    intros E; apply le_value_inj in E; try reflexivity;
    apply Hb; congruence.
Qed.

(** Replacing a byte of the magic field changes the magic. *)
Lemma set_byte_magic_field (c : list byte) (i : nat) (b : byte) :
  (sizeof_header <= length c)%nat -> (i < 4)%nat -> nth i c x00 <> b ->
  length (set_byte c i b) = length c /\
  h_magic (header_of (set_byte c i b)) <> h_magic (header_of c).
Proof.
  intros Hc Hi Hb. unfold sizeof_header in *.
  split_prefix c Hc 40.
  assert (Hi' : i = 0%nat \/ i = 1%nat \/ i = 2%nat \/ i = 3%nat) by lia.
  destruct Hi' as [->|[->|[->| ->]]]; cbn [nth] in Hb;
    (split; [reflexivity|]);
    cbn [header_of h_magic set_byte firstn skipn app];
    intros E; apply le_value_inj in E; try reflexivity;
    apply Hb; congruence.
Qed.

Lemma zero_padded_length (pt : list byte) (padded : Z) :
  Z.of_nat (length pt) <= padded ->
  length (zero_padded pt padded) = Z.to_nat padded.
Proof.
  intros H. unfold zero_padded. rewrite length_app, repeat_length. lia.
Qed.

Lemma zero_padded_firstn (pt : list byte) (padded : Z) :
  firstn (length pt) (zero_padded pt padded) = pt.
Proof.
  unfold zero_padded. rewrite firstn_app, firstn_all, Nat.sub_diag, firstn_O.
  apply app_nil_r.
Qed.

(* ------------------------------------------------------------------------- *)
(** ** Runs of the codec *)

Section CodecFacts.

Variable transform : list byte -> quaternion_t -> Z * list byte.

(** What [hypercomplex_encrypt_data] does once its two guards are passed and
    the output object is large enough: the header image, the zero-padded
    plaintext handed to the transform, the transform's output stored over
    it. *)
Lemma encrypt_data_run (pt : list byte) (k : quaternion_t) (ct : list byte) (cl : Z) :
  let len := Z.of_nat (length pt) in
  let padded := padded_length_of len in
  let total := Z.of_nat sizeof_header + padded in
  quaternion_is_valid (Some k) = 1 ->
  len + 15 + Z.of_nat sizeof_header < SIZE_MOD ->
  total <= cl ->
  total <= Z.of_nat (length ct) ->
  hypercomplex_encrypt_data transform (Some pt) (Some k) (Some ct) (Some cl) =
  (let '(result, output) := transform (zero_padded pt padded) k in
   ct' <- store
            (header_image ct len k (compute_checksum pt (length pt))
               ++ zero_padded pt padded
               ++ skipn (Z.to_nat padded) (skipn sizeof_header ct))
            sizeof_header output;;
   Some (result, Some ct', Some (if result =? HC_SUCCESS then total else cl))).
Proof.
  intros len padded total Hvalid Hwrap Hcl Hct.
  change (Z.of_nat sizeof_header) with 40 in *.
  change SIZE_MOD with 18446744073709551616 in Hwrap.
  assert (Hlen : len = Z.of_nat (length pt)) by reflexivity.
  assert (Htotal : total = 40 + padded) by reflexivity.
  assert (Hpad : len <= padded < len + 16)
    by (apply padded_length_bounds; change SIZE_MOD with 18446744073709551616; lia).
  unfold hypercomplex_encrypt_data.
  rewrite Hvalid. change (1 =? 0) with false. cbv iota zeta.
  fold len. fold padded. change (Z.of_nat sizeof_header) with 40.
  rewrite (Z.mod_small (40 + padded))
    by (change SIZE_MOD with 18446744073709551616; lia).
  fold total.
  destruct (Z.ltb_spec cl total) as [Hlt|_]; [lia|].
  destruct (store_header_fields ct (le_bytes 4 HEADER_MAGIC) (le_bytes 8 len)
              (quaternion_bytes k)
              (le_bytes 4 (compute_checksum pt (length pt))))
    as (ct1 & ct2 & ct3 & E1 & E2 & E3 & E4);
    try apply le_bytes_length; try apply quaternion_bytes_length;
    [unfold sizeof_header; lia|].
  rewrite E1, E2, E3, E4.
  fold (header_image ct len k (compute_checksum pt (length pt))).
  set (H := header_image ct len k (compute_checksum pt (length pt))).
  assert (HH : length H = sizeof_header)
    by (apply header_image_length; unfold sizeof_header; lia).
  set (R := skipn sizeof_header ct).
  assert (HR : length R = (length ct - 40)%nat) by (subst R; apply length_skipn).
  rewrite (store_app_at H R pt sizeof_header HH) by lia.
  assert (Hmemset :
    (if len <? padded
     then store (H ++ pt ++ skipn (length pt) R) (sizeof_header + length pt)
            (repeat x00 (Z.to_nat (padded - len)))
     else Some (H ++ pt ++ skipn (length pt) R))
    = Some (H ++ zero_padded pt padded ++ skipn (Z.to_nat padded) R)).
  { unfold zero_padded. fold len.
    destruct (Z.ltb_spec len padded) as [Hlp|Hlp].
    - rewrite (app_assoc H pt).
      rewrite store_app_at
        by (rewrite ?length_app, ?repeat_length, ?length_skipn; lia).
      rewrite repeat_length, skipn_skipn, <- !app_assoc.
      do 5 f_equal. lia.
    - replace (padded - len) with 0 by lia. cbn [Z.to_nat repeat].
      rewrite app_nil_r. do 4 f_equal. lia. }
  rewrite Hmemset.
  rewrite (load_app_at H (zero_padded pt padded) _ sizeof_header (Z.to_nat padded) HH)
    by (apply zero_padded_length; lia).
  reflexivity.
Qed.

Lemma quaternion_is_valid_bool (q : option quaternion_t) :
  quaternion_is_valid q = 0 \/ quaternion_is_valid q = 1.
Proof.
  destruct q as [q|]; [|now left]. unfold quaternion_is_valid.
  destruct (isfinite (w q) && isfinite (x q) && isfinite (y q) && isfinite (z q));
    [now right | now left].
Qed.

(** Encode with an invalid key: [HC_ERROR_INVALID_DATA], nothing written. *)
Lemma encrypt_data_invalid_key (pt : list byte) (k : quaternion_t) (ct : list byte) (cl : Z) :
  quaternion_is_valid (Some k) = 0 ->
  hypercomplex_encrypt_data transform (Some pt) (Some k) (Some ct) (Some cl) =
  Some (HC_ERROR_INVALID_DATA, Some ct, Some cl).
Proof.
  intros H. unfold hypercomplex_encrypt_data. now rewrite H.
Qed.

(** Encode into too small a capacity: [HC_ERROR_INVALID_DATA], the required
    size in the out-parameter, nothing written. *)
Lemma encrypt_data_too_small (pt : list byte) (k : quaternion_t) (ct : list byte) (cl : Z) :
  quaternion_is_valid (Some k) = 1 ->
  Z.of_nat (length pt) + 15 + Z.of_nat sizeof_header < SIZE_MOD ->
  cl < Z.of_nat sizeof_header + padded_length_of (Z.of_nat (length pt)) ->
  hypercomplex_encrypt_data transform (Some pt) (Some k) (Some ct) (Some cl) =
  Some (HC_ERROR_INVALID_DATA, Some ct,
        Some (Z.of_nat sizeof_header + padded_length_of (Z.of_nat (length pt)))).
Proof.
  intros Hvalid Hwrap Hcl.
  change SIZE_MOD with 18446744073709551616 in Hwrap.
  change (Z.of_nat sizeof_header) with 40 in *.
  assert (Hpad : Z.of_nat (length pt) <= padded_length_of (Z.of_nat (length pt))
                 < Z.of_nat (length pt) + 16)
    by (apply padded_length_bounds; change SIZE_MOD with 18446744073709551616; lia).
  unfold hypercomplex_encrypt_data.
  rewrite Hvalid. change (1 =? 0) with false. cbv iota zeta.
  change (Z.of_nat sizeof_header) with 40.
  rewrite (Z.mod_small (40 + _))
    by (change SIZE_MOD with 18446744073709551616; lia).
  destruct (Z.ltb_spec cl (40 + padded_length_of (Z.of_nat (length pt))));
    [reflexivity | lia].
Qed.

(** A call of Encode that returns [HC_SUCCESS] passed both guards and wrote
    inside the output object. *)
Lemma encrypt_data_success_inv (pt : list byte) (k : quaternion_t) (ct : list byte)
    (cl : Z) (ct' : option (list byte)) (cl' : option Z) :
  Z.of_nat (length pt) + 15 + Z.of_nat sizeof_header < SIZE_MOD ->
  hypercomplex_encrypt_data transform (Some pt) (Some k) (Some ct) (Some cl) =
  Some (HC_SUCCESS, ct', cl') ->
  quaternion_is_valid (Some k) = 1 /\
  Z.of_nat sizeof_header + padded_length_of (Z.of_nat (length pt)) <= cl /\
  Z.of_nat sizeof_header + padded_length_of (Z.of_nat (length pt))
    <= Z.of_nat (length ct).
Proof.
  intros Hwrap Hrun.
  destruct (quaternion_is_valid_bool (Some k)) as [Hv|Hv].
  { rewrite encrypt_data_invalid_key in Hrun by assumption. discriminate Hrun. }
  split; [assumption|].
  destruct (Z.lt_ge_cases cl
              (Z.of_nat sizeof_header + padded_length_of (Z.of_nat (length pt))))
    as [Hlt|Hge].
  { rewrite encrypt_data_too_small in Hrun by assumption. discriminate Hrun. }
  split; [assumption|].
  change SIZE_MOD with 18446744073709551616 in Hwrap.
  change (Z.of_nat sizeof_header) with 40 in *.
  assert (Hpad : Z.of_nat (length pt) <= padded_length_of (Z.of_nat (length pt))
                 < Z.of_nat (length pt) + 16)
    by (apply padded_length_bounds; change SIZE_MOD with 18446744073709551616; lia).
  unfold hypercomplex_encrypt_data in Hrun.
  rewrite Hv in Hrun. change (1 =? 0) with false in Hrun. cbv iota zeta in Hrun.
  change (Z.of_nat sizeof_header) with 40 in Hrun.
  rewrite (Z.mod_small (40 + _)) in Hrun
    by (change SIZE_MOD with 18446744073709551616; lia).
  destruct (Z.ltb_spec cl (40 + padded_length_of (Z.of_nat (length pt))));
    [lia|].
  destruct (store ct OFF_MAGIC _) as [c1|] eqn:E1; [|discriminate Hrun].
  destruct (store c1 OFF_LENGTH _) as [c2|] eqn:E2; [|discriminate Hrun].
  destruct (store c2 OFF_KEY _) as [c3|] eqn:E3; [|discriminate Hrun].
  destruct (store c3 OFF_CHECKSUM _) as [c4|] eqn:E4; [|discriminate Hrun].
  destruct (store c4 sizeof_header pt) as [c5|] eqn:E5; [|discriminate Hrun].
  apply store_length in E1, E2, E3, E4, E5.
  assert (H6 : exists c6,
             (if Z.of_nat (length pt) <? padded_length_of (Z.of_nat (length pt))
              then store c5 (sizeof_header + length pt)
                     (repeat x00
                        (Z.to_nat (padded_length_of (Z.of_nat (length pt))
                                   - Z.of_nat (length pt))))
              else Some c5) = Some c6 /\ length c6 = length c5).
  { destruct (Z.of_nat (length pt) <? padded_length_of (Z.of_nat (length pt))).
    - destruct (store c5 _ _) as [c6|] eqn:E6; [|discriminate Hrun].
      exists c6. split; [reflexivity|]. apply store_length in E6. exact E6.
    - exists c5. split; reflexivity. }
  destruct H6 as (c6 & E6 & L6). rewrite E6 in Hrun.
  destruct (load c6 sizeof_header _) as [input|] eqn:E7; [|discriminate Hrun].
  apply load_inv in E7 as [Hb _]. unfold sizeof_header in Hb. lia.
Qed.

(** C5.  Encode, given a valid key and a capacity strictly below the header
    size plus the padded length, returns [HC_ERROR_INVALID_DATA] (the code of
    BufferTooSmall), sets the capacity out-parameter to exactly
    [sizeof_header + padded], where [padded] is the smallest multiple of 16
    that is at least the plaintext length, and leaves the output buffer as it
    was. *)
Theorem encrypt_reports_required_size
    (pt : list byte) (k : quaternion_t) (ct : list byte) (cl : Z) :
  let len := Z.of_nat (length pt) in
  let padded := padded_length_of len in
  quaternion_is_valid (Some k) = 1 ->
  len + 15 + Z.of_nat sizeof_header < SIZE_MOD ->
  cl < Z.of_nat sizeof_header + padded ->
  smallest_multiple_of_16 len padded /\
  hypercomplex_encrypt_data transform (Some pt) (Some k) (Some ct) (Some cl) =
  Some (HC_ERROR_INVALID_DATA, Some ct, Some (Z.of_nat sizeof_header + padded)).
Proof.
  intros len padded Hvalid Hwrap Hcl. split.
  - apply padded_length_smallest; [apply Nat2Z.is_nonneg|].
    change SIZE_MOD with 18446744073709551616 in *.
    change (Z.of_nat sizeof_header) with 40 in Hwrap.
    assert (Hlen : len = Z.of_nat (length pt)) by reflexivity. lia.
  - now apply encrypt_data_too_small.
Qed.

(** C6.  A call of Encode that returns [HC_SUCCESS] reports a container of
    [sizeof_header + padded] bytes, [padded] being the smallest multiple of
    16 that is at least the plaintext length (the length itself when that is
    a multiple of 16); the transform was applied to the plaintext followed by
    [padded - length] zero bytes, and the container is the header image
    followed by the transform's output. *)
Theorem encrypt_success_layout
    (pt : list byte) (k : quaternion_t) (ct : list byte) (cl : Z)
    (ct' : list byte) (cl' : Z) :
  let len := Z.of_nat (length pt) in
  let padded := padded_length_of len in
  len + 15 + Z.of_nat sizeof_header < SIZE_MOD ->
  hypercomplex_encrypt_data transform (Some pt) (Some k) (Some ct) (Some cl) =
  Some (HC_SUCCESS, Some ct', Some cl') ->
  smallest_multiple_of_16 len padded /\
  (len mod 16 = 0 -> padded = len) /\
  cl' = Z.of_nat sizeof_header + padded /\
  exists output,
    transform (pt ++ repeat x00 (Z.to_nat (padded - len))) k = (HC_SUCCESS, output) /\
    store
      (header_image ct len k (compute_checksum pt (length pt))
         ++ (pt ++ repeat x00 (Z.to_nat (padded - len)))
         ++ skipn (Z.to_nat padded) (skipn sizeof_header ct))
      sizeof_header output = Some ct'.
Proof.
  intros len padded Hwrap Hrun.
  assert (Hlen : len = Z.of_nat (length pt)) by reflexivity.
  assert (Hsm : smallest_multiple_of_16 len padded).
  { apply padded_length_smallest; [lia|].
    change SIZE_MOD with 18446744073709551616 in *.
    change (Z.of_nat sizeof_header) with 40 in Hwrap. lia. }
  split; [exact Hsm|]. split.
  { intros Hm. destruct Hsm as (_ & Hge & Hmin).
    pose proof (Hmin len Hm (Z.le_refl _)). lia. }
  destruct (encrypt_data_success_inv pt k ct cl (Some ct') (Some cl') Hwrap Hrun)
    as (Hvalid & Hcl & Hct).
  rewrite encrypt_data_run in Hrun by assumption.
  fold len in Hrun. fold padded in Hrun.
  change (zero_padded pt padded)
    with (pt ++ repeat x00 (Z.to_nat (padded - len))) in Hrun.
  destruct (transform (pt ++ repeat x00 (Z.to_nat (padded - len))) k)
    as [result output].
  destruct (store _ sizeof_header output) as [c|] eqn:Es; [|discriminate Hrun].
  injection Hrun as Hr Hc Hl. subst result c.
  change (0 =? HC_SUCCESS) with true in Hl. cbv iota in Hl.
  split; [now symmetry|].
  exists output. split; [reflexivity | exact Es].
Qed.


(** *** Decode *)

(** Decode of an object shorter than the header. *)
Lemma decrypt_data_too_short (ct : list byte) (k : quaternion_t) (pt : list byte) (pl : Z) :
  Z.of_nat (length ct) < Z.of_nat sizeof_header ->
  hypercomplex_decrypt_data transform (Some ct) (Some k) (Some pt) (Some pl) =
  Some (HC_ERROR_INVALID_DATA, Some pt, Some pl).
Proof.
  intros H. unfold hypercomplex_decrypt_data.
  apply Z.ltb_lt in H. rewrite H. reflexivity.
Qed.

(** Decode of an object that holds a header: the guards and the verification,
    in terms of the header fields. *)
Lemma decrypt_data_with_header (ct : list byte) (k : quaternion_t) (pt : list byte) (pl : Z) :
  Z.of_nat sizeof_header <= Z.of_nat (length ct) ->
  hypercomplex_decrypt_data transform (Some ct) (Some k) (Some pt) (Some pl) =
  let header := header_of ct in
  if negb (h_magic header =? HEADER_MAGIC)
  then Some (HC_ERROR_INVALID_DATA, Some pt, Some pl)
  else if pl <? h_length header
  then Some (HC_ERROR_INVALID_DATA, Some pt, Some (h_length header))
  else
    match decrypt_recover transform ct header pt with
    | Some (result, pt) =>
        if result =? HC_SUCCESS
        then
          _ <- load pt 0 (Z.to_nat (h_length header));;
          let checksum := compute_checksum pt (Z.to_nat (h_length header)) in
          if negb (checksum =? h_checksum header)
          then Some (HC_ERROR_INVALID_DATA, Some pt, Some (h_length header))
          else Some (result, Some pt, Some (h_length header))
        else Some (result, Some pt, Some pl)
    | None => None
    end.
Proof.
  intros H. unfold hypercomplex_decrypt_data.
  destruct (Z.ltb_spec (Z.of_nat (length ct)) (Z.of_nat sizeof_header)); [lia|].
  rewrite read_header_ok by lia. reflexivity.
Qed.

Lemma decrypt_data_bad_magic (ct : list byte) (k : quaternion_t) (pt : list byte) (pl : Z) :
  Z.of_nat sizeof_header <= Z.of_nat (length ct) ->
  h_magic (header_of ct) <> HEADER_MAGIC ->
  hypercomplex_decrypt_data transform (Some ct) (Some k) (Some pt) (Some pl) =
  Some (HC_ERROR_INVALID_DATA, Some pt, Some pl).
Proof.
  intros Hlen Hm. rewrite decrypt_data_with_header by assumption. cbv zeta.
  apply Z.eqb_neq in Hm. rewrite Hm. reflexivity.
Qed.

Lemma decrypt_data_capacity (ct : list byte) (k : quaternion_t) (pt : list byte) (pl : Z) :
  Z.of_nat sizeof_header <= Z.of_nat (length ct) ->
  h_magic (header_of ct) = HEADER_MAGIC ->
  pl < h_length (header_of ct) ->
  hypercomplex_decrypt_data transform (Some ct) (Some k) (Some pt) (Some pl) =
  Some (HC_ERROR_INVALID_DATA, Some pt, Some (h_length (header_of ct))).
Proof.
  intros Hlen Hm Hpl. rewrite decrypt_data_with_header by assumption. cbv zeta.
  rewrite Hm, Z.eqb_refl. cbn [negb].
  apply Z.ltb_lt in Hpl. rewrite Hpl. reflexivity.
Qed.

(** Decode past the guards, the transform having returned [HC_SUCCESS]: the
    outcome is decided by the comparison of the two checksums. *)
Lemma decrypt_data_verify (ct : list byte) (k : quaternion_t) (pt : list byte) (pl : Z)
    (recovered : list byte) :
  Z.of_nat sizeof_header <= Z.of_nat (length ct) ->
  h_magic (header_of ct) = HEADER_MAGIC ->
  h_length (header_of ct) <= pl ->
  decrypt_recover transform ct (header_of ct) pt = Some (HC_SUCCESS, recovered) ->
  h_length (header_of ct) <= Z.of_nat (length recovered) ->
  hypercomplex_decrypt_data transform (Some ct) (Some k) (Some pt) (Some pl) =
  Some (if compute_checksum recovered (Z.to_nat (h_length (header_of ct)))
           =? h_checksum (header_of ct)
        then HC_SUCCESS else HC_ERROR_INVALID_DATA,
        Some recovered, Some (h_length (header_of ct))).
Proof.
  intros Hlen Hm Hpl Hrec Hin.
  rewrite decrypt_data_with_header by assumption. cbv zeta.
  rewrite Hm, Z.eqb_refl. cbn [negb].
  destruct (Z.ltb_spec pl (h_length (header_of ct))); [lia|].
  rewrite Hrec. change (HC_SUCCESS =? HC_SUCCESS) with true. cbv iota.
  rewrite load_ok by (cbn [Nat.add]; lia).
  destruct (compute_checksum recovered (Z.to_nat (h_length (header_of ct)))
              =? h_checksum (header_of ct)); reflexivity.
Qed.

Lemma decrypt_recover_length (ct : list byte) (h : hypercomplex_header_t)
    (pt : list byte) (result : Z) (pt' : list byte) :
  decrypt_recover transform ct h pt = Some (result, pt') -> length pt' = length pt.
Proof.
  unfold decrypt_recover. intros H.
  destruct (load ct sizeof_header _) as [enc|]; [|discriminate H].
  destruct (store pt 0 enc) as [p1|] eqn:E1; [|discriminate H].
  cbn [quaternion_conjugate snd] in H.
  destruct (load p1 0 _) as [input|]; [|discriminate H].
  destruct (transform input (conjugate (h_key h))) as [r output].
  destruct (store p1 0 output) as [p2|] eqn:E2; [|discriminate H].
  injection H as _ <-.
  apply store_length in E1, E2. congruence.
Qed.

(** C7.  Decode of a buffer that is shorter than the header, or whose magic
    field is not 0xDEADBEEF, returns [HC_ERROR_INVALID_DATA] (the code of
    Malformed) and leaves the output buffer and the length out-parameter as
    they were; the outcome is the same for every transform, which is never
    run. *)
Theorem decrypt_rejects_malformed
    (ct : list byte) (k : quaternion_t) (pt : list byte) (pl : Z) :
  Z.of_nat (length ct) < Z.of_nat sizeof_header \/
  le_value (firstn 4 ct) <> 0xDEADBEEF ->
  hypercomplex_decrypt_data transform (Some ct) (Some k) (Some pt) (Some pl) =
  Some (HC_ERROR_INVALID_DATA, Some pt, Some pl).
Proof.
  intros H.
  destruct (Z.lt_ge_cases (Z.of_nat (length ct)) (Z.of_nat sizeof_header))
    as [Hs|Hl].
  - now apply decrypt_data_too_short.
  - destruct H as [H|H]; [lia|].
    apply decrypt_data_bad_magic; [lia | exact H].
Qed.

(** C8.  When Decode gets as far as recomputing the checksum (header present,
    magic right, capacity at least the recorded length and not beyond the
    output object, transform returned [HC_SUCCESS]) and the checksum of the
    recovered bytes differs from the stored one, it returns
    [HC_ERROR_INVALID_DATA] (the code of IntegrityMismatch), which is not
    [HC_SUCCESS], with the length out-parameter set to the recorded length
    and the recovered bytes in the output buffer. *)
Theorem decrypt_integrity_mismatch
    (ct : list byte) (k : quaternion_t) (pt : list byte) (pl : Z)
    (recovered : list byte) :
  Z.of_nat sizeof_header <= Z.of_nat (length ct) ->
  h_magic (header_of ct) = HEADER_MAGIC ->
  h_length (header_of ct) <= pl <= Z.of_nat (length pt) ->
  decrypt_recover transform ct (header_of ct) pt = Some (HC_SUCCESS, recovered) ->
  compute_checksum recovered (Z.to_nat (h_length (header_of ct)))
    <> h_checksum (header_of ct) ->
  hypercomplex_decrypt_data transform (Some ct) (Some k) (Some pt) (Some pl) =
  Some (HC_ERROR_INVALID_DATA, Some recovered, Some (h_length (header_of ct)))
  /\ HC_ERROR_INVALID_DATA <> HC_SUCCESS.
Proof.
  intros Hlen Hm Hpl Hrec Hck.
  split; [|discriminate].
  pose proof (decrypt_recover_length _ _ _ _ _ Hrec) as Hl.
  rewrite (decrypt_data_verify ct k pt pl recovered) by (try assumption; lia).
  apply Z.eqb_neq in Hck. rewrite Hck. reflexivity.
Qed.


(** The recovery stage on a container whose payload the transform maps to
    [block] under the conjugate of the header key [h_key h]. *)
Lemma decrypt_recover_run (ct : list byte) (h : hypercomplex_header_t)
    (pt block : list byte) :
  Z.of_nat sizeof_header <= Z.of_nat (length ct) < SIZE_MOD ->
  transform (skipn sizeof_header ct) (conjugate (h_key h)) = (HC_SUCCESS, block) ->
  length block = length (skipn sizeof_header ct) ->
  (length block <= length pt)%nat ->
  decrypt_recover transform ct h pt =
  Some (HC_SUCCESS, block ++ skipn (length block) pt).
Proof.
  intros Hlen Ht Hb Hpt.
  change SIZE_MOD with 18446744073709551616 in Hlen.
  change (Z.of_nat sizeof_header) with 40 in Hlen.
  set (payload := skipn sizeof_header ct) in *.
  assert (Hp : length payload = (length ct - 40)%nat)
    by (subst payload; apply length_skipn).
  unfold decrypt_recover.
  change (Z.of_nat sizeof_header) with 40.
  rewrite Z.mod_small by (change SIZE_MOD with 18446744073709551616; lia).
  replace (Z.to_nat (Z.of_nat (length ct) - 40)) with (length payload) by lia.
  rewrite load_ok by (unfold sizeof_header; lia).
  fold payload. rewrite firstn_all.
  rewrite (store_ok pt 0 payload) by (cbn [Nat.add]; lia).
  cbn [firstn app Nat.add quaternion_conjugate snd].
  rewrite load_ok by (rewrite length_app; cbn [Nat.add]; lia).
  cbn [skipn]. rewrite firstn_app, firstn_all, Nat.sub_diag, firstn_O, app_nil_r.
  rewrite Ht.
  rewrite store_ok by (rewrite length_app, length_skipn; cbn [Nat.add]; lia).
  cbn [firstn app Nat.add].
  rewrite skipn_app, skipn_all2, Hb, Nat.sub_diag by lia.
  reflexivity.
Qed.


(** *** Encode followed by Decode *)

(** Encode under a key for which the transform meets its contract: the
    container is the header image followed by the transform's output [out],
    and the transform under the conjugate key maps [out] back to the padded
    plaintext. *)
Lemma encrypt_under_contract (pt : list byte) (key : quaternion_t) (ct : list byte) (cl : Z) :
  let len := Z.of_nat (length pt) in
  let padded := padded_length_of len in
  let total := Z.of_nat sizeof_header + padded in
  transform_contract transform ->
  quaternion_is_valid (Some key) = 1 ->
  quaternion_is_unit key = true ->
  len + 15 + Z.of_nat sizeof_header < SIZE_MOD ->
  total <= cl ->
  total <= Z.of_nat (length ct) ->
  exists out,
    length out = Z.to_nat padded /\
    transform out (conjugate key) = (HC_SUCCESS, zero_padded pt padded) /\
    hypercomplex_encrypt_data transform (Some pt) (Some key) (Some ct) (Some cl) =
    Some (HC_SUCCESS,
          Some (header_image ct len key (compute_checksum pt (length pt))
                  ++ out ++ skipn (Z.to_nat padded) (skipn sizeof_header ct)),
          Some total) /\
    firstn (Z.to_nat total)
      (header_image ct len key (compute_checksum pt (length pt))
         ++ out ++ skipn (Z.to_nat padded) (skipn sizeof_header ct))
    = header_image ct len key (compute_checksum pt (length pt)) ++ out.
Proof.
  intros len padded total Hcontract Hvalid Hunit Hwrap Hcl Hct.
  assert (Hlen : len = Z.of_nat (length pt)) by reflexivity.
  assert (Htotal : total = 40 + padded) by reflexivity.
  assert (Hpad : len <= padded < len + 16 /\ padded mod 16 = 0).
  { apply padded_length_bounds; [lia|].
    change SIZE_MOD with 18446744073709551616 in *.
    change (Z.of_nat sizeof_header) with 40 in Hwrap. lia. }
  destruct Hpad as [Hpad Hmod].
  assert (Hin : length (zero_padded pt padded) = Z.to_nat padded)
    by (apply zero_padded_length; lia).
  destruct (Hcontract (zero_padded pt padded) key Hvalid Hunit) as (out & Et & Eo & Eb).
  { rewrite Hin, Z2Nat.id by lia. exact Hmod. }
  exists out. split; [congruence|]. split; [exact Eb|].
  set (H := header_image ct len key (compute_checksum pt (length pt))).
  assert (HH : length H = sizeof_header).
  { apply header_image_length. unfold sizeof_header.
    change (Z.of_nat sizeof_header) with 40 in Htotal. lia. }
  set (R := skipn (Z.to_nat padded) (skipn sizeof_header ct)).
  split.
  - rewrite encrypt_data_run by assumption.
    fold len. fold padded. fold total. fold H. fold R.
    rewrite Et.
    rewrite store_app_at by (rewrite ?length_app; lia).
    rewrite skipn_app, skipn_all2, Eo, Nat.sub_diag by lia.
    reflexivity.
  - rewrite firstn_app, firstn_all2 by (unfold sizeof_header in HH; lia).
    rewrite firstn_app, firstn_all2 by (unfold sizeof_header in HH; lia).
    replace (Z.to_nat total - length H - length out)%nat with 0%nat
      by (unfold sizeof_header in HH; lia).
    rewrite firstn_O, app_nil_r. reflexivity.
Qed.

(** Decode of a container whose header names the plaintext length and the
    key, and whose payload the transform maps back to the padded plaintext:
    the plaintext is recovered, and the return code is decided by the stored
    checksum alone. *)
Lemma decrypt_container (c : list byte) (k2 : quaternion_t) (outbuf : list byte)
    (pl : Z) (pt : list byte) :
  let len := Z.of_nat (length pt) in
  let padded := padded_length_of len in
  len + 15 + Z.of_nat sizeof_header < SIZE_MOD ->
  Z.of_nat (length c) = Z.of_nat sizeof_header + padded ->
  h_magic (header_of c) = HEADER_MAGIC ->
  h_length (header_of c) = len ->
  transform (skipn sizeof_header c) (conjugate (h_key (header_of c))) =
    (HC_SUCCESS, zero_padded pt padded) ->
  len <= pl ->
  padded <= Z.of_nat (length outbuf) ->
  hypercomplex_decrypt_data transform (Some c) (Some k2) (Some outbuf) (Some pl) =
  Some (if compute_checksum pt (length pt) =? h_checksum (header_of c)
        then HC_SUCCESS else HC_ERROR_INVALID_DATA,
        Some (zero_padded pt padded ++ skipn (Z.to_nat padded) outbuf),
        Some len)
  /\ firstn (length pt) (zero_padded pt padded ++ skipn (Z.to_nat padded) outbuf) = pt.
Proof.
  intros len padded Hwrap Hc Hmagic Hlength Ht Hpl Hout.
  assert (Hlen : len = Z.of_nat (length pt)) by reflexivity.
  assert (Hpad : len <= padded < len + 16).
  { apply padded_length_bounds; [lia|].
    change SIZE_MOD with 18446744073709551616 in *.
    change (Z.of_nat sizeof_header) with 40 in Hwrap. lia. }
  assert (Hin : length (zero_padded pt padded) = Z.to_nat padded)
    by (apply zero_padded_length; lia).
  change SIZE_MOD with 18446744073709551616 in Hwrap.
  change (Z.of_nat sizeof_header) with 40 in Hwrap, Hc.
  assert (Hprefix :
    firstn (length pt) (zero_padded pt padded ++ skipn (Z.to_nat padded) outbuf) = pt).
  { rewrite firstn_app, zero_padded_firstn.
    replace (length pt - length (zero_padded pt padded))%nat with 0%nat by lia.
    rewrite firstn_O. apply app_nil_r. }
  split; [|exact Hprefix].
  assert (Hrec :
    decrypt_recover transform c (header_of c) outbuf =
    Some (HC_SUCCESS, zero_padded pt padded ++ skipn (Z.to_nat padded) outbuf)).
  { rewrite <- Hin. apply decrypt_recover_run.
    - change SIZE_MOD with 18446744073709551616.
      change (Z.of_nat sizeof_header) with 40. lia.
    - exact Ht.
    - rewrite length_skipn. unfold sizeof_header. lia.
    - lia. }
  rewrite (decrypt_data_verify c k2 outbuf pl _)
    by (try exact Hrec; try assumption;
        rewrite ?length_app, ?length_skipn;
        change (Z.of_nat sizeof_header) with 40; lia).
  rewrite Hlength. fold len.
  replace (Z.to_nat len) with (length pt) by lia.
  rewrite (compute_checksum_prefix _ pt (length pt))
    by (rewrite ?length_app; try lia; rewrite Hprefix; now rewrite firstn_all).
  reflexivity.
Qed.


(** The container Encode emits under a valid unit key of 32-bit words: its
    length, its header fields and what the transform does to its payload. *)
Lemma encoded_container_facts (pt : list byte) (key : quaternion_t) (ct : list byte)
    (out : list byte) :
  let len := Z.of_nat (length pt) in
  let padded := padded_length_of len in
  let c := header_image ct len key (compute_checksum pt (length pt)) ++ out in
  quaternion_wf key ->
  len + 15 + Z.of_nat sizeof_header < SIZE_MOD ->
  Z.of_nat sizeof_header + padded <= Z.of_nat (length ct) ->
  length out = Z.to_nat padded ->
  Z.of_nat (length c) = Z.of_nat sizeof_header + padded /\
  header_of c = mkHeader HEADER_MAGIC len key (compute_checksum pt (length pt)) /\
  skipn sizeof_header c = out.
Proof.
  intros len padded c Hwf Hwrap Hct Hout.
  assert (Hlen : len = Z.of_nat (length pt)) by reflexivity.
  assert (Hpad : len <= padded < len + 16).
  { apply padded_length_bounds; [lia|].
    change SIZE_MOD with 18446744073709551616 in *.
    change (Z.of_nat sizeof_header) with 40 in Hwrap. lia. }
  change (Z.of_nat sizeof_header) with 40 in *.
  assert (HH : length (header_image ct len key (compute_checksum pt (length pt)))
               = sizeof_header)
    by (apply header_image_length; unfold sizeof_header; lia).
  subst c. split; [|split].
  - rewrite length_app, HH. unfold sizeof_header. lia.
  - rewrite header_of_app by exact HH.
    apply header_of_image.
    + unfold sizeof_header. lia.
    + change SIZE_MOD with 18446744073709551616 in *. lia.
    + exact Hwf.
    + apply compute_checksum_range. lia.
  - rewrite skipn_app, skipn_all2, HH, Nat.sub_diag by lia. reflexivity.
Qed.

(** C9, as the code has it.  In a container Encode emitted under a valid unit
    key (the transform meeting its contract), replacing a byte of the magic
    field by another value makes Decode return [HC_ERROR_INVALID_DATA] before
    anything is written (Malformed), and replacing a byte of the stored
    checksum makes it return [HC_ERROR_INVALID_DATA] after the plaintext is
    recovered (IntegrityMismatch). *)
Theorem flipped_magic_or_checksum_is_rejected
    (pt : list byte) (key : quaternion_t) (ct : list byte) (cl : Z)
    (ct' : list byte) (cl' : Z) (i : nat) (b : byte)
    (k2 : quaternion_t) (outbuf : list byte) (pl : Z) :
  let len := Z.of_nat (length pt) in
  let padded := padded_length_of len in
  let c := firstn (Z.to_nat cl') ct' in
  transform_contract transform ->
  quaternion_wf key ->
  quaternion_is_valid (Some key) = 1 ->
  quaternion_is_unit key = true ->
  len + 15 + Z.of_nat sizeof_header < SIZE_MOD ->
  hypercomplex_encrypt_data transform (Some pt) (Some key) (Some ct) (Some cl) =
  Some (HC_SUCCESS, Some ct', Some cl') ->
  nth i c x00 <> b ->
  len <= pl ->
  padded <= Z.of_nat (length outbuf) ->
  ((i < 4)%nat ->
   hypercomplex_decrypt_data transform (Some (set_byte c i b)) (Some k2)
     (Some outbuf) (Some pl) =
   Some (HC_ERROR_INVALID_DATA, Some outbuf, Some pl))
  /\
  ((32 <= i < 36)%nat ->
   hypercomplex_decrypt_data transform (Some (set_byte c i b)) (Some k2)
     (Some outbuf) (Some pl) =
   Some (HC_ERROR_INVALID_DATA,
         Some (zero_padded pt padded ++ skipn (Z.to_nat padded) outbuf),
         Some len)).
Proof.
  intros len padded c Hcontract Hwf Hvalid Hunit Hwrap Henc Hb Hpl Hob.
  destruct (encrypt_data_success_inv pt key ct cl _ _ Hwrap Henc) as (_ & Hcl & Hct).
  destruct (encrypt_under_contract pt key ct cl Hcontract Hvalid Hunit Hwrap Hcl Hct)
    as (out & Hout & Hback & Henc' & Hcont).
  fold len padded in Hout, Hback, Henc', Hcont.
  rewrite Henc' in Henc. injection Henc as Hct' Hcl'.
  assert (Hc : c = header_image ct len key (compute_checksum pt (length pt)) ++ out).
  { subst c. rewrite <- Hcl', <- Hct'. exact Hcont. }
  destruct (encoded_container_facts pt key ct out Hwf Hwrap Hct Hout)
    as (Hlc & Hhdr & Hpay).
  fold len padded in Hlc, Hhdr, Hpay. rewrite <- Hc in Hlc, Hhdr, Hpay.
  clearbody c. clear Hc Hct' Hcl' Henc' Hcont.
  assert (Hpadnn : 0 <= padded).
  { pose proof (padded_length_bounds len) as Hp. 
    change SIZE_MOD with 18446744073709551616 in *.
    change (Z.of_nat sizeof_header) with 40 in Hwrap.
    assert (Hlen : len = Z.of_nat (length pt)) by reflexivity.
    destruct Hp as [Hp _]; [lia | lia | fold padded in Hp; lia]. }
  assert (Hc40 : (sizeof_header <= length c)%nat).
  { change (Z.of_nat sizeof_header) with 40 in Hlc. unfold sizeof_header. lia. }
  split.
  - intros Hi.
    destruct (set_byte_magic_field c i b Hc40 Hi Hb) as (Hl' & Hm').
    apply decrypt_data_bad_magic.
    + rewrite Hl'. lia.
    + rewrite Hhdr in Hm'. exact Hm'.
  - intros Hi.
    destruct (set_byte_checksum_field c i b Hc40 Hi Hb)
      as (Hl' & Hp' & Hm' & Hn' & Hk' & Hs').
    destruct (decrypt_container (set_byte c i b) k2 outbuf pl pt Hwrap)
      as [Hdec _]; try assumption.
    + rewrite Hl'. exact Hlc.
    + rewrite Hm', Hhdr. reflexivity.
    + rewrite Hn', Hhdr. reflexivity.
    + rewrite Hp', Hk', Hhdr, Hpay. exact Hback.
    + rewrite Hdec. rewrite Hhdr in Hs'. cbn [h_checksum] in Hs'.
      destruct (Z.eqb_spec (compute_checksum pt (length pt))
                  (h_checksum (header_of (set_byte c i b)))) as [E|_].
      * exfalso. apply Hs'. now symmetry.
      * reflexivity.
Qed.

(** C10.  Every error kind Encode and Decode raise for their own reasons
    (InvalidKey, BufferTooSmall, Malformed, IntegrityMismatch) reaches the
    caller as the one return code [HC_ERROR_INVALID_DATA], which is -3; the
    other codes are [HC_ERROR_NULL_PTR] and [HC_ERROR_DIVIDE_ZERO].  Of the
    two kinds Encode raises, BufferTooSmall alone changes the size
    out-parameter. *)
Theorem error_kinds_share_one_code :
  (forall (pt : list byte) (key : quaternion_t) (ct : list byte) (cl : Z) (e : hc_error),
      encode_raises pt key cl e ->
      exists cl',
        hypercomplex_encrypt_data transform (Some pt) (Some key) (Some ct) (Some cl) =
        Some (HC_ERROR_INVALID_DATA, Some ct, Some cl') /\
        (e = InvalidKey /\ cl' = cl \/ e = BufferTooSmall /\ cl < cl'))
  /\
  (forall (ct : list byte) (k : quaternion_t) (pt : list byte) (pl : Z) (e : hc_error),
      decode_raises transform ct pt pl e ->
      (e = Malformed \/ e = BufferTooSmall \/ e = IntegrityMismatch) /\
      exists pt' pl',
        hypercomplex_decrypt_data transform (Some ct) (Some k) (Some pt) (Some pl) =
        Some (HC_ERROR_INVALID_DATA, Some pt', Some pl'))
  /\
  (HC_ERROR_INVALID_DATA = -3 /\ HC_ERROR_NULL_PTR = -1 /\
   HC_ERROR_DIVIDE_ZERO = -2 /\ HC_SUCCESS = 0).
Proof.
  split; [|split].
  - intros pt key ct cl e He. destruct He as [Hv | Hv Hwrap Hcl].
    + exists cl. split.
      * apply encrypt_data_invalid_key. exact Hv.
      * left. split; reflexivity.
    + eexists. split.
      * apply encrypt_data_too_small; assumption.
      * right. split; [reflexivity | exact Hcl].
  - intros ct k pt pl e He.
    destruct He as [Hs | Hl Hm | Hl Hm Hc | rec Hl Hm Hc Hr Hb Hk].
    + split; [left; reflexivity|]. do 2 eexists.
      apply decrypt_data_too_short. exact Hs.
    + split; [left; reflexivity|]. do 2 eexists.
      apply decrypt_data_bad_magic; assumption.
    + split; [right; left; reflexivity|]. do 2 eexists.
      apply decrypt_data_capacity; assumption.
    + split; [right; right; reflexivity|]. do 2 eexists.
      rewrite (decrypt_data_verify ct k pt pl rec) by assumption.
      apply Z.eqb_neq in Hk. rewrite Hk. reflexivity.
  - repeat split.
Qed.


(** *** Bytes Decode never looks at *)

Lemma decrypt_recover_ext (c1 c2 : list byte) (h : hypercomplex_header_t) (pt : list byte) :
  length c1 = length c2 ->
  skipn sizeof_header c1 = skipn sizeof_header c2 ->
  decrypt_recover transform c1 h pt = decrypt_recover transform c2 h pt.
Proof.
  intros Hl Hs. unfold decrypt_recover, load. rewrite Hl, Hs. reflexivity.
Qed.

Lemma set_byte_header_padding (c : list byte) (i : nat) (b : byte) :
  (sizeof_header <= length c)%nat -> (4 <= i < 8)%nat \/ (36 <= i < 40)%nat ->
  length (set_byte c i b) = length c /\
  skipn sizeof_header (set_byte c i b) = skipn sizeof_header c /\
  header_of (set_byte c i b) = header_of c.
Proof.
  intros Hc Hi. unfold sizeof_header in *.
  split_prefix c Hc 40.
  assert (Hi' : i = 4%nat \/ i = 5%nat \/ i = 6%nat \/ i = 7%nat \/
                i = 36%nat \/ i = 37%nat \/ i = 38%nat \/ i = 39%nat) by lia.
  destruct Hi' as [->|[->|[->|[->|[->|[->|[->| ->]]]]]]];
    repeat split; reflexivity.
Qed.

(** The padding bytes of the header (offsets 4-7 and 36-39) do not take part
    in Decode, whatever the transform: changing one changes nothing. *)
Lemma decrypt_ignores_header_padding
    (c : list byte) (i : nat) (b : byte) (k : quaternion_t) (pt : list byte) (pl : Z) :
  (sizeof_header <= length c)%nat -> (4 <= i < 8)%nat \/ (36 <= i < 40)%nat ->
  hypercomplex_decrypt_data transform (Some (set_byte c i b)) (Some k) (Some pt) (Some pl) =
  hypercomplex_decrypt_data transform (Some c) (Some k) (Some pt) (Some pl).
Proof.
  intros Hc Hi.
  destruct (set_byte_header_padding c i b Hc Hi) as (Hl & Hs & Hh).
  rewrite !decrypt_data_with_header by (rewrite ?Hl; lia).
  cbv zeta. rewrite Hh.
  rewrite (decrypt_recover_ext (set_byte c i b) c) by assumption.
  reflexivity.
Qed.


End CodecFacts.

(* ------------------------------------------------------------------------- *)
(** ** The key Decode uses *)

(** Two transforms that agree under the key [k] recover the same bytes from a
    container whose header stores a key with conjugate [k]. *)
Lemma decrypt_recover_transform_ext
    (t1 t2 : list byte -> quaternion_t -> Z * list byte)
    (ct : list byte) (h : hypercomplex_header_t) (pt : list byte) :
  (forall block, t1 block (conjugate (h_key h)) = t2 block (conjugate (h_key h))) ->
  decrypt_recover t1 ct h pt = decrypt_recover t2 ct h pt.
Proof.
  intros H. unfold decrypt_recover.
  destruct (load ct sizeof_header _) as [enc|]; [|reflexivity].
  destruct (store pt 0 enc) as [p1|]; [|reflexivity].
  cbn [quaternion_conjugate snd].
  destruct (load p1 0 _) as [input|]; [|reflexivity].
  rewrite H. reflexivity.
Qed.

(** The recovery stage on a container whose payload the transform maps to
    [out] under the conjugate of the header key, whatever code it returns. *)
Lemma decrypt_recover_any
    (transform : list byte -> quaternion_t -> Z * list byte)
    (ct : list byte) (h : hypercomplex_header_t) (pt : list byte)
    (r : Z) (out : list byte) :
  Z.of_nat sizeof_header <= Z.of_nat (length ct) < SIZE_MOD ->
  (length ct - sizeof_header <= length pt)%nat ->
  transform (skipn sizeof_header ct) (conjugate (h_key h)) = (r, out) ->
  length out = (length ct - sizeof_header)%nat ->
  decrypt_recover transform ct h pt =
  Some (r, out ++ skipn (length ct - sizeof_header) pt).
Proof.
  intros Hlen Hpt Ht Hout.
  change SIZE_MOD with 18446744073709551616 in Hlen.
  change (Z.of_nat sizeof_header) with 40 in Hlen.
  unfold decrypt_recover.
  change (Z.of_nat sizeof_header) with 40.
  rewrite Z.mod_small by (change SIZE_MOD with 18446744073709551616; lia).
  replace (Z.to_nat (Z.of_nat (length ct) - 40)) with (length ct - sizeof_header)%nat
    by (unfold sizeof_header; lia).
  rewrite load_ok by (unfold sizeof_header; lia).
  rewrite firstn_all2 by (rewrite length_skipn; lia).
  rewrite (store_ok pt 0) by (rewrite length_skipn; cbn [Nat.add]; lia).
  cbn [firstn app Nat.add quaternion_conjugate snd].
  rewrite length_skipn.
  rewrite load_ok by (rewrite length_app, !length_skipn; cbn [Nat.add]; lia).
  cbn [skipn].
  rewrite firstn_app, firstn_all2 by (rewrite length_skipn; lia).
  rewrite length_skipn, Nat.sub_diag, firstn_O, app_nil_r.
  rewrite Ht.
  rewrite store_ok by (rewrite length_app, !length_skipn; cbn [Nat.add]; lia).
  cbn [firstn app Nat.add].
  rewrite skipn_app, skipn_all2, Hout by (rewrite length_skipn; lia).
  rewrite length_skipn, Nat.sub_diag. reflexivity.
Qed.

(** C3.  The outcome of Decode does not depend on the key argument: any two
    non-null keys give the same return code, output buffer and length.  The
    one key under which Decode runs the transform is the conjugate of the key
    stored in the container's header: two transforms that agree under that
    key give the same outcome, whatever the key arguments.  And Decode does
    run it: past the guards, the output buffer holds what the transform makes
    of the payload under the stored key with its vector part negated, the
    return code is the transform's unless the checksum of that output
    disagrees with the stored one, and the length is set when the transform
    succeeds. *)
Theorem decrypt_ignores_key_argument :
  (forall (transform : list byte -> quaternion_t -> Z * list byte)
          (ct : option (list byte)) (k1 k2 : quaternion_t)
          (pt : option (list byte)) (pl : option Z),
      hypercomplex_decrypt_data transform ct (Some k1) pt pl =
      hypercomplex_decrypt_data transform ct (Some k2) pt pl)
  /\
  (forall (t1 t2 : list byte -> quaternion_t -> Z * list byte)
          (ct : list byte) (k1 k2 : quaternion_t) (pt : list byte) (pl : Z),
      (forall block,
          t1 block (conjugate (h_key (header_of ct))) =
          t2 block (conjugate (h_key (header_of ct)))) ->
      hypercomplex_decrypt_data t1 (Some ct) (Some k1) (Some pt) (Some pl) =
      hypercomplex_decrypt_data t2 (Some ct) (Some k2) (Some pt) (Some pl))
  /\
  (forall (transform : list byte -> quaternion_t -> Z * list byte)
          (ct : list byte) (k : quaternion_t) (pt : list byte) (pl : Z)
          (r : Z) (out : list byte),
      let header := header_of ct in
      let stored := h_key header in
      let payload := skipn sizeof_header ct in
      Z.of_nat sizeof_header <= Z.of_nat (length ct) < SIZE_MOD ->
      h_magic header = HEADER_MAGIC ->
      h_length header <= pl ->
      (length payload <= length pt)%nat ->
      (Z.to_nat (h_length header) <= length pt)%nat ->
      transform payload
        (mkQuaternion (w stored) (f32_neg (x stored)) (f32_neg (y stored))
           (f32_neg (z stored))) = (r, out) ->
      length out = length payload ->
      hypercomplex_decrypt_data transform (Some ct) (Some k) (Some pt) (Some pl) =
      Some (if r =? HC_SUCCESS
            then if compute_checksum (out ++ skipn (length payload) pt)
                      (Z.to_nat (h_length header)) =? h_checksum header
                 then HC_SUCCESS else HC_ERROR_INVALID_DATA
            else r,
            Some (out ++ skipn (length payload) pt),
            Some (if r =? HC_SUCCESS then h_length header else pl))).
Proof.
  split; [|split].
  - intros transform ct k1 k2 pt pl. unfold hypercomplex_decrypt_data.
    destruct ct as [c|], pt as [p|], pl as [l|]; reflexivity.
  - intros t1 t2 ct k1 k2 pt pl H.
    destruct (Z.lt_ge_cases (Z.of_nat (length ct)) (Z.of_nat sizeof_header))
      as [Hs|Hl].
    + rewrite !decrypt_data_too_short by exact Hs. reflexivity.
    + rewrite !decrypt_data_with_header by lia. cbv zeta.
      rewrite (decrypt_recover_transform_ext t1 t2 ct (header_of ct) pt H).
      reflexivity.
  - intros transform ct k pt pl r out header stored payload Hlen Hm Hpl Hpt Hhl Ht Hout.
    subst header stored payload. rewrite length_skipn in *.
    change (mkQuaternion _ _ _ _) with (conjugate (h_key (header_of ct))) in Ht.
    rewrite decrypt_data_with_header by lia. cbv zeta.
    rewrite Hm, Z.eqb_refl. cbn [negb].
    destruct (Z.ltb_spec pl (h_length (header_of ct))); [lia|].
    rewrite (decrypt_recover_any transform ct (header_of ct) pt r out Hlen Hpt Ht Hout).
    destruct (Z.eqb_spec r HC_SUCCESS) as [Hr|Hr]; [|reflexivity].
    rewrite load_ok
      by (rewrite length_app, length_skipn, Hout; cbn [Nat.add]; lia).
    cbn [skipn].
    destruct (compute_checksum _ _ =? h_checksum (header_of ct)); cbn [negb];
      rewrite ?Hr; reflexivity.
Qed.

(* ------------------------------------------------------------------------- *)
(** ** The XOR transform meets the contract *)

Lemma lxor_byte_range (a b : Z) :
  0 <= a < 256 -> 0 <= b < 256 -> 0 <= Z.lxor a b < 256.
Proof.
  intros Ha Hb.
  assert (E : Z.lxor a b = Z.lxor a b mod 2 ^ 8).
  { rewrite <- !Z.land_ones by lia. rewrite land_lxor_distr.
    rewrite !Z.land_ones by lia.
    now rewrite (Z.mod_small a), (Z.mod_small b) by (change (2 ^ 8) with 256; lia). }
  rewrite E. apply Z.mod_pos_bound. reflexivity.
Qed.

Lemma byte_xor_involutive (a m : byte) : byte_xor (byte_xor a m) m = a.
Proof.
  unfold byte_xor.
  pose proof (Z_of_byte_range a) as Ha. pose proof (Z_of_byte_range m) as Hm.
  rewrite Z_of_byte_of_Z, Z.mod_small by (apply lxor_byte_range; assumption).
  rewrite Z.lxor_assoc, Z.lxor_nilpotent, Z.lxor_0_r.
  apply byte_of_Z_of_byte.
Qed.

Lemma xor_transform_contract : transform_contract xor_transform.
Proof.
  intros block key _ _ _.
  exists (map (fun b => byte_xor b (byte_of_Z (w key))) block).
  split; [reflexivity|]. split; [apply length_map|].
  unfold xor_transform. cbn [conjugate w]. f_equal.
  rewrite map_map. rewrite <- (map_id block) at 2.
  apply map_ext. intros a. apply byte_xor_involutive.
Qed.

(* ------------------------------------------------------------------------- *)
(** ** Concrete runs *)

Example example_container_is_encoded :
  hypercomplex_encrypt_data xor_transform (Some example_plaintext) (Some example_key)
    (Some (repeat x00 56)) (Some 56)
  = Some (HC_SUCCESS, Some example_container, Some 56).
Proof. vm_compute. reflexivity. Qed.

Example example_long_container_is_encoded :
  hypercomplex_encrypt_data xor_transform (Some example_long_plaintext) (Some example_key)
    (Some (repeat x00 88)) (Some 88)
  = Some (HC_SUCCESS, Some example_long_container, Some 88).
Proof. vm_compute. reflexivity. Qed.

(** Capacity 8 where 56 bytes are needed. *)
Lemma encrypt_reports_required_size_witness :
  smallest_multiple_of_16 3 16 /\
  hypercomplex_encrypt_data xor_transform (Some example_plaintext) (Some example_key)
    (Some (repeat xff 8)) (Some 8)
  = Some (HC_ERROR_INVALID_DATA, Some (repeat xff 8), Some 56).
Proof.
  apply (encrypt_reports_required_size xor_transform example_plaintext example_key
           (repeat xff 8) 8).
  - vm_compute. reflexivity.
  - vm_compute. reflexivity.
  - vm_compute. reflexivity.
Defined.

Lemma encrypt_success_layout_witness :
  smallest_multiple_of_16 3 16 /\
  (3 mod 16 = 0 -> 16 = 3) /\
  56 = 56 /\
  exists output,
    xor_transform (example_plaintext ++ repeat x00 13) example_key = (HC_SUCCESS, output) /\
    store
      (header_image (repeat x00 56) 3 example_key
         (compute_checksum example_plaintext 3)
         ++ (example_plaintext ++ repeat x00 13)
         ++ skipn 16 (skipn sizeof_header (repeat x00 56)))
      sizeof_header output = Some example_container.
Proof.
  apply (encrypt_success_layout xor_transform example_plaintext example_key
           (repeat x00 56) 56 example_container 56).
  - vm_compute. reflexivity.
  - vm_compute. reflexivity.
Defined.

(** A two-byte buffer cannot hold a header. *)
Lemma decrypt_rejects_malformed_witness :
  hypercomplex_decrypt_data xor_transform (Some [xde; xad]) (Some example_key)
    (Some (repeat x00 4)) (Some 4)
  = Some (HC_ERROR_INVALID_DATA, Some (repeat x00 4), Some 4).
Proof.
  apply (decrypt_rejects_malformed xor_transform [xde; xad] example_key (repeat x00 4) 4).
  left. vm_compute. reflexivity.
Defined.

(** The example container with the low byte of its stored checksum replaced. *)
Lemma decrypt_integrity_mismatch_witness :
  hypercomplex_decrypt_data xor_transform (Some (set_byte example_container 32 xff))
    (Some example_key) (Some (repeat x00 16)) (Some 16)
  = Some (HC_ERROR_INVALID_DATA, Some example_recovered, Some 3)
  /\ HC_ERROR_INVALID_DATA <> HC_SUCCESS.
Proof.
  apply (decrypt_integrity_mismatch xor_transform (set_byte example_container 32 xff)
           example_key (repeat x00 16) 16 example_recovered).
  - vm_compute. discriminate.
  - vm_compute. reflexivity.
  - vm_compute. split; discriminate.
  - vm_compute. reflexivity.
  - vm_compute. discriminate.
Defined.

Lemma flipped_magic_or_checksum_is_rejected_witness :
  hypercomplex_decrypt_data xor_transform (Some (set_byte example_container 0 x00))
    (Some example_key) (Some (repeat x00 16)) (Some 16)
  = Some (HC_ERROR_INVALID_DATA, Some (repeat x00 16), Some 16)
  /\
  hypercomplex_decrypt_data xor_transform (Some (set_byte example_container 35 x01))
    (Some example_key) (Some (repeat x00 16)) (Some 16)
  = Some (HC_ERROR_INVALID_DATA, Some example_recovered, Some 3).
Proof.
  assert (Hwf : quaternion_wf example_key) by (vm_compute; repeat split; discriminate).
  assert (Hvalid : quaternion_is_valid (Some example_key) = 1) by (vm_compute; reflexivity).
  assert (Hunit : quaternion_is_unit example_key = true) by (vm_compute; reflexivity).
  assert (Hwrap : Z.of_nat (length example_plaintext) + 15 + Z.of_nat sizeof_header
                  < SIZE_MOD) by (vm_compute; reflexivity).
  assert (Hpl : Z.of_nat (length example_plaintext) <= 16) by (vm_compute; discriminate).
  assert (Hob : padded_length_of (Z.of_nat (length example_plaintext))
                <= Z.of_nat (length (repeat x00 16))) by (vm_compute; discriminate).
  assert (Hmagic : nth 0 (firstn (Z.to_nat 56) example_container) x00 <> x00)
    by (vm_compute; discriminate).
  assert (Hcks : nth 35 (firstn (Z.to_nat 56) example_container) x00 <> x01)
    by (vm_compute; discriminate).
  pose proof (flipped_magic_or_checksum_is_rejected xor_transform example_plaintext
                example_key (repeat x00 56) 56 example_container 56 0 x00
                example_key (repeat x00 16) 16 xor_transform_contract Hwf Hvalid
                Hunit Hwrap example_container_is_encoded Hmagic Hpl Hob) as [H0 _].
  pose proof (flipped_magic_or_checksum_is_rejected xor_transform example_plaintext
                example_key (repeat x00 56) 56 example_container 56 35 x01
                example_key (repeat x00 16) 16 xor_transform_contract Hwf Hvalid
                Hunit Hwrap example_container_is_encoded Hcks Hpl Hob) as [_ H35].
  specialize (H0 ltac:(lia)). specialize (H35 ltac:(lia)).
  vm_compute in H0. vm_compute in H35.
  split; vm_compute; assumption.
Defined.

(** A NaN key (InvalidKey) and a short capacity (BufferTooSmall) on the
    Encode side; a two-byte buffer (Malformed) on the Decode side. *)
Lemma error_kinds_share_one_code_witness :
  (exists cl',
      hypercomplex_encrypt_data xor_transform (Some example_plaintext)
        (Some (mkQuaternion 0x7FC00000 0 0 0)) (Some (repeat x00 56)) (Some 56)
      = Some (HC_ERROR_INVALID_DATA, Some (repeat x00 56), Some cl') /\
      (InvalidKey = InvalidKey /\ cl' = 56 \/ InvalidKey = BufferTooSmall /\ 56 < cl'))
  /\
  (exists cl',
      hypercomplex_encrypt_data xor_transform (Some example_plaintext)
        (Some example_key) (Some (repeat x00 8)) (Some 8)
      = Some (HC_ERROR_INVALID_DATA, Some (repeat x00 8), Some cl') /\
      (BufferTooSmall = InvalidKey /\ cl' = 8 \/ BufferTooSmall = BufferTooSmall /\ 8 < cl'))
  /\
  ((Malformed = Malformed \/ Malformed = BufferTooSmall \/ Malformed = IntegrityMismatch) /\
   exists pt' pl',
     hypercomplex_decrypt_data xor_transform (Some [xde; xad]) (Some example_key)
       (Some (repeat x00 4)) (Some 4)
     = Some (HC_ERROR_INVALID_DATA, Some pt', Some pl')).
Proof.
  destruct (error_kinds_share_one_code xor_transform) as (Henc & Hdec & _).
  split; [|split].
  - apply Henc. apply encode_invalid_key. vm_compute. reflexivity.
  - apply Henc. apply encode_too_small; vm_compute; reflexivity.
  - apply Hdec. apply decode_too_short. vm_compute. reflexivity.
Defined.

(** C9, as stated, fails.  Under [xor_transform], which meets the contract:
    in the container Encode makes of the three-byte plaintext, replacing the header padding byte at offset 4, or the last
    byte of the padded payload at offset 55, by another value leaves Decode
    returning [HC_SUCCESS] with the plaintext intact; and in the container of
    the 40-byte plaintext, replacing the first payload byte at offset 40
    leaves Decode returning [HC_SUCCESS] with a plaintext whose first byte is
    wrong. *)
Lemma flipped_byte_goes_undetected :
  hypercomplex_encrypt_data xor_transform (Some example_plaintext) (Some example_key)
    (Some (repeat x00 56)) (Some 56)
  = Some (HC_SUCCESS, Some example_container, Some 56)
  /\
  hypercomplex_encrypt_data xor_transform (Some example_long_plaintext) (Some example_key)
    (Some (repeat x00 88)) (Some 88)
  = Some (HC_SUCCESS, Some example_long_container, Some 88)
  /\
  (nth 4 example_container x00 <> x01 /\
   hypercomplex_decrypt_data xor_transform (Some (set_byte example_container 4 x01))
     (Some example_key) (Some (repeat x00 16)) (Some 16)
   = Some (HC_SUCCESS, Some example_recovered, Some 3))
  /\
  (nth 55 example_container x00 <> x01 /\
   exists outbuf,
     hypercomplex_decrypt_data xor_transform (Some (set_byte example_container 55 x01))
       (Some example_key) (Some (repeat x00 16)) (Some 16)
     = Some (HC_SUCCESS, Some outbuf, Some 3) /\
     firstn 3 outbuf = example_plaintext)
  /\
  (nth 40 example_long_container x00 <> xff /\
   exists outbuf,
     hypercomplex_decrypt_data xor_transform
       (Some (set_byte example_long_container 40 xff))
       (Some example_key) (Some (repeat x00 48)) (Some 48)
     = Some (HC_SUCCESS, Some outbuf, Some 40) /\
     firstn 40 outbuf <> example_long_plaintext).
Proof.
  split; [vm_compute; reflexivity|].
  split; [vm_compute; reflexivity|].
  split; [|split].
  - split; [vm_compute; discriminate | vm_compute; reflexivity].
  - split; [vm_compute; discriminate|].
    eexists. split; [vm_compute; reflexivity | vm_compute; reflexivity].
  - split; [vm_compute; discriminate|].
    eexists. split; [vm_compute; reflexivity | vm_compute; discriminate].
Qed.

(** The example container, decoded once with [xor_transform] and the key it
    was made with, once with a transform that accepts nothing but the stored
    key's conjugate and a key argument that is not even finite; and decoded
    with [xor_transform_sign], whose output shows the key it ran under: the
    payload XOR 3F, the top byte of the stored first vector component (BF)
    with its sign flipped. *)
Lemma decrypt_ignores_key_argument_witness :
  hypercomplex_decrypt_data xor_transform (Some example_container)
    (Some example_key) (Some (repeat x00 16)) (Some 16)
  = hypercomplex_decrypt_data (xor_transform_only example_key) (Some example_container)
      (Some (mkQuaternion 0x7FC00000 0 0 0)) (Some (repeat x00 16)) (Some 16)
  /\
  hypercomplex_decrypt_data xor_transform_sign (Some example_container)
    (Some (mkQuaternion 0x7FC00000 0 0 0)) (Some (repeat x00 16)) (Some 16)
  = Some (HC_ERROR_INVALID_DATA, Some ([x23; x20; x21] ++ repeat x42 13), Some 3).
Proof.
  split.
  - apply (proj1 (proj2 decrypt_ignores_key_argument) xor_transform
             (xor_transform_only example_key) example_container example_key
             (mkQuaternion 0x7FC00000 0 0 0) (repeat x00 16) 16).
    intros block. reflexivity.
  - apply (proj2 (proj2 decrypt_ignores_key_argument) xor_transform_sign
             example_container (mkQuaternion 0x7FC00000 0 0 0) (repeat x00 16) 16
             HC_SUCCESS ([x23; x20; x21] ++ repeat x42 13)).
    + vm_compute. split; [discriminate | reflexivity].
    + reflexivity.
    + vm_compute. discriminate.
    + vm_compute. repeat constructor.
    + vm_compute. repeat constructor.
    + vm_compute. reflexivity.
    + reflexivity.
Defined.

(** Decode checks the capacity against the recorded length but copies the
    whole padded payload: an output buffer of exactly the plaintext length
    (3 bytes here, for a 16-byte payload) is overrun. *)
Example decrypt_overruns_exact_capacity :
  hypercomplex_decrypt_data xor_transform (Some example_container)
    (Some example_key) (Some (repeat x00 3)) (Some 3) = None.
Proof. vm_compute. reflexivity. Qed.

(* ========================================================================= *)
(** * Further properties of the code *)

(* ------------------------------------------------------------------------- *)
(** ** Key derivation: the key space *)

Lemma land_65535_mod (s : Z) : Z.land s 65535 = s mod 65536.
Proof. change 65535 with (Z.ones 16). rewrite Z.land_ones by lia. reflexivity. Qed.

Lemma lcg_step_low16 (s s' : Z) :
  s mod 65536 = s' mod 65536 -> lcg_step s mod 65536 = lcg_step s' mod 65536.
Proof.
  intros H. unfold lcg_step, SIZE_MOD.
  assert (D : (65536 | 2 ^ 64)) by (exists (2 ^ 48); reflexivity).
  rewrite !(Z.mod_mod_divide _ (2 ^ 64) 65536) by exact D.
  rewrite <- (Zplus_mod_idemp_l (s * _)), <- (Zplus_mod_idemp_l (s' * _)).
  rewrite <- (Zmult_mod_idemp_l s), <- (Zmult_mod_idemp_l s').
  now rewrite H.
Qed.

Lemma lcg_component_low16 (s s' : Z) :
  s mod 65536 = s' mod 65536 -> lcg_component s = lcg_component s'.
Proof.
  intros H. unfold lcg_component. rewrite !land_65535_mod, H. reflexivity.
Qed.

Lemma raw_key_low16 (seed : Z) : raw_key seed = raw_key (seed mod 65536).
Proof.
  assert (H0 : seed mod 65536 = (seed mod 65536) mod 65536)
    by (symmetry; apply Z.mod_mod; lia).
  pose proof (lcg_step_low16 _ _ H0) as H1.
  pose proof (lcg_step_low16 _ _ H1) as H2.
  pose proof (lcg_step_low16 _ _ H2) as H3.
  pose proof (lcg_step_low16 _ _ H3) as H4.
  unfold raw_key. cbv zeta.
  rewrite (lcg_component_low16 _ _ H1), (lcg_component_low16 _ _ H2),
    (lcg_component_low16 _ _ H3), (lcg_component_low16 _ _ H4).
  reflexivity.
Qed.

(** X1.  The key [quaternion_generate_key] derives depends on the low 16 bits
    of the seed only: every seed gives the key of its residue modulo 65536,
    so the 64-bit seed space yields at most 65536 keys. *)
Theorem generate_key_depends_on_low_16_bits (key : option quaternion_t) (seed : Z) :
  quaternion_generate_key key seed = quaternion_generate_key key (seed mod 65536).
Proof.
  unfold quaternion_generate_key. destruct key as [k|]; [|reflexivity].
  cbv zeta. rewrite (raw_key_low16 seed). reflexivity.
Qed.

(* ------------------------------------------------------------------------- *)
(** ** Checksum: what the digest retains *)

Lemma shiftl_mod_idemp (v k : Z) :
  0 <= k -> Z.shiftl (v mod UINT32_MOD) k mod UINT32_MOD = Z.shiftl v k mod UINT32_MOD.
Proof.
  intros Hk. rewrite !Z.shiftl_mul_pow2 by exact Hk.
  apply Zmult_mod_idemp_l.
Qed.

Lemma lxor_mod_distr (a b : Z) :
  Z.lxor a b mod UINT32_MOD = Z.lxor (a mod UINT32_MOD) (b mod UINT32_MOD).
Proof.
  unfold UINT32_MOD. rewrite <- !Z.land_ones by lia. apply land_lxor_distr.
Qed.

Lemma checksum_step_shift (acc : Z) (b : byte) (k : Z) :
  0 <= k ->
  Z.shiftl (checksum_step acc b) k mod UINT32_MOD =
  Z.lxor (Z.shiftl acc (k + 1) mod UINT32_MOD)
         (Z.shiftl (Z_of_byte b) k mod UINT32_MOD).
Proof.
  intros Hk. unfold checksum_step.
  rewrite Z.shiftl_lxor, lxor_mod_distr, shiftl_mod_idemp by exact Hk.
  rewrite Z.shiftl_shiftl by lia. rewrite (Z.add_comm 1 k). reflexivity.
Qed.

(** The accumulator enters the digest of [bs] shifted left by the number of
    bytes that follow. *)
Lemma fold_checksum_step_shift (bs : list byte) (acc : Z) :
  0 <= acc < UINT32_MOD ->
  fold_left checksum_step bs acc =
  Z.lxor (Z.shiftl acc (Z.of_nat (length bs)) mod UINT32_MOD)
         (fold_left checksum_step bs 0).
Proof.
  revert acc. induction bs as [|b rest IH]; intros acc Hacc.
  - cbn [fold_left length Z.of_nat]. rewrite Z.shiftl_0_r, Z.lxor_0_r.
    symmetry. apply Z.mod_small. exact Hacc.
  - cbn [fold_left length].
    rewrite (IH (checksum_step acc b)) by apply checksum_step_range.
    rewrite (IH (checksum_step 0 b)) by apply checksum_step_range.
    rewrite !checksum_step_shift by lia.
    rewrite Z.shiftl_0_l, Z.mod_0_l, Z.lxor_0_l by (unfold UINT32_MOD; lia).
    rewrite Nat2Z.inj_succ, <- Z.add_1_r.
    apply Z.lxor_assoc.
Qed.

(** X2.  The checksum of a concatenation: the checksum of the first part,
    shifted left by the length of the second part in 32-bit arithmetic, XOR
    the checksum of the second part. *)
Theorem checksum_of_concatenation (a b : list byte) :
  compute_checksum (a ++ b) (length (a ++ b)) =
  Z.lxor
    (Z.shiftl (compute_checksum a (length a)) (Z.of_nat (length b)) mod 2 ^ 32)
    (compute_checksum b (length b)).
Proof.
  unfold compute_checksum.
  rewrite !checksum_loop_fold by (cbn [Nat.add]; lia).
  cbn [skipn]. rewrite !firstn_all, fold_left_app.
  apply fold_checksum_step_shift.
  apply fold_checksum_step_range. unfold UINT32_MOD. lia.
Qed.

(** X3.  The checksum retains the last 32 bytes only: whatever precedes a
    tail of 32 or more bytes has no influence on the digest. *)
Theorem checksum_forgets_all_but_last_32 (a b : list byte) :
  (32 <= length b)%nat ->
  compute_checksum (a ++ b) (length (a ++ b)) = compute_checksum b (length b).
Proof.
  intros Hb. unfold compute_checksum.
  rewrite !checksum_loop_fold by (cbn [Nat.add]; lia).
  cbn [skipn]. rewrite !firstn_all, fold_left_app.
  rewrite fold_checksum_step_shift
    by (apply fold_checksum_step_range; unfold UINT32_MOD; lia).
  set (c := fold_left checksum_step a 0).
  replace (Z.shiftl c (Z.of_nat (length b)) mod UINT32_MOD) with 0;
    [apply Z.lxor_0_l|].
  rewrite Z.shiftl_mul_pow2 by lia.
  replace (Z.of_nat (length b)) with (32 + (Z.of_nat (length b) - 32)) by lia.
  rewrite Z.pow_add_r by lia.
  change (2 ^ 32) with UINT32_MOD.
  rewrite Z.mul_assoc, (Z.mul_comm c), <- Z.mul_assoc.
  rewrite Z.mul_comm, Z.mod_mul by (unfold UINT32_MOD; lia).
  reflexivity.
Qed.

Lemma checksum_forgets_all_but_last_32_witness :
  compute_checksum ([xff; x01; x80] ++ repeat x41 32) (length ([xff; x01; x80] ++ repeat x41 32))
  = compute_checksum (repeat x41 32) (length (repeat x41 32)).
Proof.
  apply (checksum_forgets_all_but_last_32 [xff; x01; x80] (repeat x41 32)).
  simpl. lia.
Defined.

(* ------------------------------------------------------------------------- *)
(** ** The codec: what Encode and Decode write, and when they do not return *)

Lemma codec_result_inj (r1 r2 : Z) (b1 b2 : list byte) (l1 l2 : option Z) :
  Some (r1, Some b1, l1) = Some (r2, Some b2, l2) :> option codec_result ->
  r1 = r2 /\ b1 = b2 /\ l1 = l2.
Proof. intros H. injection H as -> -> ->. repeat split. Qed.

Section CodecFrames.

Variable transform : list byte -> quaternion_t -> Z * list byte.

(** A call of Encode that passes both guards and returns wrote inside the
    output object. *)
Lemma encrypt_data_returns_inv (pt : list byte) (k : quaternion_t) (ct : list byte)
    (cl : Z) (res : codec_result) :
  quaternion_is_valid (Some k) = 1 ->
  Z.of_nat (length pt) + 15 + Z.of_nat sizeof_header < SIZE_MOD ->
  Z.of_nat sizeof_header + padded_length_of (Z.of_nat (length pt)) <= cl ->
  hypercomplex_encrypt_data transform (Some pt) (Some k) (Some ct) (Some cl) = Some res ->
  Z.of_nat sizeof_header + padded_length_of (Z.of_nat (length pt))
    <= Z.of_nat (length ct).
Proof.
  intros Hv Hwrap Hcl Hrun.
  change SIZE_MOD with 18446744073709551616 in Hwrap.
  change (Z.of_nat sizeof_header) with 40 in *.
  assert (Hpad : Z.of_nat (length pt) <= padded_length_of (Z.of_nat (length pt))
                 < Z.of_nat (length pt) + 16)
    by (apply padded_length_bounds; change SIZE_MOD with 18446744073709551616; lia).
  unfold hypercomplex_encrypt_data in Hrun.
  rewrite Hv in Hrun. change (1 =? 0) with false in Hrun. cbv iota zeta in Hrun.
  change (Z.of_nat sizeof_header) with 40 in Hrun.
  rewrite (Z.mod_small (40 + _)) in Hrun
    by (change SIZE_MOD with 18446744073709551616; lia).
  destruct (Z.ltb_spec cl (40 + padded_length_of (Z.of_nat (length pt))));
    [lia|].
  destruct (store ct OFF_MAGIC _) as [c1|] eqn:E1; [|discriminate Hrun].
  destruct (store c1 OFF_LENGTH _) as [c2|] eqn:E2; [|discriminate Hrun].
  destruct (store c2 OFF_KEY _) as [c3|] eqn:E3; [|discriminate Hrun].
  destruct (store c3 OFF_CHECKSUM _) as [c4|] eqn:E4; [|discriminate Hrun].
  destruct (store c4 sizeof_header pt) as [c5|] eqn:E5; [|discriminate Hrun].
  apply store_length in E1, E2, E3, E4, E5.
  assert (H6 : exists c6,
             (if Z.of_nat (length pt) <? padded_length_of (Z.of_nat (length pt))
              then store c5 (sizeof_header + length pt)
                     (repeat x00
                        (Z.to_nat (padded_length_of (Z.of_nat (length pt))
                                   - Z.of_nat (length pt))))
              else Some c5) = Some c6 /\ length c6 = length c5).
  { destruct (Z.of_nat (length pt) <? padded_length_of (Z.of_nat (length pt))).
    - destruct (store c5 _ _) as [c6|] eqn:E6; [|discriminate Hrun].
      exists c6. split; [reflexivity|]. apply store_length in E6. exact E6.
    - exists c5. split; reflexivity. }
  destruct H6 as (c6 & E6 & L6). rewrite E6 in Hrun.
  destruct (load c6 sizeof_header _) as [input|] eqn:E7; [|discriminate Hrun].
  apply load_inv in E7 as [Hb _]. unfold sizeof_header in Hb. lia.
Qed.

(** The shape of every returning run of Encode past its guards, for a
    transform output of the padded length. *)
Lemma encrypt_data_run_result (pt : list byte) (k : quaternion_t) (ct : list byte)
    (cl : Z) (r : Z) (out : list byte) :
  let len := Z.of_nat (length pt) in
  let padded := padded_length_of len in
  let total := Z.of_nat sizeof_header + padded in
  quaternion_is_valid (Some k) = 1 ->
  len + 15 + Z.of_nat sizeof_header < SIZE_MOD ->
  total <= cl ->
  total <= Z.of_nat (length ct) ->
  transform (zero_padded pt padded) k = (r, out) ->
  length out = Z.to_nat padded ->
  hypercomplex_encrypt_data transform (Some pt) (Some k) (Some ct) (Some cl) =
  Some (r,
        Some (header_image ct len k (compute_checksum pt (length pt))
                ++ out ++ skipn (Z.to_nat padded) (skipn sizeof_header ct)),
        Some (if r =? HC_SUCCESS then total else cl)).
Proof.
  intros len padded total Hvalid Hwrap Hcl Hct Ht Hout.
  assert (Hlen : len = Z.of_nat (length pt)) by reflexivity.
  assert (Hpad : len <= padded < len + 16).
  { apply padded_length_bounds; [lia|].
    change SIZE_MOD with 18446744073709551616 in *.
    change (Z.of_nat sizeof_header) with 40 in Hwrap. lia. }
  assert (Hin : length (zero_padded pt padded) = Z.to_nat padded)
    by (apply zero_padded_length; lia).
  assert (HH : length (header_image ct len k (compute_checksum pt (length pt)))
               = sizeof_header).
  { apply header_image_length. unfold sizeof_header.
    change (Z.of_nat sizeof_header) with 40 in total, Hct.
    assert (Htotal : total = 40 + padded) by reflexivity. lia. }
  rewrite encrypt_data_run by assumption.
  fold len. fold padded. fold total. rewrite Ht.
  rewrite store_app_at by (rewrite ?length_app; lia).
  rewrite skipn_app, skipn_all2, Hout, <- Hin, Nat.sub_diag by lia.
  reflexivity.
Qed.

(** X4.  Encode stays inside the container: for a transform whose output is
    as long as its input, every returning call leaves the output object with
    its length and with every byte from offset [sizeof_header + padded] on
    as it was. *)
Theorem encrypt_writes_only_the_container
    (pt : list byte) (k : quaternion_t) (ct : list byte) (cl : Z)
    (r : Z) (ct' : list byte) (cl' : option Z) :
  let total := Z.of_nat sizeof_header + padded_length_of (Z.of_nat (length pt)) in
  (forall input key, length (snd (transform input key)) = length input) ->
  Z.of_nat (length pt) + 15 + Z.of_nat sizeof_header < SIZE_MOD ->
  hypercomplex_encrypt_data transform (Some pt) (Some k) (Some ct) (Some cl) =
  Some (r, Some ct', cl') ->
  length ct' = length ct /\
  skipn (Z.to_nat total) ct' = skipn (Z.to_nat total) ct.
Proof.
  intros total Hkeep Hwrap Hrun.
  destruct (quaternion_is_valid_bool (Some k)) as [Hv|Hv].
  { rewrite encrypt_data_invalid_key in Hrun by exact Hv.
    apply codec_result_inj in Hrun as (_ & <- & _). repeat split; reflexivity. }
  destruct (Z.lt_ge_cases cl total) as [Hlt|Hge].
  { rewrite encrypt_data_too_small in Hrun by assumption.
    apply codec_result_inj in Hrun as (_ & <- & _). repeat split; reflexivity. }
  pose proof (encrypt_data_returns_inv pt k ct cl _ Hv Hwrap Hge Hrun) as Hct.
  fold total in Hct.
  assert (Htotal : total = 40 + padded_length_of (Z.of_nat (length pt)))
    by reflexivity.
  assert (Hpad : Z.of_nat (length pt) <= padded_length_of (Z.of_nat (length pt))
                 < Z.of_nat (length pt) + 16).
  { apply padded_length_bounds; [lia|].
    change SIZE_MOD with 18446744073709551616 in *.
    change (Z.of_nat sizeof_header) with 40 in Hwrap. lia. }
  destruct (transform (zero_padded pt (padded_length_of (Z.of_nat (length pt)))) k)
    as [r0 out] eqn:Et.
  assert (Hout : length out = Z.to_nat (padded_length_of (Z.of_nat (length pt)))).
  { pose proof (Hkeep (zero_padded pt (padded_length_of (Z.of_nat (length pt)))) k)
      as Hk.
    rewrite Et in Hk. cbn [snd] in Hk. rewrite Hk.
    apply zero_padded_length. lia. }
  rewrite (encrypt_data_run_result pt k ct cl r0 out Hv Hwrap Hge Hct Et Hout) in Hrun.
  apply codec_result_inj in Hrun as (_ & <- & _).
  set (H := header_image ct (Z.of_nat (length pt)) k (compute_checksum pt (length pt))).
  assert (HH : length H = sizeof_header)
    by (apply header_image_length; unfold sizeof_header; lia).
  unfold sizeof_header in HH.
  split.
  - rewrite !length_app, !length_skipn, HH, Hout. unfold sizeof_header. lia.
  - rewrite skipn_app, skipn_all2, HH by lia.
    rewrite skipn_app, skipn_all2, Hout by lia.
    cbn [app]. rewrite Htotal.
    replace (Z.to_nat (40 + padded_length_of (Z.of_nat (length pt))) - 40
             - Z.to_nat (padded_length_of (Z.of_nat (length pt))))%nat
      with 0%nat by lia.
    cbn [skipn]. rewrite skipn_skipn. f_equal. unfold sizeof_header. lia.
Qed.

(** X5.  Encode hands a failure of the transform through: with the guards
    passed and the transform returning a code other than [HC_SUCCESS], Encode
    returns that code and leaves the size out-parameter as it was, although
    the transform's output is by then in the payload area of the output
    buffer. *)
Theorem encrypt_passes_transform_failure_through
    (pt : list byte) (k : quaternion_t) (ct : list byte) (cl : Z)
    (r : Z) (out : list byte) :
  let len := Z.of_nat (length pt) in
  let padded := padded_length_of len in
  let total := Z.of_nat sizeof_header + padded in
  quaternion_is_valid (Some k) = 1 ->
  len + 15 + Z.of_nat sizeof_header < SIZE_MOD ->
  total <= cl ->
  total <= Z.of_nat (length ct) ->
  transform (zero_padded pt padded) k = (r, out) ->
  length out = Z.to_nat padded ->
  r <> HC_SUCCESS ->
  exists ct',
    hypercomplex_encrypt_data transform (Some pt) (Some k) (Some ct) (Some cl) =
    Some (r, Some ct', Some cl) /\
    firstn (Z.to_nat padded) (skipn sizeof_header ct') = out.
Proof.
  intros len padded total Hvalid Hwrap Hcl Hct Ht Hout Hr.
  rewrite (encrypt_data_run_result pt k ct cl r out) by assumption.
  apply Z.eqb_neq in Hr. rewrite Hr.
  eexists. split; [reflexivity|].
  subst len padded total.
  assert (HH : length (header_image ct (Z.of_nat (length pt)) k
                         (compute_checksum pt (length pt)))
               = sizeof_header).
  { apply header_image_length.
    assert (0 <= padded_length_of (Z.of_nat (length pt)))
      by (unfold padded_length_of; apply Z.mod_pos_bound; reflexivity).
    lia. }
  rewrite skipn_app, skipn_all2 by (rewrite HH; lia).
  rewrite HH, Nat.sub_diag. cbn [skipn app].
  rewrite firstn_app, <- Hout, Nat.sub_diag, firstn_all, firstn_O, app_nil_r.
  reflexivity.
Qed.

(** X6.  The header Encode writes reads back: after any returning call that
    passed the guards, whatever the transform did, [read_header] finds the
    magic, the plaintext length, the key and the plaintext's checksum in the
    output buffer. *)
Theorem encrypt_header_reads_back
    (pt : list byte) (k : quaternion_t) (ct : list byte) (cl : Z)
    (r : Z) (ct' : list byte) (cl' : option Z) :
  let len := Z.of_nat (length pt) in
  let total := Z.of_nat sizeof_header + padded_length_of len in
  quaternion_wf k ->
  quaternion_is_valid (Some k) = 1 ->
  len + 15 + Z.of_nat sizeof_header < SIZE_MOD ->
  total <= cl ->
  hypercomplex_encrypt_data transform (Some pt) (Some k) (Some ct) (Some cl) =
  Some (r, Some ct', cl') ->
  read_header ct' =
  Some (mkHeader HEADER_MAGIC len k (compute_checksum pt (length pt))).
Proof.
  intros len total Hwf Hv Hwrap Hcl Hrun. subst len total.
  pose proof (encrypt_data_returns_inv pt k ct cl _ Hv Hwrap Hcl Hrun) as Hct.
  assert (Hpad : Z.of_nat (length pt) <= padded_length_of (Z.of_nat (length pt))
                 < Z.of_nat (length pt) + 16).
  { apply padded_length_bounds; [lia|].
    change SIZE_MOD with 18446744073709551616 in *.
    change (Z.of_nat sizeof_header) with 40 in Hwrap. lia. }
  rewrite encrypt_data_run in Hrun by assumption.
  destruct (transform _ k) as [r0 out].
  destruct (store _ sizeof_header out) as [c|] eqn:Es; [|discriminate Hrun].
  apply codec_result_inj in Hrun as (_ & <- & _).
  apply store_inv in Es as [Hb ->].
  set (H := header_image ct (Z.of_nat (length pt)) k (compute_checksum pt (length pt))) in *.
  assert (HH : length H = sizeof_header).
  { apply header_image_length. unfold sizeof_header.
    change (Z.of_nat sizeof_header) with 40 in Hct. lia. }
  rewrite firstn_app, firstn_all2 by lia.
  rewrite HH, Nat.sub_diag, firstn_O, app_nil_r.
  rewrite read_header_ok by (rewrite length_app; lia).
  rewrite header_of_app by exact HH.
  subst H. f_equal. apply header_of_image.
  - unfold sizeof_header. change (Z.of_nat sizeof_header) with 40 in Hct. lia.
  - change SIZE_MOD with 18446744073709551616 in *. lia.
  - exact Hwf.
  - apply compute_checksum_range. lia.
Qed.

End CodecFrames.

Section DecodeFacts.

Variable transform : list byte -> quaternion_t -> Z * list byte.

(** The recovery stage, step by step: what it needs in order to return and
    what it leaves in the output object. *)
Lemma decrypt_recover_inv (ct : list byte) (h : hypercomplex_header_t)
    (pt : list byte) (r : Z) (pt' : list byte) :
  Z.of_nat sizeof_header <= Z.of_nat (length ct) < SIZE_MOD ->
  decrypt_recover transform ct h pt = Some (r, pt') ->
  (length ct - sizeof_header <= length pt)%nat /\
  exists out,
    transform (skipn sizeof_header ct) (conjugate (h_key h)) = (r, out) /\
    store (skipn sizeof_header ct ++ skipn (length ct - sizeof_header) pt) 0 out
    = Some pt'.
Proof.
  intros Hlen Hrun.
  change SIZE_MOD with 18446744073709551616 in Hlen.
  change (Z.of_nat sizeof_header) with 40 in Hlen.
  unfold decrypt_recover in Hrun.
  change (Z.of_nat sizeof_header) with 40 in Hrun.
  rewrite Z.mod_small in Hrun by (change SIZE_MOD with 18446744073709551616; lia).
  replace (Z.to_nat (Z.of_nat (length ct) - 40)) with (length ct - sizeof_header)%nat
    in Hrun by (unfold sizeof_header; lia).
  rewrite load_ok in Hrun by (unfold sizeof_header; lia).
  rewrite firstn_all2 in Hrun by (rewrite length_skipn; lia).
  destruct (store pt 0 (skipn sizeof_header ct)) as [p1|] eqn:E1; [|discriminate Hrun].
  apply store_inv in E1 as [Hb1 ->].
  rewrite length_skipn in Hb1. cbn [Nat.add] in Hb1.
  split; [exact Hb1|].
  cbn [firstn app Nat.add quaternion_conjugate snd] in Hrun.
  rewrite length_skipn in Hrun.
  rewrite load_ok in Hrun
    by (rewrite length_app, !length_skipn; cbn [Nat.add]; lia).
  cbn [skipn] in Hrun.
  rewrite firstn_app, firstn_all2 in Hrun by (rewrite length_skipn; lia).
  rewrite length_skipn, Nat.sub_diag, firstn_O, app_nil_r in Hrun.
  destruct (transform (skipn sizeof_header ct) (conjugate (h_key h))) as [r0 out].
  destruct (store _ 0 out) as [p2|] eqn:E2; [|discriminate Hrun].
  injection Hrun as -> ->.
  exists out. split; [reflexivity | exact E2].
Qed.

(** X7.  Decode with a capacity below the length recorded in the header
    returns [HC_ERROR_INVALID_DATA], writes the recorded length into the
    length out-parameter and leaves the output buffer untouched. *)
Theorem decrypt_reports_required_length
    (ct : list byte) (k : quaternion_t) (pt : list byte) (pl : Z) :
  Z.of_nat sizeof_header <= Z.of_nat (length ct) ->
  le_value (firstn 4 ct) = 0xDEADBEEF ->
  pl < le_value (firstn 8 (skipn 8 ct)) ->
  hypercomplex_decrypt_data transform (Some ct) (Some k) (Some pt) (Some pl) =
  Some (HC_ERROR_INVALID_DATA, Some pt, Some (le_value (firstn 8 (skipn 8 ct)))).
Proof.
  intros Hlen Hm Hpl.
  exact (decrypt_data_capacity transform ct k pt pl Hlen Hm Hpl).
Qed.

(** X8.  Decode overruns a short output object: the capacity is checked
    against the recorded plaintext length, but the whole payload is copied.
    Once the guards are passed, an output object shorter than the payload
    makes the call write outside it. *)
Theorem decrypt_overruns_short_output
    (ct : list byte) (k : quaternion_t) (pt : list byte) (pl : Z) :
  Z.of_nat sizeof_header <= Z.of_nat (length ct) < SIZE_MOD ->
  h_magic (header_of ct) = HEADER_MAGIC ->
  h_length (header_of ct) <= pl ->
  (length pt < length ct - sizeof_header)%nat ->
  hypercomplex_decrypt_data transform (Some ct) (Some k) (Some pt) (Some pl) = None.
Proof.
  intros Hlen Hm Hpl Hshort.
  rewrite decrypt_data_with_header by lia. cbv zeta.
  rewrite Hm, Z.eqb_refl. cbn [negb].
  destruct (Z.ltb_spec pl (h_length (header_of ct))); [lia|].
  destruct (decrypt_recover transform ct (header_of ct) pt) as [[r pt']|] eqn:E;
    [|reflexivity].
  apply decrypt_recover_inv in E as [Hb _]; [lia | exact Hlen].
Qed.

(** X9.  What [HC_SUCCESS] from Decode guarantees: the buffer held a header
    with the right magic, the reported length is the recorded one and does
    not exceed the capacity passed in, and the checksum of that many bytes of
    the output buffer equals the checksum stored in the header. *)
Theorem decrypt_success_is_verified
    (ct : list byte) (k : quaternion_t) (pt : list byte) (pl : Z)
    (pt' : list byte) (pl' : Z) :
  hypercomplex_decrypt_data transform (Some ct) (Some k) (Some pt) (Some pl) =
  Some (HC_SUCCESS, Some pt', Some pl') ->
  Z.of_nat sizeof_header <= Z.of_nat (length ct) /\
  h_magic (header_of ct) = HEADER_MAGIC /\
  pl' = h_length (header_of ct) /\
  pl' <= pl /\
  (Z.to_nat pl' <= length pt')%nat /\
  compute_checksum pt' (Z.to_nat pl') = h_checksum (header_of ct).
Proof.
  intros Hrun.
  destruct (Z.lt_ge_cases (Z.of_nat (length ct)) (Z.of_nat sizeof_header))
    as [Hs|Hl].
  { rewrite decrypt_data_too_short in Hrun by exact Hs. discriminate Hrun. }
  split; [exact Hl|].
  rewrite decrypt_data_with_header in Hrun by exact Hl. cbv zeta in Hrun.
  destruct (Z.eqb_spec (h_magic (header_of ct)) HEADER_MAGIC) as [Hm|Hm];
    cbn [negb] in Hrun; [|discriminate Hrun].
  split; [exact Hm|].
  destruct (Z.ltb_spec pl (h_length (header_of ct))) as [Hc|Hc];
    [discriminate Hrun|].
  destruct (decrypt_recover transform ct (header_of ct) pt) as [[r p2]|];
    [|discriminate Hrun].
  destruct (Z.eqb_spec r HC_SUCCESS) as [Hr|Hr].
  - destruct (load p2 0 (Z.to_nat (h_length (header_of ct)))) as [d|] eqn:El;
      [|discriminate Hrun].
    apply load_inv in El as [Hb _]. cbn [Nat.add] in Hb.
    destruct (Z.eqb_spec (compute_checksum p2 (Z.to_nat (h_length (header_of ct))))
                (h_checksum (header_of ct))) as [Hk|Hk];
      cbn [negb] in Hrun; [|discriminate Hrun].
    apply codec_result_inj in Hrun as (_ & <- & Hl').
    injection Hl' as <-.
    repeat split; (assumption || lia).
  - apply codec_result_inj in Hrun as (Hr' & _ & _). contradiction.
Qed.

(** X10.  Decode hands a failure of the transform through: with the guards
    passed and the transform returning a code other than [HC_SUCCESS], Decode
    returns that code without computing a checksum and leaves the length
    out-parameter as it was, although the output buffer has been
    overwritten with the transform's output. *)
Theorem decrypt_passes_transform_failure_through
    (ct : list byte) (k : quaternion_t) (pt : list byte) (pl : Z)
    (r : Z) (out : list byte) :
  Z.of_nat sizeof_header <= Z.of_nat (length ct) < SIZE_MOD ->
  h_magic (header_of ct) = HEADER_MAGIC ->
  h_length (header_of ct) <= pl ->
  (length ct - sizeof_header <= length pt)%nat ->
  transform (skipn sizeof_header ct) (conjugate (h_key (header_of ct))) = (r, out) ->
  length out = (length ct - sizeof_header)%nat ->
  r <> HC_SUCCESS ->
  hypercomplex_decrypt_data transform (Some ct) (Some k) (Some pt) (Some pl) =
  Some (r, Some (out ++ skipn (length ct - sizeof_header) pt), Some pl).
Proof.
  intros Hlen Hm Hpl Hpt Ht Hout Hr.
  rewrite decrypt_data_with_header by lia. cbv zeta.
  rewrite Hm, Z.eqb_refl. cbn [negb].
  destruct (Z.ltb_spec pl (h_length (header_of ct))); [lia|].
  assert (Hrec :
    decrypt_recover transform ct (header_of ct) pt =
    Some (r, out ++ skipn (length ct - sizeof_header) pt)).
  { change SIZE_MOD with 18446744073709551616 in Hlen.
    change (Z.of_nat sizeof_header) with 40 in Hlen.
    unfold decrypt_recover.
    change (Z.of_nat sizeof_header) with 40.
    rewrite Z.mod_small by (change SIZE_MOD with 18446744073709551616; lia).
    replace (Z.to_nat (Z.of_nat (length ct) - 40)) with (length ct - sizeof_header)%nat
      by (unfold sizeof_header; lia).
    rewrite load_ok by (unfold sizeof_header; lia).
    rewrite firstn_all2 by (rewrite length_skipn; lia).
    rewrite (store_ok pt 0) by (rewrite length_skipn; cbn [Nat.add]; lia).
    cbn [firstn app Nat.add quaternion_conjugate snd].
    rewrite length_skipn.
    rewrite load_ok by (rewrite length_app, !length_skipn; cbn [Nat.add]; lia).
    cbn [skipn].
    rewrite firstn_app, firstn_all2 by (rewrite length_skipn; lia).
    rewrite length_skipn, Nat.sub_diag, firstn_O, app_nil_r.
    rewrite Ht.
    rewrite store_ok by (rewrite length_app, !length_skipn; cbn [Nat.add]; lia).
    cbn [firstn app Nat.add].
    rewrite skipn_app, skipn_all2, Hout by (rewrite length_skipn; lia).
    rewrite length_skipn, Nat.sub_diag. reflexivity. }
  rewrite Hrec. apply Z.eqb_neq in Hr. rewrite Hr. reflexivity.
Qed.

(** X11.  Decode stays inside the payload length: for a transform whose
    output is as long as its input, every returning call leaves the output
    object with its length and with every byte from offset
    [cipher_length - sizeof_header] on as it was. *)
Theorem decrypt_writes_only_the_payload_length
    (ct : list byte) (k : quaternion_t) (pt : list byte) (pl : Z)
    (r : Z) (pt' : list byte) (pl' : option Z) :
  (forall input key, length (snd (transform input key)) = length input) ->
  Z.of_nat (length ct) < SIZE_MOD ->
  hypercomplex_decrypt_data transform (Some ct) (Some k) (Some pt) (Some pl) =
  Some (r, Some pt', pl') ->
  length pt' = length pt /\
  skipn (length ct - sizeof_header) pt' = skipn (length ct - sizeof_header) pt.
Proof.
  intros Hkeep Hsz Hrun.
  destruct (Z.lt_ge_cases (Z.of_nat (length ct)) (Z.of_nat sizeof_header))
    as [Hs|Hl].
  { rewrite decrypt_data_too_short in Hrun by exact Hs.
    apply codec_result_inj in Hrun as (_ & <- & _). split; reflexivity. }
  rewrite decrypt_data_with_header in Hrun by exact Hl. cbv zeta in Hrun.
  destruct (negb (h_magic (header_of ct) =? HEADER_MAGIC)).
  { apply codec_result_inj in Hrun as (_ & <- & _). split; reflexivity. }
  destruct (pl <? h_length (header_of ct)).
  { apply codec_result_inj in Hrun as (_ & <- & _). split; reflexivity. }
  destruct (decrypt_recover transform ct (header_of ct) pt) as [[r2 p2]|] eqn:E;
    [|discriminate Hrun].
  assert (Hp : pt' = p2).
  { destruct (r2 =? HC_SUCCESS).
    - destruct (load p2 0 _); [|discriminate Hrun].
      destruct (negb _);
        apply codec_result_inj in Hrun as (_ & <- & _); reflexivity.
    - apply codec_result_inj in Hrun as (_ & <- & _). reflexivity. }
  subst p2. clear Hrun.
  apply decrypt_recover_inv in E as (Hb & out & Ht & Es); [|lia].
  pose proof (Hkeep (skipn sizeof_header ct) (conjugate (h_key (header_of ct)))) as Hk.
  rewrite Ht in Hk. cbn [snd] in Hk. rewrite length_skipn in Hk.
  apply store_inv in Es as [_ ->].
  cbn [firstn app Nat.add].
  rewrite Hk, skipn_app, skipn_all2, length_skipn, Nat.sub_diag
    by (rewrite length_skipn; lia).
  cbn [skipn app]. split.
  - rewrite length_app, length_skipn. lia.
  - rewrite skipn_app, skipn_all2, Hk, Nat.sub_diag by lia. reflexivity.
Qed.

(** Encode followed by Decode of the container, for a transform meeting its
    contract: both runs, with the buffer Encode leaves spelled out. *)
Lemma encode_decode_run
    (pt : list byte) (key : quaternion_t) (ct : list byte) (cl : Z)
    (k2 : quaternion_t) (outbuf : list byte) (pl : Z) :
  let len := Z.of_nat (length pt) in
  let padded := padded_length_of len in
  let total := Z.of_nat sizeof_header + padded in
  transform_contract transform ->
  quaternion_wf key ->
  quaternion_is_valid (Some key) = 1 ->
  quaternion_is_unit key = true ->
  len + 15 + Z.of_nat sizeof_header < SIZE_MOD ->
  total <= cl ->
  total <= Z.of_nat (length ct) ->
  len <= pl ->
  padded <= Z.of_nat (length outbuf) ->
  exists out,
    length out = Z.to_nat padded /\
    hypercomplex_encrypt_data transform (Some pt) (Some key) (Some ct) (Some cl) =
    Some (HC_SUCCESS,
          Some (header_image ct len key (compute_checksum pt (length pt))
                  ++ out ++ skipn (Z.to_nat padded) (skipn sizeof_header ct)),
          Some total) /\
    firstn (Z.to_nat total)
      (header_image ct len key (compute_checksum pt (length pt))
         ++ out ++ skipn (Z.to_nat padded) (skipn sizeof_header ct))
    = header_image ct len key (compute_checksum pt (length pt)) ++ out /\
    hypercomplex_decrypt_data transform
      (Some (header_image ct len key (compute_checksum pt (length pt)) ++ out))
      (Some k2) (Some outbuf) (Some pl) =
    Some (HC_SUCCESS,
          Some (pt ++ repeat x00 (Z.to_nat (padded - len))
                  ++ skipn (Z.to_nat padded) outbuf),
          Some len).
Proof.
  intros len padded total Hcontract Hwf Hvalid Hunit Hwrap Hcl Hct Hpl Hob.
  destruct (encrypt_under_contract transform pt key ct cl Hcontract Hvalid Hunit
              Hwrap Hcl Hct)
    as (out & Hout & Hback & Henc & Hcont).
  fold len padded total in Hout, Hback, Henc, Hcont.
  exists out. split; [exact Hout|]. split; [exact Henc|]. split; [exact Hcont|].
  destruct (encoded_container_facts pt key ct out Hwf Hwrap Hct Hout)
    as (Hlc & Hhdr & Hpay).
  fold len padded in Hlc, Hhdr, Hpay.
  destruct (decrypt_container transform _ k2 outbuf pl pt Hwrap Hlc) as [Hdec _];
    try assumption.
  - rewrite Hhdr. reflexivity.
  - rewrite Hhdr. reflexivity.
  - rewrite Hhdr, Hpay. exact Hback.
  - rewrite Hdec, Hhdr. cbn [h_checksum]. rewrite Z.eqb_refl.
    unfold zero_padded. fold len. rewrite <- app_assoc. reflexivity.
Qed.

(** X12.  Round trip under any key the caller supplies: for a transform
    meeting its contract and a finite key of unit norm made of 32-bit words,
    Encode followed by Decode, with any key argument, returns [HC_SUCCESS],
    the original length and the original bytes, and leaves the bytes of the
    output buffer past the padded length untouched. *)
Theorem roundtrip_with_any_unit_key
    (pt : list byte) (key : quaternion_t) (ct : list byte) (cl : Z)
    (k2 : quaternion_t) (outbuf : list byte) (pl : Z) :
  let len := Z.of_nat (length pt) in
  let padded := padded_length_of len in
  let total := Z.of_nat sizeof_header + padded in
  transform_contract transform ->
  quaternion_wf key ->
  quaternion_is_valid (Some key) = 1 ->
  quaternion_is_unit key = true ->
  len + 15 + Z.of_nat sizeof_header < SIZE_MOD ->
  total <= cl ->
  total <= Z.of_nat (length ct) ->
  len <= pl ->
  padded <= Z.of_nat (length outbuf) ->
  exists ct',
    hypercomplex_encrypt_data transform (Some pt) (Some key) (Some ct) (Some cl) =
    Some (HC_SUCCESS, Some ct', Some total) /\
    hypercomplex_decrypt_data transform
      (Some (firstn (Z.to_nat total) ct')) (Some k2) (Some outbuf) (Some pl) =
    Some (HC_SUCCESS,
          Some (pt ++ repeat x00 (Z.to_nat (padded - len))
                  ++ skipn (Z.to_nat padded) outbuf),
          Some len).
Proof.
  intros len padded total Hcontract Hwf Hvalid Hunit Hwrap Hcl Hct Hpl Hob.
  destruct (encode_decode_run pt key ct cl k2 outbuf pl Hcontract Hwf Hvalid Hunit
              Hwrap Hcl Hct Hpl Hob)
    as (out & _ & Henc & Hcont & Hdec).
  fold len padded total in Henc, Hcont, Hdec.
  eexists. split; [exact Henc|].
  rewrite Hcont. exact Hdec.
Qed.

(** X13.  The round-trip test of the suite passes with every transform that
    meets its contract, whatever the two allocated buffers hold: Encode of
    the 45-byte text under the key of seed 12345 into the 117-byte buffer
    succeeds, and Decode into the 61-byte buffer returns the text. *)
Theorem suite_roundtrip_test_passes (key0 : quaternion_t) (c d : list byte) :
  transform_contract transform ->
  length c = 117%nat ->
  length d = 61%nat ->
  test_encryption_decryption transform key0 (Some c) (Some d) = Some 1.
Proof.
  intros Hcontract Hc Hd.
  unfold test_encryption_decryption.
  change (quaternion_generate_key (Some key0) 12345)
    with (quaternion_generate_key (Some example_key) 12345).
  replace (quaternion_generate_key (Some example_key) 12345)
    with (RetVoid, Some example_key) by (vm_compute; reflexivity).
  change ((Z.of_nat (length test_data) + Z.of_nat sizeof_header + 32) mod SIZE_MOD)
    with 117.
  change ((Z.of_nat (length test_data) + 16) mod SIZE_MOD) with 61.
  destruct (encode_decode_run test_data example_key c 117 example_key d 61)
    as (out & Hout & Henc & Hcont & Hdec); try assumption.
  - vm_compute. repeat split; discriminate.
  - vm_compute. reflexivity.
  - vm_compute. reflexivity.
  - vm_compute. reflexivity.
  - vm_compute. discriminate.
  - rewrite Hc. vm_compute. discriminate.
  - vm_compute. discriminate.
  - rewrite Hd. vm_compute. discriminate.
  - change (padded_length_of (Z.of_nat (length test_data))) with 48 in *.
    change (Z.of_nat (length test_data)) with 45 in *.
    change (Z.of_nat sizeof_header + 48) with 88 in *.
    rewrite Henc. cbn [Z.eqb negb HC_SUCCESS]. cbv beta iota.
    rewrite load_ok
      by (rewrite !length_app, !length_skipn, header_image_length, Hout, Hc;
          [vm_compute; lia | rewrite Hc; vm_compute; lia]).
    cbn [skipn]. rewrite Hcont, Hdec.
    cbn [Z.eqb negb HC_SUCCESS]. cbv beta iota.
    change (45 =? 45) with true. cbn [negb].
    unfold memcmp_is_zero.
    rewrite load_ok by (vm_compute; lia).
    rewrite load_ok by (rewrite !length_app; vm_compute; lia).
    cbn [skipn].
    change (Z.to_nat 45) with (length test_data).
    rewrite firstn_all, firstn_app, firstn_all, Nat.sub_diag, firstn_O, app_nil_r.
    vm_compute. reflexivity.
Qed.

End DecodeFacts.

(* ------------------------------------------------------------------------- *)
(** ** Concrete runs of the further properties *)

Lemma xor_transform_keeps_length (input : list byte) (key : quaternion_t) :
  length (snd (xor_transform input key)) = length input.
Proof. apply length_map. Qed.

Lemma xor_transform_only_keeps_length (k : quaternion_t) (input : list byte)
    (key : quaternion_t) :
  length (snd (xor_transform_only k input key)) = length input.
Proof.
  unfold xor_transform_only. destruct (w key =? w k); [apply length_map | reflexivity].
Qed.

(** The three-byte plaintext into a 60-byte buffer of [xff] bytes: the four
    bytes past the 56-byte container and the header padding stay [xff]. *)
Lemma encrypt_writes_only_the_container_witness :
  exists ct',
    hypercomplex_encrypt_data xor_transform (Some example_plaintext) (Some example_key)
      (Some (repeat xff 60)) (Some 60)
    = Some (HC_SUCCESS, Some ct', Some 56) /\
    length ct' = 60%nat /\
    skipn 56 ct' = repeat xff 4.
Proof.
  eexists. split; [vm_compute; reflexivity|].
  match goal with
  | |- length ?c = _ /\ _ =>
      pose proof (encrypt_writes_only_the_container xor_transform example_plaintext
                    example_key (repeat xff 60) 60 HC_SUCCESS c (Some 56)
                    xor_transform_keeps_length) as H
  end.
  cbv zeta in H.
  specialize (H ltac:(vm_compute; reflexivity) ltac:(vm_compute; reflexivity)).
  vm_compute in H. vm_compute. exact H.
Defined.

(** A transform that refuses the key: Encode returns its code, with the
    padded plaintext in the payload area. *)
Lemma encrypt_passes_transform_failure_through_witness :
  exists ct',
    hypercomplex_encrypt_data (xor_transform_only (mkQuaternion 0 0 0 0))
      (Some example_plaintext) (Some example_key) (Some (repeat x00 56)) (Some 56)
    = Some (HC_ERROR_INVALID_DATA, Some ct', Some 56) /\
    firstn (Z.to_nat (padded_length_of (Z.of_nat (length example_plaintext))))
      (skipn sizeof_header ct')
    = example_plaintext ++ repeat x00 13.
Proof.
  apply (encrypt_passes_transform_failure_through
           (xor_transform_only (mkQuaternion 0 0 0 0)) example_plaintext
           example_key (repeat x00 56) 56 HC_ERROR_INVALID_DATA
           (example_plaintext ++ repeat x00 13)).
  - vm_compute. reflexivity.
  - vm_compute. reflexivity.
  - vm_compute. discriminate.
  - vm_compute. discriminate.
  - vm_compute. reflexivity.
  - vm_compute. reflexivity.
  - vm_compute. discriminate.
Defined.

(** The header of the example container. *)
Lemma encrypt_header_reads_back_witness :
  read_header example_container =
  Some (mkHeader HEADER_MAGIC 3 example_key (compute_checksum example_plaintext 3)).
Proof.
  apply (encrypt_header_reads_back xor_transform example_plaintext example_key
           (repeat x00 56) 56 HC_SUCCESS example_container (Some 56)).
  - vm_compute. repeat split; discriminate.
  - vm_compute. reflexivity.
  - vm_compute. reflexivity.
  - vm_compute. discriminate.
  - exact example_container_is_encoded.
Defined.

(** The example container offered a capacity of two bytes. *)
Lemma decrypt_reports_required_length_witness :
  hypercomplex_decrypt_data xor_transform (Some example_container) (Some example_key)
    (Some (repeat xff 16)) (Some 2)
  = Some (HC_ERROR_INVALID_DATA, Some (repeat xff 16), Some 3).
Proof.
  apply (decrypt_reports_required_length xor_transform example_container example_key
           (repeat xff 16) 2).
  - vm_compute. discriminate.
  - vm_compute. reflexivity.
  - vm_compute. reflexivity.
Defined.

(** The example container holds a 16-byte payload for a 3-byte plaintext: an
    output object of three bytes, announced as such, is overrun. *)
Lemma decrypt_overruns_short_output_witness :
  hypercomplex_decrypt_data xor_transform (Some example_container) (Some example_key)
    (Some (repeat x00 3)) (Some 3) = None.
Proof.
  apply (decrypt_overruns_short_output xor_transform example_container example_key
           (repeat x00 3) 3).
  - vm_compute. split; [discriminate | reflexivity].
  - vm_compute. reflexivity.
  - vm_compute. discriminate.
  - vm_compute. lia.
Defined.

Lemma decrypt_success_is_verified_witness :
  (40 <= 56) /\
  h_magic (header_of example_container) = HEADER_MAGIC /\
  3 = h_length (header_of example_container) /\
  3 <= 16 /\
  (Z.to_nat 3 <= length example_recovered)%nat /\
  compute_checksum example_recovered (Z.to_nat 3)
  = h_checksum (header_of example_container).
Proof.
  apply (decrypt_success_is_verified xor_transform example_container example_key
           (repeat x00 16) 16 example_recovered 3).
  vm_compute. reflexivity.
Defined.

(** The example container under a transform that refuses the conjugate of
    the stored key. *)
Lemma decrypt_passes_transform_failure_through_witness :
  hypercomplex_decrypt_data (xor_transform_only (mkQuaternion 0 0 0 0))
    (Some example_container) (Some example_key) (Some (repeat xff 20)) (Some 20)
  = Some (HC_ERROR_INVALID_DATA,
          Some (skipn sizeof_header example_container ++ repeat xff 4),
          Some 20).
Proof.
  pose proof (decrypt_passes_transform_failure_through
                (xor_transform_only (mkQuaternion 0 0 0 0)) example_container
                example_key (repeat xff 20) 20 HC_ERROR_INVALID_DATA
                (skipn sizeof_header example_container)) as H.
  specialize (H ltac:(vm_compute; split; [discriminate | reflexivity])
                ltac:(vm_compute; reflexivity)
                ltac:(vm_compute; discriminate)
                ltac:(vm_compute; lia)
                ltac:(vm_compute; reflexivity) ltac:(vm_compute; reflexivity)
                ltac:(vm_compute; discriminate)).
  vm_compute in H. vm_compute. exact H.
Defined.

(** The example container into a 20-byte buffer of [xff] bytes: the last
    four stay [xff]. *)
Lemma decrypt_writes_only_the_payload_length_witness :
  exists pt',
    hypercomplex_decrypt_data xor_transform (Some example_container)
      (Some example_key) (Some (repeat xff 20)) (Some 20)
    = Some (HC_SUCCESS, Some pt', Some 3) /\
    length pt' = 20%nat /\ skipn 16 pt' = repeat xff 4.
Proof.
  eexists. split; [vm_compute; reflexivity|].
  match goal with
  | |- length ?c = _ /\ _ =>
      pose proof (decrypt_writes_only_the_payload_length xor_transform
                    example_container example_key (repeat xff 20) 20 HC_SUCCESS c
                    (Some 3) xor_transform_keeps_length) as H
  end.
  specialize (H ltac:(vm_compute; reflexivity) ltac:(vm_compute; reflexivity)).
  vm_compute in H. vm_compute. exact H.
Defined.

(** The 40-byte plaintext under the test suite's key, decoded with another
    key argument into a 50-byte buffer of [xff] bytes. *)
Lemma roundtrip_with_any_unit_key_witness :
  exists ct',
    hypercomplex_encrypt_data xor_transform (Some example_long_plaintext)
      (Some example_key) (Some (repeat x00 88)) (Some 88)
    = Some (HC_SUCCESS, Some ct', Some 88) /\
    hypercomplex_decrypt_data xor_transform (Some (firstn 88 ct'))
      (Some (mkQuaternion 0 0 0 0)) (Some (repeat xff 50)) (Some 40)
    = Some (HC_SUCCESS,
            Some (example_long_plaintext ++ repeat x00 8 ++ repeat xff 2),
            Some 40).
Proof.
  apply (roundtrip_with_any_unit_key xor_transform example_long_plaintext example_key
           (repeat x00 88) 88 (mkQuaternion 0 0 0 0) (repeat xff 50) 40).
  - exact xor_transform_contract.
  - vm_compute. repeat split; discriminate.
  - vm_compute. reflexivity.
  - vm_compute. reflexivity.
  - vm_compute. reflexivity.
  - vm_compute. discriminate.
  - vm_compute. discriminate.
  - vm_compute. discriminate.
  - vm_compute. discriminate.
Defined.

(** The suite's own buffers, zero-filled, under the XOR transform. *)
Lemma suite_roundtrip_test_passes_witness :
  test_encryption_decryption xor_transform (mkQuaternion 0 0 0 0)
    (Some (repeat x00 117)) (Some (repeat x00 61)) = Some 1.
Proof.
  apply (suite_roundtrip_test_passes xor_transform (mkQuaternion 0 0 0 0)
           (repeat x00 117) (repeat x00 61)).
  - exact xor_transform_contract.
  - reflexivity.
  - reflexivity.
Defined.

(* ------------------------------------------------------------------------- *)
(** ** Checksum: linearity *)

Lemma Z_of_byte_xor (a b : byte) :
  Z_of_byte (byte_xor a b) = Z.lxor (Z_of_byte a) (Z_of_byte b).
Proof.
  unfold byte_xor. rewrite Z_of_byte_of_Z.
  apply Z.mod_small, lxor_byte_range; apply Z_of_byte_range.
Qed.

Lemma lxor_swap_middle (a b c d : Z) :
  Z.lxor (Z.lxor a b) (Z.lxor c d) = Z.lxor (Z.lxor a c) (Z.lxor b d).
Proof.
  rewrite !Z.lxor_assoc. f_equal.
  rewrite <- !Z.lxor_assoc. f_equal. apply Z.lxor_comm.
Qed.

Lemma checksum_step_lxor (c d : Z) (a b : byte) :
  checksum_step (Z.lxor c d) (byte_xor a b) =
  Z.lxor (checksum_step c a) (checksum_step d b).
Proof.
  unfold checksum_step.
  rewrite Z.shiftl_lxor, lxor_mod_distr, Z_of_byte_xor.
  apply lxor_swap_middle.
Qed.

Lemma fold_checksum_step_lxor (a : list byte) :
  forall (b : list byte) (c d : Z),
    length a = length b ->
    fold_left checksum_step (xor_bytes a b) (Z.lxor c d) =
    Z.lxor (fold_left checksum_step a c) (fold_left checksum_step b d).
Proof.
  induction a as [|x a IH]; intros [|y b] c d Hlen; try discriminate Hlen.
  - reflexivity.
  - injection Hlen as Hlen. unfold xor_bytes. cbn [combine map fold_left fst snd].
    rewrite checksum_step_lxor. apply IH. exact Hlen.
Qed.

Lemma compute_checksum_fold (data : list byte) :
  compute_checksum data (length data) = fold_left checksum_step data 0.
Proof.
  unfold compute_checksum.
  rewrite checksum_loop_fold by (cbn [Nat.add]; lia).
  cbn [skipn]. rewrite firstn_all. reflexivity.
Qed.

(** X14.  The digest is linear over XOR: the checksum of the byte-wise XOR of
    two buffers of equal length is the XOR of their checksums. *)
Theorem checksum_is_xor_linear (a b : list byte) :
  length a = length b ->
  compute_checksum (xor_bytes a b) (length (xor_bytes a b)) =
  Z.lxor (compute_checksum a (length a)) (compute_checksum b (length b)).
Proof.
  intros Hlen. rewrite !compute_checksum_fold.
  rewrite <- (fold_checksum_step_lxor a b 0 0 Hlen). reflexivity.
Qed.

Lemma checksum_is_xor_linear_witness :
  compute_checksum (xor_bytes example_plaintext [x10; xff; x7e])
    (length (xor_bytes example_plaintext [x10; xff; x7e])) =
  Z.lxor (compute_checksum example_plaintext (length example_plaintext))
         (compute_checksum [x10; xff; x7e] (length [x10; xff; x7e])).
Proof.
  apply (checksum_is_xor_linear example_plaintext [x10; xff; x7e]). reflexivity.
Defined.

(* ------------------------------------------------------------------------- *)
(** ** Padding: where the size computation wraps *)

(** X15.  For a length within 15 of 2^64 the sum [length + 15] wraps on
    [size_t] and the padded length comes out as 0, below the length. *)
Theorem padded_length_wraps_to_zero (len : Z) :
  SIZE_MOD - 15 <= len < SIZE_MOD -> padded_length_of len = 0.
Proof.
  unfold padded_length_of. change SIZE_MOD with 18446744073709551616.
  intros H.
  replace ((len + 15) mod 18446744073709551616)
    with (len + 15 - 18446744073709551616).
  - rewrite Z.div_small by lia. reflexivity.
  - apply Z.mod_unique with (q := 1); lia.
Qed.

Lemma padded_length_wraps_to_zero_witness :
  padded_length_of 18446744073709551615 = 0.
Proof.
  apply (padded_length_wraps_to_zero 18446744073709551615).
  vm_compute. split; [discriminate | reflexivity].
Defined.

(* ------------------------------------------------------------------------- *)
(** ** Benchmark *)

Section BenchmarkFacts.

Variable quaternion_multiply :
  quaternion_t -> quaternion_t -> quaternion_t -> Z * quaternion_t.

Lemma benchmark_run (iterations : Z) (stats : perf_stats_t) (locals : quaternion_t)
    (start end_ : timespec) :
  0 <= tv_sec start <= tv_sec end_ ->
  tv_sec end_ <= LONG_MAX ->
  0 <= tv_nsec start < 1000000000 ->
  0 <= tv_nsec end_ < 1000000000 ->
  0 < true_elapsed_ns start end_ < SIZE_MOD ->
  hypercomplex_benchmark quaternion_multiply iterations (Some stats) locals start end_ =
  Some (HC_SUCCESS,
        Some (mkPerfStats
                ((iterations * 1000000000) mod SIZE_MOD / true_elapsed_ns start end_)
                (SFdiv prec64 emax64 (f64_of_Z (true_elapsed_ns start end_))
                   (f64_of_Z iterations))
                ((iterations * 32) mod SIZE_MOD))).
Proof.
  unfold true_elapsed_ns, LONG_MAX. change SIZE_MOD with 18446744073709551616.
  intros Hs He Hns Hne Hd.
  unfold hypercomplex_benchmark. cbn [quaternion_init].
  unfold long_sub, LONG_MIN, LONG_MAX. cbv zeta.
  replace ((- 2 ^ 63 <=? tv_sec end_ - tv_sec start)
           && (tv_sec end_ - tv_sec start <=? 2 ^ 63 - 1)) with true
    by (symmetry; apply andb_true_iff; split; apply Z.leb_le; lia).
  replace ((- 2 ^ 63 <=? tv_nsec end_ - tv_nsec start)
           && (tv_nsec end_ - tv_nsec start <=? 2 ^ 63 - 1)) with true
    by (symmetry; apply andb_true_iff; split; apply Z.leb_le; lia).
  change SIZE_MOD with 18446744073709551616.
  assert (E : (((tv_sec end_ - tv_sec start) mod 18446744073709551616 * 1000000000)
                 mod 18446744073709551616
               + (tv_nsec end_ - tv_nsec start) mod 18446744073709551616)
              mod 18446744073709551616
              = (tv_sec end_ - tv_sec start) * 1000000000
                + (tv_nsec end_ - tv_nsec start)).
  { rewrite Z.mul_mod_idemp_l by lia.
    rewrite <- Z.add_mod by lia.
    apply Z.mod_small. lia. }
  rewrite E.
  destruct (Z.eqb_spec ((tv_sec end_ - tv_sec start) * 1000000000
                        + (tv_nsec end_ - tv_nsec start)) 0) as [H0|_]; [lia|].
  do 4 f_equal.
  rewrite Z.mul_mod_idemp_l by lia. f_equal. lia.
Qed.

(** X16.  The benchmark measures the true elapsed time: for two normalised
    clock readings, the second later than the first by less than 2^64 ns, it
    returns [HC_SUCCESS] with the rate [iterations * 10^9 / elapsed] (the
    product taken modulo 2^64), the latency [elapsed / iterations] in
    [double], and [32 * iterations] bytes (modulo 2^64), also when the
    nanosecond field of the second reading is below that of the first. *)
Theorem benchmark_measures_elapsed_time
    (iterations : Z) (stats : perf_stats_t) (locals : quaternion_t)
    (start end_ : timespec) :
  0 <= tv_sec start <= tv_sec end_ ->
  tv_sec end_ <= LONG_MAX ->
  0 <= tv_nsec start < 1000000000 ->
  0 <= tv_nsec end_ < 1000000000 ->
  0 < true_elapsed_ns start end_ < SIZE_MOD ->
  hypercomplex_benchmark quaternion_multiply iterations (Some stats) locals start end_ =
  Some (HC_SUCCESS,
        Some (mkPerfStats
                ((iterations * 1000000000) mod SIZE_MOD / true_elapsed_ns start end_)
                (SFdiv prec64 emax64 (f64_of_Z (true_elapsed_ns start end_))
                   (f64_of_Z iterations))
                ((iterations * 32) mod SIZE_MOD))).
Proof.
  exact (benchmark_run iterations stats locals start end_).
Qed.

(** X17.  A clock that has not advanced between the two readings makes the
    benchmark divide by zero, whatever the number of iterations. *)
Theorem benchmark_divides_by_zero_on_stalled_clock
    (iterations : Z) (stats : perf_stats_t) (locals : quaternion_t) (t : timespec) :
  hypercomplex_benchmark quaternion_multiply iterations (Some stats) locals t t = None.
Proof.
  unfold hypercomplex_benchmark. cbn [quaternion_init].
  unfold long_sub. cbv zeta. rewrite !Z.sub_diag. reflexivity.
Qed.

(** X18.  The reported rate is too low once [iterations * 10^9] no longer
    fits 64 bits: the product wraps before the division, and the rate
    written to [stats] is strictly below [iterations * 10^9 / elapsed]. *)
Theorem benchmark_underreports_rate_on_overflow
    (iterations : Z) (stats : perf_stats_t) (locals : quaternion_t)
    (start end_ : timespec) :
  0 <= tv_sec start <= tv_sec end_ ->
  tv_sec end_ <= LONG_MAX ->
  0 <= tv_nsec start < 1000000000 ->
  0 <= tv_nsec end_ < 1000000000 ->
  0 < true_elapsed_ns start end_ < SIZE_MOD ->
  SIZE_MOD <= iterations * 1000000000 ->
  exists s,
    hypercomplex_benchmark quaternion_multiply iterations (Some stats) locals start end_
    = Some (HC_SUCCESS, Some s) /\
    operations_per_second s < iterations * 1000000000 / true_elapsed_ns start end_.
Proof.
  intros Hs He Hns Hne Hd Hov.
  rewrite (benchmark_run iterations stats locals start end_ Hs He Hns Hne Hd).
  eexists. split; [reflexivity|]. cbn [operations_per_second].
  set (e := true_elapsed_ns start end_) in *.
  set (p := iterations * 1000000000) in *.
  change SIZE_MOD with 18446744073709551616 in *.
  assert (Hm : p mod 18446744073709551616 <= p - 18446744073709551616).
  { pose proof (Z.mod_pos_bound p 18446744073709551616 ltac:(lia)) as Hb.
    pose proof (Z.div_mod p 18446744073709551616 ltac:(lia)) as Hdm.
    assert (1 <= p / 18446744073709551616)
      by (apply Z.div_le_lower_bound; lia).
    nia. }
  apply Z.le_lt_trans with ((p - 18446744073709551616) / e).
  - apply Z.div_le_mono; lia.
  - apply Z.div_lt_upper_bound; [lia|].
    pose proof (Z.mul_succ_div_gt p e ltac:(lia)) as Hg.
    pose proof (Z.mul_div_le p e ltac:(lia)) as Hl.
    nia.
Qed.

End BenchmarkFacts.

(** A million iterations in 2000 ns, across a second boundary of the clock. *)
Lemma benchmark_measures_elapsed_time_witness :
  true_elapsed_ns (mkTimespec 5 999999000) (mkTimespec 6 1000) = 2000 /\
  hypercomplex_benchmark (fun _ _ result => (HC_SUCCESS, result)) 1000000
    (Some (mkPerfStats 0 (S754_zero false) 0)) (mkQuaternion 0 0 0 0)
    (mkTimespec 5 999999000) (mkTimespec 6 1000) =
  Some (HC_SUCCESS,
        Some (mkPerfStats
                ((1000000 * 1000000000) mod SIZE_MOD
                 / true_elapsed_ns (mkTimespec 5 999999000) (mkTimespec 6 1000))
                (SFdiv prec64 emax64
                   (f64_of_Z (true_elapsed_ns (mkTimespec 5 999999000) (mkTimespec 6 1000)))
                   (f64_of_Z 1000000))
                ((1000000 * 32) mod SIZE_MOD))).
Proof.
  split; [reflexivity|].
  apply (benchmark_measures_elapsed_time (fun _ _ result => (HC_SUCCESS, result))
           1000000 (mkPerfStats 0 (S754_zero false) 0) (mkQuaternion 0 0 0 0)
           (mkTimespec 5 999999000) (mkTimespec 6 1000)).
  - cbn [tv_sec]. lia.
  - cbn [tv_sec]. unfold LONG_MAX. lia.
  - cbn [tv_nsec]. lia.
  - cbn [tv_nsec]. lia.
  - unfold true_elapsed_ns. cbn [tv_sec tv_nsec].
    change SIZE_MOD with 18446744073709551616. lia.
Defined.

(** 2 * 10^10 iterations in one second: the product exceeds 2^64. *)
Lemma benchmark_underreports_rate_on_overflow_witness :
  exists s,
    hypercomplex_benchmark (fun _ _ result => (HC_SUCCESS, result)) 20000000000
      (Some (mkPerfStats 0 (S754_zero false) 0)) (mkQuaternion 0 0 0 0)
      (mkTimespec 5 0) (mkTimespec 6 0)
    = Some (HC_SUCCESS, Some s) /\
    operations_per_second s <
    20000000000 * 1000000000 / true_elapsed_ns (mkTimespec 5 0) (mkTimespec 6 0).
Proof.
  apply (benchmark_underreports_rate_on_overflow (fun _ _ result => (HC_SUCCESS, result))
           20000000000 (mkPerfStats 0 (S754_zero false) 0) (mkQuaternion 0 0 0 0)
           (mkTimespec 5 0) (mkTimespec 6 0)).
  - cbn [tv_sec]. lia.
  - cbn [tv_sec]. unfold LONG_MAX. lia.
  - cbn [tv_nsec]. lia.
  - cbn [tv_nsec]. lia.
  - unfold true_elapsed_ns. cbn [tv_sec tv_nsec].
    change SIZE_MOD with 18446744073709551616. lia.
  - change SIZE_MOD with 18446744073709551616. lia.
Defined.

(* ========================================================================= *)
(** * Key derivation on every seed *)

(* ------------------------------------------------------------------------- *)
(** ** Shifting a rounding record

    [SpecFloat.shr] iterates [shr_1]; on a non-negative mantissa it is the
    closed form [shr_closed]. *)

(** One step of the shift on a non-negative mantissa. *)
Lemma shr_1_nonneg (m : Z) (r s : bool) :
  0 <= m ->
  shr_1 {| shr_m := m; shr_r := r; shr_s := s |} =
  {| shr_m := m / 2; shr_r := Z.odd m; shr_s := r || s |}.
Proof.
  intros Hm. rewrite <- Z.div2_div.
  destruct m as [|p|p]; [reflexivity | | lia].
  destruct p; reflexivity.
Qed.

Lemma iter_pos_nat (A : Type) (f : A -> A) (p : positive) (a : A) :
  iter_pos f p a = Nat.iter (Pos.to_nat p) f a.
Proof.
  revert a. induction p as [p IH|p IH|]; intros a; cbn [iter_pos].
  - rewrite !IH, Pos2Nat.inj_xI. cbn [Nat.iter Nat.mul].
    rewrite Nat.add_0_r, <- Nat.iter_add.
    rewrite <- Nat.iter_succ_r. reflexivity.
  - rewrite !IH, Pos2Nat.inj_xO. cbn [Nat.mul].
    rewrite Nat.add_0_r, <- Nat.iter_add. reflexivity.
  - reflexivity.
Qed.

(** The bits below position [j+1] are all zero exactly when bit [j] and the
    bits below it are. *)
Lemma sticky_step (m j : Z) :
  0 <= m -> 0 <= j ->
  Z.odd (m / 2 ^ j) || negb (m mod 2 ^ j =? 0) = negb (m mod 2 ^ (j + 1) =? 0).
Proof.
  intros Hm Hj.
  rewrite Z.pow_add_r, Z.pow_1_r by lia.
  assert (Hp : 0 < 2 ^ j) by (apply Z.pow_pos_nonneg; lia).
  rewrite Z.rem_mul_r by lia.
  rewrite Uint63.Z_oddE.
  pose proof (Z.mod_pos_bound m (2 ^ j) Hp) as Ha.
  pose proof (Z.mod_pos_bound (m / 2 ^ j) 2 ltac:(lia)) as Hb.
  generalize dependent (m mod 2 ^ j). generalize dependent ((m / 2 ^ j) mod 2).
  generalize dependent (2 ^ j). clear. intros P HP b Hb a Ha.
  assert (Hb' : b = 0 \/ b = 1) by lia.
  destruct Hb' as [-> | ->]; rewrite ?Z.mul_0_r, ?Z.mul_1_r, ?Z.add_0_r;
    destruct (Z.eqb_spec a 0); cbn; try reflexivity;
    match goal with |- context [?u =? ?v] => destruct (Z.eqb_spec u v) end;
    cbn; try reflexivity; lia.
Qed.

(** [j+1] steps of [shr_1]: quotient, round bit and sticky bit. *)
Lemma iter_shr_1 (m : Z) (r s : bool) (j : nat) :
  0 <= m ->
  Nat.iter (S j) shr_1 {| shr_m := m; shr_r := r; shr_s := s |} =
  {| shr_m := m / 2 ^ (Z.of_nat j + 1);
     shr_r := Z.odd (m / 2 ^ Z.of_nat j);
     shr_s := r || s || negb (m mod 2 ^ Z.of_nat j =? 0) |}.
Proof.
  intros Hm. induction j as [|j IH].
  - cbn [Nat.iter]. rewrite shr_1_nonneg by exact Hm.
    change (2 ^ (Z.of_nat 0 + 1)) with 2. change (2 ^ Z.of_nat 0) with 1.
    rewrite Z.div_1_r, Z.mod_1_r. cbn. rewrite orb_false_r. reflexivity.
  - change (Nat.iter (S (S j)) shr_1 ?x) with (shr_1 (Nat.iter (S j) shr_1 x)).
    rewrite IH.
    assert (Hp : 0 < 2 ^ (Z.of_nat j + 1)) by (apply Z.pow_pos_nonneg; lia).
    rewrite shr_1_nonneg by (apply Z.div_pos; lia).
    rewrite Nat2Z.inj_succ. unfold Z.succ.
    f_equal.
    + rewrite Z.div_div by lia.
      rewrite (Z.pow_add_r 2 (Z.of_nat j + 1) 1) by lia. reflexivity.
    + rewrite <- (sticky_step m (Z.of_nat j)) by lia.
      destruct r, s, (Z.odd (m / 2 ^ Z.of_nat j)), (m mod 2 ^ Z.of_nat j =? 0);
        reflexivity.
Qed.

Lemma round_bit_closed (m j : Z) :
  0 <= m -> 0 <= j ->
  Z.odd (m / 2 ^ j) = (2 ^ j <=? m mod 2 ^ (j + 1)) /\
  negb (m mod 2 ^ j =? 0) =
  negb ((m mod 2 ^ (j + 1) =? 0) || (m mod 2 ^ (j + 1) =? 2 ^ j)).
Proof.
  intros Hm Hj.
  rewrite Z.pow_add_r, Z.pow_1_r by lia.
  assert (Hp : 0 < 2 ^ j) by (apply Z.pow_pos_nonneg; lia).
  rewrite Z.rem_mul_r by lia.
  rewrite Uint63.Z_oddE.
  pose proof (Z.mod_pos_bound m (2 ^ j) Hp) as Ha.
  pose proof (Z.mod_pos_bound (m / 2 ^ j) 2 ltac:(lia)) as Hb.
  generalize dependent (m mod 2 ^ j). generalize dependent ((m / 2 ^ j) mod 2).
  generalize dependent (2 ^ j). clear. intros P HP b Hb a Ha.
  assert (Hb' : b = 0 \/ b = 1) by lia.
  destruct Hb' as [-> | ->]; rewrite ?Z.mul_0_r, ?Z.mul_1_r, ?Z.add_0_r; split;
    repeat match goal with
           | |- context [?u =? ?v] => destruct (Z.eqb_spec u v)
           | |- context [?u <=? ?v] => destruct (Z.leb_spec u v)
           end; cbn; try reflexivity; lia.
Qed.

(** [shr] on a non-negative mantissa is [shr_closed], with the exponent raised
    by the number of places. *)
Lemma shr_is_closed (m : Z) (r s : bool) (e n : Z) :
  0 <= m ->
  shr {| shr_m := m; shr_r := r; shr_s := s |} e n =
  (shr_closed m r s n, if n <=? 0 then e else e + n).
Proof.
  intros Hm. unfold shr, shr_closed.
  destruct n as [|p|p]; [reflexivity | | reflexivity].
  change (Z.pos p <=? 0) with false. cbv iota.
  rewrite iter_pos_nat.
  destruct (Pos2Nat.is_succ p) as [j Hj]. rewrite Hj.
  rewrite iter_shr_1 by exact Hm.
  assert (Hp : Z.pos p = Z.of_nat j + 1) by lia.
  rewrite Hp.
  destruct (round_bit_closed m (Z.of_nat j) Hm ltac:(lia)) as [Hr Hs].
  replace (Z.of_nat j + 1 - 1) with (Z.of_nat j) by lia.
  rewrite Hr, Hs. reflexivity.
Qed.

(* ------------------------------------------------------------------------- *)
(** ** Number of binary digits *)

Lemma digits2_pos_bounds (p : positive) :
  2 ^ (Z.pos (digits2_pos p) - 1) <= Z.pos p < 2 ^ Z.pos (digits2_pos p).
Proof.
  induction p as [p IH|p IH|]; cbn [digits2_pos].
  - rewrite Pos2Z.inj_succ. unfold Z.succ.
    replace (Z.pos (digits2_pos p) + 1 - 1) with (Z.pos (digits2_pos p) - 1 + 1) by lia.
    rewrite !Z.pow_add_r by lia. change (2 ^ 1) with 2. lia.
  - rewrite Pos2Z.inj_succ. unfold Z.succ.
    replace (Z.pos (digits2_pos p) + 1 - 1) with (Z.pos (digits2_pos p) - 1 + 1) by lia.
    rewrite !Z.pow_add_r by lia. change (2 ^ 1) with 2. lia.
  - cbn. lia.
Qed.

(** The number of binary digits is fixed by the two powers of two around the
    number. *)
Lemma Zdigits2_unique (m d : Z) :
  0 < d -> 2 ^ (d - 1) <= m < 2 ^ d -> Zdigits2 m = d.
Proof.
  intros Hd Hm.
  assert (0 < m) by (pose proof (Z.pow_pos_nonneg 2 (d - 1)); lia).
  destruct m as [|p|p]; try lia. cbn [Zdigits2].
  pose proof (digits2_pos_bounds p) as Hb.
  set (k := Z.pos (digits2_pos p)) in *.
  assert (0 < k) by (subst k; lia).
  destruct (Z.lt_trichotomy k d) as [Hlt|[Heq|Hgt]]; [|exact Heq|].
  - assert (2 ^ k <= 2 ^ (d - 1)) by (apply Z.pow_le_mono_r; lia). lia.
  - assert (2 ^ d <= 2 ^ (k - 1)) by (apply Z.pow_le_mono_r; lia). lia.
Qed.

(* ------------------------------------------------------------------------- *)
(** ** Machine integers without wrap-around

    The operations on [int] agree with those on [Z] while the results stay
    below [2^63]. *)

Lemma wB_value : Uint63.wB = 9223372036854775808.
Proof. reflexivity. Qed.

Lemma to_Z_add_small (x y : int) :
  Uint63.to_Z x + Uint63.to_Z y < 9223372036854775808 ->
  Uint63.to_Z (x + y) = Uint63.to_Z x + Uint63.to_Z y.
Proof.
  intros H. rewrite Uint63.add_spec. apply Z.mod_small.
  pose proof (Uint63.to_Z_bounded x). pose proof (Uint63.to_Z_bounded y).
  rewrite wB_value. lia.
Qed.

Lemma to_Z_sub_small (x y : int) :
  Uint63.to_Z y <= Uint63.to_Z x ->
  Uint63.to_Z (x - y) = Uint63.to_Z x - Uint63.to_Z y.
Proof.
  intros H. rewrite Uint63.sub_spec. apply Z.mod_small.
  pose proof (Uint63.to_Z_bounded x). pose proof (Uint63.to_Z_bounded y).
  rewrite wB_value in *. lia.
Qed.

Lemma to_Z_mul_small (x y : int) :
  Uint63.to_Z x * Uint63.to_Z y < 9223372036854775808 ->
  Uint63.to_Z (x * y) = Uint63.to_Z x * Uint63.to_Z y.
Proof.
  intros H. rewrite Uint63.mul_spec. apply Z.mod_small.
  pose proof (Uint63.to_Z_bounded x). pose proof (Uint63.to_Z_bounded y).
  rewrite wB_value. nia.
Qed.

Lemma to_Z_lsl_small (x p : int) :
  Uint63.to_Z x * 2 ^ Uint63.to_Z p < 9223372036854775808 ->
  Uint63.to_Z (x << p) = Uint63.to_Z x * 2 ^ Uint63.to_Z p.
Proof.
  intros H. rewrite Uint63.lsl_spec. apply Z.mod_small.
  pose proof (Uint63.to_Z_bounded x). pose proof (Uint63.to_Z_bounded p).
  assert (0 < 2 ^ Uint63.to_Z p) by (apply Z.pow_pos_nonneg; lia).
  rewrite wB_value. nia.
Qed.

Lemma ltb_to_Z (x y : int) : (x <? y)%uint63 = (Uint63.to_Z x <? Uint63.to_Z y).
Proof.
  destruct (Uint63.ltbP x y), (Z.ltb_spec (Uint63.to_Z x) (Uint63.to_Z y));
    (reflexivity || lia).
Qed.

Lemma leb_to_Z (x y : int) : (x <=? y)%uint63 = (Uint63.to_Z x <=? Uint63.to_Z y).
Proof.
  destruct (Uint63.lebP x y), (Z.leb_spec (Uint63.to_Z x) (Uint63.to_Z y));
    (reflexivity || lia).
Qed.

Lemma eqb_to_Z (x y : int) : (x =? y)%uint63 = (Uint63.to_Z x =? Uint63.to_Z y).
Proof.
  destruct (Uint63.eqbP x y), (Z.eqb_spec (Uint63.to_Z x) (Uint63.to_Z y));
    (reflexivity || lia).
Qed.

Lemma is_even_to_Z (x : int) : Uint63.is_even x = Z.even (Uint63.to_Z x).
Proof.
  rewrite Uint63.Z_evenE. pose proof (Uint63.is_even_spec x) as H.
  destruct (Uint63.is_even x); rewrite H; reflexivity.
Qed.

(** The number of binary digits of a machine integer, from its leading
    zeros. *)
Lemma head0_digits (m : int) :
  0 < Uint63.to_Z m ->
  Uint63.to_Z (Uint63.head0 m) <= 62 /\
  Zdigits2 (Uint63.to_Z m) = 63 - Uint63.to_Z (Uint63.head0 m).
Proof.
  intros Hm. pose proof (Uint63.head0_spec m Hm) as H.
  pose proof (Uint63.to_Z_bounded (Uint63.head0 m)) as Hh.
  set (h := Uint63.to_Z (Uint63.head0 m)) in *.
  rewrite wB_value in *. change (9223372036854775808 / 2) with (2 ^ 62) in H.
  change 9223372036854775808 with (2 ^ 63) in H.
  assert (Hp : 0 < 2 ^ h) by (apply Z.pow_pos_nonneg; lia).
  assert (Hh62 : h <= 62).
  { destruct (Z.le_gt_cases h 62) as [Hle|Hgt]; [exact Hle|].
    assert (2 ^ 63 <= 2 ^ h) by (apply Z.pow_le_mono_r; lia). nia. }
  split; [exact Hh62|].
  apply Zdigits2_unique; [lia|].
  replace (63 - h - 1) with (62 - h) by lia.
  assert (E62 : 2 ^ 62 = 2 ^ h * 2 ^ (62 - h))
    by (rewrite <- Z.pow_add_r by lia; f_equal; lia).
  assert (E63 : 2 ^ 63 = 2 ^ h * 2 ^ (63 - h))
    by (rewrite <- Z.pow_add_r by lia; f_equal; lia).
  rewrite E62, E63 in H. nia.
Qed.

(* ------------------------------------------------------------------------- *)
(** ** Rounding *)

Lemma Zdigits2_bounds (m : Z) :
  0 < m -> 2 ^ (Zdigits2 m - 1) <= m < 2 ^ Zdigits2 m.
Proof.
  intros Hm. destruct m as [|p|p]; try lia. apply digits2_pos_bounds.
Qed.

Lemma shr_record_of_loc_of (m : Z) (r s : bool) :
  shr_record_of_loc m (loc_of_shr_record {| shr_m := m; shr_r := r; shr_s := s |}) =
  {| shr_m := m; shr_r := r; shr_s := s |}.
Proof. destruct r, s; reflexivity. Qed.

(** [round_up] is round to nearest, ties to even. *)
Lemma round_up_spec (q : int) (r st : bool) :
  Uint63.to_Z q < 16777216 ->
  Uint63.to_Z (round_up q r st) =
  round_nearest_even (Uint63.to_Z q)
    (loc_of_shr_record {| shr_m := Uint63.to_Z q; shr_r := r; shr_s := st |}) /\
  Uint63.to_Z q <= Uint63.to_Z (round_up q r st) <= Uint63.to_Z q + 1.
Proof.
  intros Hq. unfold round_up.
  assert (H1 : Uint63.to_Z (q + 1) = Uint63.to_Z q + 1).
  { rewrite to_Z_add_small; change (Uint63.to_Z 1) with 1; lia. }
  destruct r, st; cbn [loc_of_shr_record round_nearest_even];
    rewrite ?is_even_to_Z; try destruct (Z.even (Uint63.to_Z q));
    rewrite ?H1; split; (reflexivity || lia).
Qed.

(** The exponent of the closed form: a shift by zero places leaves it. *)
Lemma shr_exponent (e n : Z) : 0 <= n -> (if n <=? 0 then e else e + n) = e + n.
Proof. intros H. destruct (Z.leb_spec n 0); lia. Qed.

(** Rounding.  Whenever [fast_round] answers a number, it is the one
    [binary_round_aux] makes of the same mantissa, exponent, round and sticky
    bits. *)
Lemma fast_round_ok (s : bool) (m e : int) (r st : bool) :
  0 < Uint63.to_Z m < 2 ^ 62 ->
  Uint63.to_Z e < 2 ^ 32 ->
  fast_round s m e r st <> FOther ->
  fast_wf (fast_round s m e r st) /\
  SF_of_fast (fast_round s m e r st) =
  binary_round_aux 24 128 s (Uint63.to_Z m) (Uint63.to_Z e - 1024)
    (loc_of_shr_record {| shr_m := Uint63.to_Z m; shr_r := r; shr_s := st |}).
Proof.
  intros Hm He Hok.
  destruct (head0_digits m ltac:(lia)) as [Hh HD].
  pose proof (Uint63.to_Z_bounded (Uint63.head0 m)) as Hh0.
  pose proof (Uint63.to_Z_bounded e) as He0.
  pose proof (Zdigits2_bounds (Uint63.to_Z m) ltac:(lia)) as HB.
  rewrite HD in HB.
  set (h := Uint63.to_Z (Uint63.head0 m)) in *.
  unfold fast_round in *.
  set (d := (63 - Uint63.head0 m)%uint63) in *.
  assert (Hd : Uint63.to_Z d = 63 - h).
  { subst d. rewrite to_Z_sub_small; change (Uint63.to_Z 63) with 63; fold h; lia. }
  rewrite ltb_to_Z, Hd in *. change (Uint63.to_Z 24) with 24 in *.
  destruct (Z.ltb_spec (63 - h) 24) as [Hlt|Hge]; [congruence|].
  set (n := (d - 24)%uint63) in *.
  assert (Hn : Uint63.to_Z n = 39 - h).
  { subst n. rewrite to_Z_sub_small; change (Uint63.to_Z 24) with 24; lia. }
  set (N := 39 - h) in *.
  assert (HN : 0 <= N <= 38).
  { subst N. split; [lia|].
    assert (h = 0 -> False); [|lia]. intros ->.
    change (2 ^ (63 - 0 - 1)) with (2 ^ 62) in HB. lia. }
  set (e1 := (e + n)%uint63) in *.
  assert (He1 : Uint63.to_Z e1 = Uint63.to_Z e + N).
  { subst e1. rewrite to_Z_add_small; rewrite ?Hn; lia. }
  rewrite !ltb_to_Z, He1 in *.
  change (Uint63.to_Z 875) with 875 in *. change (Uint63.to_Z 1127) with 1127 in *.
  destruct (Z.ltb_spec (Uint63.to_Z e + N) 875) as [?|Hlo]; [cbn in Hok; congruence|].
  destruct (Z.ltb_spec 1127 (Uint63.to_Z e + N)) as [?|Hhi]; [cbn in Hok; congruence|].
  cbn [orb] in *.
  set (E := Uint63.to_Z e - 1024) in *.
  (* the first shift *)
  assert (HP : 0 < 2 ^ N) by (apply Z.pow_pos_nonneg; lia).
  set (q := (m >> n)%uint63) in *.
  assert (Hq : Uint63.to_Z q = Uint63.to_Z m / 2 ^ N).
  { subst q. rewrite Uint63.lsr_spec, Hn. reflexivity. }
  assert (Hqb : 8388608 <= Uint63.to_Z q < 16777216).
  { rewrite Hq.
    assert (E1 : 2 ^ (63 - h - 1) = 8388608 * 2 ^ N).
    { change 8388608 with (2 ^ 23). rewrite <- Z.pow_add_r by lia.
      f_equal. subst N. lia. }
    assert (E2 : 2 ^ (63 - h) = 16777216 * 2 ^ N).
    { change 16777216 with (2 ^ 24). rewrite <- Z.pow_add_r by lia.
      f_equal. subst N. lia. }
    rewrite E1, E2 in HB. split.
    - apply Z.div_le_lower_bound; lia.
    - apply Z.div_lt_upper_bound; lia. }
  set (rem := (m - (q << n))%uint63) in *.
  set (half := (1 << (n - 1))%uint63) in *.
  set (r1 := if (n =? 0)%uint63 then r else (half <=? rem)%uint63) in *.
  set (s1 := if (n =? 0)%uint63 then st
             else r || st || negb ((rem =? 0)%uint63 || (rem =? half)%uint63)) in *.
  assert (Hshr : shr_closed (Uint63.to_Z m) r st N =
                 {| shr_m := Uint63.to_Z q; shr_r := r1; shr_s := s1 |}).
  { unfold shr_closed. subst r1 s1.
    rewrite eqb_to_Z, Hn. change (Uint63.to_Z 0) with 0.
    destruct (Z.eqb_spec N 0) as [HN0|HN0].
    - rewrite HN0. cbn [Z.leb Z.compare]. rewrite Hq, HN0.
      change (2 ^ 0) with 1. rewrite Z.div_1_r. reflexivity.
    - destruct (Z.leb_spec N 0); [lia|].
      assert (Hql : Uint63.to_Z (q << n) = Uint63.to_Z q * 2 ^ N).
      { rewrite to_Z_lsl_small; rewrite Hn; [reflexivity|].
        rewrite Hq. pose proof (Z.mul_div_le (Uint63.to_Z m) (2 ^ N) HP).
        change (2 ^ 62) with 4611686018427387904 in Hm. lia. }
      assert (Hrem : Uint63.to_Z rem = Uint63.to_Z m mod 2 ^ N).
      { subst rem. rewrite to_Z_sub_small; rewrite Hql, Hq.
        - rewrite Z.mod_eq by lia. lia.
        - pose proof (Z.mul_div_le (Uint63.to_Z m) (2 ^ N) HP). lia. }
      assert (Hhalf : Uint63.to_Z half = 2 ^ (N - 1)).
      { subst half.
        assert (Hn1 : Uint63.to_Z (n - 1) = N - 1).
        { rewrite to_Z_sub_small; change (Uint63.to_Z 1) with 1; lia. }
        rewrite to_Z_lsl_small; rewrite Hn1; change (Uint63.to_Z 1) with 1.
        - lia.
        - assert (2 ^ (N - 1) <= 2 ^ 37) by (apply Z.pow_le_mono_r; lia).
          change (2 ^ 37) with 137438953472 in *. lia. }
      rewrite leb_to_Z, !eqb_to_Z, Hrem, Hhalf, Hq.
      change (Uint63.to_Z 0) with 0. reflexivity. }
  destruct (round_up_spec q r1 s1 ltac:(lia)) as [Hru Hrub].
  set (q' := round_up q r1 s1) in *.
  (* the specification side *)
  unfold binary_round_aux, shr_fexp.
  rewrite shr_record_of_loc_of, HD.
  assert (Hfexp1 : fexp 24 128 (63 - h + E) - E = N).
  { unfold fexp, emin. subst E N. lia. }
  rewrite Hfexp1, shr_is_closed, shr_exponent, Hshr by lia.
  cbn [shr_m]. rewrite <- Hru.
  rewrite eqb_to_Z in *. change (Uint63.to_Z 16777216) with 16777216 in *.
  destruct (Z.eqb_spec (Uint63.to_Z q') 16777216) as [Hcarry|Hnc].
  - rewrite Hcarry.
    change (Zdigits2 16777216) with 25.
    assert (Hfexp2 : fexp 24 128 (25 + (E + N)) - (E + N) = 1).
    { unfold fexp, emin. subst E. lia. }
    rewrite Hfexp2. cbn [shr_record_of_loc shr iter_pos shr_1 shr_m fst snd].
    assert (He2 : Uint63.to_Z (e1 + 1) = Uint63.to_Z e + N + 1).
    { rewrite to_Z_add_small; rewrite He1; change (Uint63.to_Z 1) with 1; lia. }
    destruct (Z.leb_spec (E + N + 1) (128 - 24)) as [_|Hbad]; [|subst E; lia].
    split.
    + cbn [fast_wf]. rewrite He2. change (Uint63.to_Z 8388608) with 8388608. lia.
    + cbn [SF_of_fast]. rewrite He2. change (Uint63.to_Z 8388608) with 8388608.
      cbn [Z.to_pos]. f_equal. subst E. lia.
  - assert (Hd2 : Zdigits2 (Uint63.to_Z q') = 24)
      by (apply Zdigits2_unique; [lia|]; change (2 ^ (24 - 1)) with 8388608;
          change (2 ^ 24) with 16777216; lia).
    rewrite Hd2.
    assert (Hfexp2 : fexp 24 128 (24 + (E + N)) - (E + N) = 0).
    { unfold fexp, emin. subst E. lia. }
    rewrite Hfexp2. cbn [shr_record_of_loc shr shr_m fst snd].
    destruct (Uint63.to_Z q') as [|p|p] eqn:Eq'; try lia.
    destruct (Z.leb_spec (E + N) (128 - 24)) as [_|Hbad]; [|subst E; lia].
    split.
    + cbn [fast_wf]. rewrite Eq', He1. lia.
    + cbn [SF_of_fast]. rewrite Eq', He1. cbn [Z.to_pos]. f_equal. subst E. lia.
Qed.

(* ------------------------------------------------------------------------- *)
(** ** Multiplication *)

Lemma fast_wf_pos (s : bool) (m e : int) :
  fast_wf (FNorm s m e) -> Z.pos (Z.to_pos (Uint63.to_Z m)) = Uint63.to_Z m.
Proof. intros [H _]. apply Z2Pos.id. lia. Qed.

(** Multiplication agrees with [SFmul]. *)
Lemma fast_mul_ok (a b : fast_float) :
  fast_wf a -> fast_wf b -> fast_mul a b <> FOther ->
  fast_wf (fast_mul a b) /\
  SF_of_fast (fast_mul a b) = SFmul 24 128 (SF_of_fast a) (SF_of_fast b).
Proof.
  intros Ha Hb Hok.
  destruct a as [sa|sa ma ea|], b as [sb|sb mb eb|];
    try contradiction; try (split; [exact I | reflexivity]).
  cbn [fast_mul] in *.
  pose proof (fast_wf_pos _ _ _ Ha) as Pa. pose proof (fast_wf_pos _ _ _ Hb) as Pb.
  destruct Ha as [Hma Hea], Hb as [Hmb Heb].
  assert (Hm : Uint63.to_Z (ma * mb) = Uint63.to_Z ma * Uint63.to_Z mb)
    by (apply to_Z_mul_small; nia).
  assert (He : Uint63.to_Z (ea + eb - 1024) = Uint63.to_Z ea + Uint63.to_Z eb - 1024).
  { assert (H1 : Uint63.to_Z (ea + eb) = Uint63.to_Z ea + Uint63.to_Z eb)
      by (apply to_Z_add_small; lia).
    rewrite to_Z_sub_small; rewrite H1; change (Uint63.to_Z 1024) with 1024; lia. }
  destruct (fast_round_ok (xorb sa sb) (ma * mb)%uint63 (ea + eb - 1024)%uint63 false false)
    as [Hwf Hsf]; [rewrite Hm; change (2 ^ 62) with 4611686018427387904; nia
                  | rewrite He; change (2 ^ 32) with 4294967296; lia
                  | exact Hok |].
  split; [exact Hwf|]. rewrite Hsf. cbn [SF_of_fast SFmul loc_of_shr_record].
  rewrite Hm, He, Pos2Z.inj_mul, Pa, Pb. f_equal. lia.
Qed.

(* ------------------------------------------------------------------------- *)
(** ** Division *)

(** The location of a remainder, by comparison of its double with the
    divisor. *)
Lemma new_location_compare (nb k : Z) :
  0 < nb -> 0 <= k ->
  new_location nb k = if k =? 0 then loc_Exact else loc_Inexact (2 * k ?= nb).
Proof.
  intros Hnb Hk. unfold new_location, new_location_even, new_location_odd.
  destruct (Z.even nb) eqn:Ev; [reflexivity|].
  destruct (Z.eqb_spec k 0); [reflexivity|]. f_equal.
  assert (Hodd : Z.odd nb = true) by (rewrite <- Z.negb_even, Ev; reflexivity).
  apply Z.odd_spec in Hodd. destruct Hodd as [t Ht].
  destruct (Z.compare_spec (2 * k + 1) nb), (Z.compare_spec (2 * k) nb);
    try reflexivity; lia.
Qed.

(** Division agrees with [SFdiv]. *)
Lemma fast_div_ok (a b : fast_float) :
  fast_wf a -> fast_wf b -> fast_div a b <> FOther ->
  fast_wf (fast_div a b) /\
  SF_of_fast (fast_div a b) = SFdiv 24 128 (SF_of_fast a) (SF_of_fast b).
Proof.
  intros Ha Hb Hok.
  destruct a as [sa|sa ma ea|], b as [sb|sb mb eb|];
    try contradiction; try (cbn in Hok; congruence);
    try (split; [exact I | reflexivity]).
  cbn [fast_div] in *.
  pose proof (fast_wf_pos _ _ _ Ha) as Pa. pose proof (fast_wf_pos _ _ _ Hb) as Pb.
  destruct Ha as [Hma Hea], Hb as [Hmb Heb].
  assert (He125 : Uint63.to_Z (ea + 125) = Uint63.to_Z ea + 125)
    by (rewrite to_Z_add_small; change (Uint63.to_Z 125) with 125; lia).
  rewrite ltb_to_Z, He125 in *.
  destruct (Z.ltb_spec (Uint63.to_Z ea + 125) (Uint63.to_Z eb)) as [?|Hguard];
    [congruence|].
  set (n := (ma << 24)%uint63) in *.
  assert (Hn : Uint63.to_Z n = Uint63.to_Z ma * 16777216).
  { subst n. rewrite to_Z_lsl_small; change (Uint63.to_Z 24) with 24;
      change (2 ^ 24) with 16777216; lia. }
  set (q := (n / mb)%uint63) in *. set (k := (n mod mb)%uint63) in *.
  assert (Hq : Uint63.to_Z q = Uint63.to_Z n / Uint63.to_Z mb)
    by (subst q; apply Uint63.div_spec).
  assert (Hk : Uint63.to_Z k = Uint63.to_Z n mod Uint63.to_Z mb)
    by (subst k; apply Uint63.mod_spec).
  pose proof (Z.mod_pos_bound (Uint63.to_Z n) (Uint63.to_Z mb) ltac:(lia)) as Hkb.
  rewrite <- Hk in Hkb.
  set (k2 := (k + k)%uint63) in *.
  assert (Hk2 : Uint63.to_Z k2 = 2 * Uint63.to_Z k)
    by (subst k2; rewrite to_Z_add_small; lia).
  assert (Hqb : 0 < Uint63.to_Z q < 2 ^ 62).
  { rewrite Hq, Hn. change (2 ^ 62) with 4611686018427387904. split.
    - apply Z.div_str_pos. lia.
    - apply Z.div_lt_upper_bound; nia. }
  assert (He : Uint63.to_Z (ea + 1000 - eb) =
               Uint63.to_Z ea + 1000 - Uint63.to_Z eb).
  { assert (H1 : Uint63.to_Z (ea + 1000) = Uint63.to_Z ea + 1000)
      by (rewrite to_Z_add_small; change (Uint63.to_Z 1000) with 1000; lia).
    rewrite to_Z_sub_small; rewrite H1; lia. }
  match type of Hok with
  | fast_round ?s ?m ?e ?r ?st <> _ =>
      destruct (fast_round_ok s m e r st) as [Hwf Hsf];
        [exact Hqb | rewrite He; change (2 ^ 32) with 4294967296; lia | exact Hok |]
  end.
  split; [exact Hwf|]. rewrite Hsf. clear Hsf Hwf Hok.
  cbn [SF_of_fast SFdiv]. unfold SFdiv_core_binary.
  rewrite Pa, Pb.
  rewrite (Zdigits2_unique (Uint63.to_Z ma) 24), (Zdigits2_unique (Uint63.to_Z mb) 24)
    by (change (2 ^ (24 - 1)) with 8388608; change (2 ^ 24) with 16777216; lia).
  set (Ea := Uint63.to_Z ea - 1024). set (Eb := Uint63.to_Z eb - 1024).
  assert (He' : Z.min (fexp 24 128 (24 + Ea - (24 + Eb))) (Ea - Eb) = Ea - Eb - 24).
  { unfold fexp, emin. subst Ea Eb. lia. }
  rewrite He'.
  replace (Ea - Eb - (Ea - Eb - 24)) with 24 by lia.
  rewrite Z.shiftl_mul_pow2 by lia. change (2 ^ 24) with 16777216.
  rewrite <- Hn.
  pose proof (Z.div_eucl_eq (Uint63.to_Z n) (Uint63.to_Z mb) ltac:(lia)) as Hde.
  assert (Hqr : Z.div_eucl (Uint63.to_Z n) (Uint63.to_Z mb) =
                (Uint63.to_Z q, Uint63.to_Z k)).
  { rewrite Hq, Hk. unfold Z.div, Z.modulo.
    destruct (Z.div_eucl (Uint63.to_Z n) (Uint63.to_Z mb)). reflexivity. }
  rewrite Hqr.
  rewrite new_location_compare by lia.
  rewrite He. replace (Uint63.to_Z ea + 1000 - Uint63.to_Z eb - 1024)
    with (Ea - Eb - 24) by (subst Ea Eb; lia).
  f_equal.
  rewrite leb_to_Z, !eqb_to_Z, Hk2. change (Uint63.to_Z 0) with 0.
  destruct (Z.eqb_spec (Uint63.to_Z k) 0) as [Hk0|Hk0].
  - rewrite Hk0. destruct (Z.leb_spec (Uint63.to_Z mb) (2 * 0)); [lia|].
    reflexivity.
  - cbn [orb].
    destruct (Z.compare_spec (2 * Uint63.to_Z k) (Uint63.to_Z mb)),
      (Z.leb_spec (Uint63.to_Z mb) (2 * Uint63.to_Z k)),
      (Z.eqb_spec (2 * Uint63.to_Z k) (Uint63.to_Z mb));
      try lia; reflexivity.
Qed.

(* ------------------------------------------------------------------------- *)
(** ** Square root *)

Lemma sqrtrem_unique (n q : Z) :
  0 <= q -> q * q <= n < (q + 1) * (q + 1) -> Z.sqrtrem n = (q, n - q * q).
Proof.
  intros Hq Hn.
  pose proof (Z.sqrtrem_spec n ltac:(nia)) as H.
  destruct (Z.sqrtrem n) as [s r]. destruct H as [Hs Hr].
  assert (s = q) by nia. subst s. f_equal. lia.
Qed.

(** Square root agrees with [SFsqrt]. *)
Lemma fast_sqrt_ok (a : fast_float) :
  fast_wf a -> fast_sqrt a <> FOther ->
  fast_wf (fast_sqrt a) /\ SF_of_fast (fast_sqrt a) = SFsqrt 24 128 (SF_of_fast a).
Proof.
  intros Ha Hok.
  destruct a as [sa|sa ma ea|]; try contradiction;
    try (split; [exact I | reflexivity]).
  destruct sa; [cbn in Hok; congruence|].
  cbn [fast_sqrt] in *.
  pose proof (fast_wf_pos _ _ _ Ha) as Pa. destruct Ha as [Hma Hea].
  set (E := Uint63.to_Z ea - 1024).
  set (s := if Uint63.is_even ea then 24%uint63 else 23%uint63) in *.
  assert (Hs : Uint63.to_Z s = E - 2 * ((25 + E) / 2 - 24) /\
               (Uint63.to_Z s = 23 \/ Uint63.to_Z s = 24)).
  { subst s. rewrite is_even_to_Z.
    destruct (Z.even (Uint63.to_Z ea)) eqn:Ev.
    - apply Z.even_spec in Ev. destruct Ev as [t Ht].
      change (Uint63.to_Z 24) with 24. split; [|right; reflexivity].
      subst E. rewrite Ht.
      replace (25 + (2 * t - 1024)) with (1 + (t - 500) * 2) by lia.
      rewrite Z.div_add by lia. change (1 / 2) with 0. lia.
    - assert (Hodd : Z.odd (Uint63.to_Z ea) = true)
        by (rewrite <- Z.negb_even, Ev; reflexivity).
      apply Z.odd_spec in Hodd. destruct Hodd as [t Ht].
      change (Uint63.to_Z 23) with 23. split; [|left; reflexivity].
      subst E. rewrite Ht.
      replace (25 + (2 * t + 1 - 1024)) with ((t - 499) * 2) by lia.
      rewrite Z.div_mul by lia. lia. }
  destruct Hs as [Hs Hs'].
  set (n := (ma << s)%uint63) in *.
  assert (Hn : Uint63.to_Z n = Uint63.to_Z ma * 2 ^ Uint63.to_Z s).
  { subst n. apply to_Z_lsl_small.
    destruct Hs' as [-> | ->]; [change (2 ^ 23) with 8388608
                               | change (2 ^ 24) with 16777216]; lia. }
  assert (Hnb : 2 ^ 46 <= Uint63.to_Z n < 2 ^ 48).
  { rewrite Hn. change (2 ^ 46) with 70368744177664.
    change (2 ^ 48) with 281474976710656.
    destruct Hs' as [-> | ->]; [change (2 ^ 23) with 8388608
                               | change (2 ^ 24) with 16777216]; lia. }
  change (2 ^ 46) with 70368744177664 in Hnb.
  change (2 ^ 48) with 281474976710656 in Hnb.
  set (q := Uint63.sqrt n) in *.
  pose proof (Uint63.sqrt_spec n) as Hsq. fold q in Hsq.
  rewrite !Z.pow_2_r in Hsq.
  pose proof (Uint63.to_Z_bounded q) as Hq0.
  assert (Hqb : 8388608 <= Uint63.to_Z q < 16777216) by nia.
  assert (Hqq : Uint63.to_Z (q * q) = Uint63.to_Z q * Uint63.to_Z q)
    by (apply to_Z_mul_small; nia).
  set (k := (n - q * q)%uint63) in *.
  assert (Hk : Uint63.to_Z k = Uint63.to_Z n - Uint63.to_Z q * Uint63.to_Z q)
    by (subst k; rewrite to_Z_sub_small; rewrite Hqq; lia).
  assert (He : Uint63.to_Z ((ea + 1001) / 2) = (25 + E) / 2 - 24 + 1024).
  { rewrite Uint63.div_spec. change (Uint63.to_Z 2) with 2.
    rewrite to_Z_add_small; change (Uint63.to_Z 1001) with 1001; [|lia].
    subst E.
    replace (Uint63.to_Z ea + 1001) with (25 + (Uint63.to_Z ea - 1024) + 1000 * 2)
      by lia.
    rewrite Z.div_add by lia. lia. }
  match type of Hok with
  | fast_round ?s ?m ?e ?r ?st <> _ =>
      destruct (fast_round_ok s m e r st) as [Hwf Hsf];
        [change (2 ^ 62) with 4611686018427387904; lia
        | rewrite He; change (2 ^ 32) with 4294967296; subst E;
          assert ((25 + (Uint63.to_Z ea - 1024)) / 2 <= 200)
            by (apply Z.div_le_upper_bound; lia); lia
        | exact Hok |]
  end.
  split; [exact Hwf|]. rewrite Hsf. clear Hsf Hwf Hok.
  cbn [SF_of_fast SFsqrt]. unfold SFsqrt_core_binary.
  rewrite Pa.
  rewrite (Zdigits2_unique (Uint63.to_Z ma) 24)
    by (change (2 ^ (24 - 1)) with 8388608; change (2 ^ 24) with 16777216; lia).
  fold E. rewrite !Z.div2_div.
  assert (He' : Z.min (fexp 24 128 ((24 + E + 1) / 2)) (E / 2) = (25 + E) / 2 - 24).
  { unfold fexp, emin. replace (24 + E + 1) with (25 + E) by lia.
    assert (H1 : (25 + E) / 2 - 24 <= E / 2).
    { replace (25 + E) with (E - 23 + 24 * 2) by lia.
      rewrite Z.div_add by lia.
      assert ((E - 23) / 2 <= E / 2) by (apply Z.div_le_mono; lia). lia. }
    assert (H2 : -125 <= (25 + E) / 2)
      by (apply Z.div_le_lower_bound; subst E; lia).
    lia. }
  rewrite He'. rewrite <- Hs.
  assert (Hshift : match Uint63.to_Z s with
                   | 0 => Uint63.to_Z ma
                   | Z.pos _ => Z.shiftl (Uint63.to_Z ma) (Uint63.to_Z s)
                   | Z.neg _ => 0
                   end = Uint63.to_Z n).
  { rewrite Hn. destruct Hs' as [-> | ->]; rewrite Z.shiftl_mul_pow2 by lia;
      reflexivity. }
  rewrite Hshift.
  rewrite (sqrtrem_unique (Uint63.to_Z n) (Uint63.to_Z q)) by lia.
  rewrite <- Hk, He.
  replace ((25 + E) / 2 - 24 + 1024 - 1024) with ((25 + E) / 2 - 24) by lia.
  f_equal.
  rewrite ltb_to_Z, eqb_to_Z. change (Uint63.to_Z 0) with 0.
  destruct (Z.eqb_spec (Uint63.to_Z k) 0) as [Hk0|Hk0].
  - rewrite Hk0. destruct (Z.ltb_spec (Uint63.to_Z q) 0); [lia|]. reflexivity.
  - destruct (Z.leb_spec (Uint63.to_Z k) (Uint63.to_Z q)),
      (Z.ltb_spec (Uint63.to_Z q) (Uint63.to_Z k)); try lia; reflexivity.
Qed.

(* ------------------------------------------------------------------------- *)
(** ** Conversion from integers *)

Lemma pos_iter_xO (m d : positive) :
  Z.pos (Pos.iter xO m d) = Z.pos m * 2 ^ Z.pos d.
Proof.
  rewrite <- Z.shiftl_mul_pow2 by lia. cbn [Z.shiftl].
  apply (Pos.iter_swap_gen _ _ Z.pos xO (Z.mul 2)). reflexivity.
Qed.

Lemma shl_align_fst (m : positive) (e e' : Z) :
  e' <= e -> Z.pos (fst (shl_align m e e')) = Z.pos m * 2 ^ (e - e').
Proof.
  intros H. unfold shl_align.
  destruct (e' - e) as [|p|p] eqn:E; try lia.
  - replace (e - e') with 0 by lia. cbn [fst]. lia.
  - cbn [fst]. rewrite pos_iter_xO. f_equal. f_equal. lia.
Qed.

Lemma shl_align_snd (m : positive) (e e' : Z) :
  e' <= e -> snd (shl_align m e e') = e'.
Proof.
  intros H. unfold shl_align.
  destruct (e' - e) as [|p|p] eqn:E; cbn [snd]; lia.
Qed.

Lemma shl_align_none (m : positive) (e e' : Z) :
  e <= e' -> shl_align m e e' = (m, e).
Proof.
  intros H. unfold shl_align.
  destruct (e' - e) as [|p|p] eqn:E; try reflexivity. lia.
Qed.

(** Normalisation of an exact value agrees with [binary_round]. *)
Lemma fast_normalize_ok (s : bool) (m e : int) :
  0 < Uint63.to_Z m < 2 ^ 62 ->
  Uint63.to_Z e < 2 ^ 31 ->
  fast_normalize s m e <> FOther ->
  fast_wf (fast_normalize s m e) /\
  SF_of_fast (fast_normalize s m e) =
  binary_round 24 128 s (Z.to_pos (Uint63.to_Z m)) (Uint63.to_Z e - 1024).
Proof.
  intros Hm He Hok.
  change (2 ^ 62) with 4611686018427387904 in Hm.
  change (2 ^ 31) with 2147483648 in He.
  destruct (head0_digits m ltac:(lia)) as [Hh HD].
  pose proof (Uint63.to_Z_bounded (Uint63.head0 m)) as Hh0.
  pose proof (Uint63.to_Z_bounded e) as He0.
  pose proof (Zdigits2_bounds (Uint63.to_Z m) ltac:(lia)) as HB.
  rewrite HD in HB.
  set (h := Uint63.to_Z (Uint63.head0 m)) in *.
  unfold fast_normalize in *.
  set (d := (63 - Uint63.head0 m)%uint63) in *.
  assert (Hd : Uint63.to_Z d = 63 - h).
  { subst d. rewrite to_Z_sub_small; change (Uint63.to_Z 63) with 63; fold h; lia. }
  set (E := Uint63.to_Z e - 1024).
  unfold binary_round.
  assert (Hdig : Z.pos (digits2_pos (Z.to_pos (Uint63.to_Z m))) = 63 - h).
  { rewrite <- HD. destruct (Uint63.to_Z m); try lia. reflexivity. }
  rewrite Hdig.
  rewrite ltb_to_Z, Hd in *. change (Uint63.to_Z 24) with 24 in *.
  destruct (Z.ltb_spec (63 - h) 24) as [Hlt|Hge].
  - set (k := (24 - d)%uint63) in *.
    assert (Hk : Uint63.to_Z k = h - 39).
    { subst k. rewrite to_Z_sub_small; change (Uint63.to_Z 24) with 24; lia. }
    assert (Hk875 : Uint63.to_Z (k + 875) = h - 39 + 875).
    { rewrite to_Z_add_small; rewrite Hk; change (Uint63.to_Z 875) with 875; lia. }
    rewrite ltb_to_Z, Hk875 in *.
    destruct (Z.ltb_spec (Uint63.to_Z e) (h - 39 + 875)) as [?|Hguard];
      [congruence|].
    assert (Hp : 0 < 2 ^ (h - 39)) by (apply Z.pow_pos_nonneg; lia).
    assert (Hmk : Uint63.to_Z (m << k) = Uint63.to_Z m * 2 ^ (h - 39)).
    { rewrite to_Z_lsl_small; rewrite Hk; [reflexivity|].
      assert (E2 : 2 ^ (63 - h) * 2 ^ (h - 39) = 16777216).
      { rewrite <- Z.pow_add_r by lia. replace (63 - h + (h - 39)) with 24 by lia.
        reflexivity. }
      nia. }
    assert (Hek : Uint63.to_Z (e - k) = Uint63.to_Z e - (h - 39)).
    { rewrite to_Z_sub_small; rewrite Hk; lia. }
    assert (E2 : 2 ^ (63 - h) * 2 ^ (h - 39) = 16777216).
    { rewrite <- Z.pow_add_r by lia. replace (63 - h + (h - 39)) with 24 by lia.
      reflexivity. }
    destruct (fast_round_ok s (m << k)%uint63 (e - k)%uint63 false false)
      as [Hwf Hsf];
      [rewrite Hmk; change (2 ^ 62) with 4611686018427387904; nia
      | rewrite Hek; change (2 ^ 32) with 4294967296; lia
      | exact Hok |].
    split; [exact Hwf|]. rewrite Hsf. cbn [loc_of_shr_record].
    assert (Hfexp : fexp 24 128 (63 - h + E) = E - (h - 39)).
    { unfold fexp, emin. subst E. lia. }
    rewrite Hfexp.
    rewrite (surjective_pairing (shl_align _ _ _)).
    rewrite shl_align_fst, shl_align_snd by lia.
    rewrite Z2Pos.id by lia.
    rewrite Hmk, Hek.
    replace (E - (E - (h - 39))) with (h - 39) by lia.
    f_equal. subst E. lia.
  - destruct (fast_round_ok s m e false false) as [Hwf Hsf];
      [change (2 ^ 62) with 4611686018427387904; lia
      | change (2 ^ 32) with 4294967296; lia | exact Hok |].
    split; [exact Hwf|]. rewrite Hsf. cbn [loc_of_shr_record].
    rewrite shl_align_none by (unfold fexp, emin; lia).
    rewrite Z2Pos.id by lia. reflexivity.
Qed.

(** Conversion of an integer agrees with [binary_normalize]. *)
Lemma fast_of_Z_ok (v : int) :
  Uint63.to_Z v < 2 ^ 62 ->
  fast_of_Z v <> FOther ->
  fast_wf (fast_of_Z v) /\
  SF_of_fast (fast_of_Z v) = binary_normalize 24 128 (Uint63.to_Z v) 0 false.
Proof.
  intros Hv Hok. unfold fast_of_Z in *. rewrite eqb_to_Z in *.
  change (Uint63.to_Z 0) with 0 in *.
  pose proof (Uint63.to_Z_bounded v) as Hv0.
  destruct (Z.eqb_spec (Uint63.to_Z v) 0) as [H0|H0].
  - rewrite H0. split; [exact I | reflexivity].
  - destruct (fast_normalize_ok false v 1024) as [Hwf Hsf];
      [lia | reflexivity | exact Hok |].
    split; [exact Hwf|]. rewrite Hsf.
    change (Uint63.to_Z 1024 - 1024) with 0.
    destruct (Uint63.to_Z v) as [|p|p]; try lia. reflexivity.
Qed.

(* ------------------------------------------------------------------------- *)
(** ** Addition, subtraction and comparison *)

Lemma binary_normalize_signed (s : bool) (v e : Z) :
  0 < v ->
  binary_normalize 24 128 (cond_Zopp s v) e false =
  binary_round 24 128 s (Z.to_pos v) e.
Proof.
  intros Hv. destruct v as [|p|p]; try lia. destruct s; reflexivity.
Qed.

Lemma cond_Zopp_add (s : bool) (a b : Z) :
  cond_Zopp s a + cond_Zopp s b = cond_Zopp s (a + b).
Proof. destruct s; cbn [cond_Zopp]; lia. Qed.

Lemma cond_Zopp_sub (s : bool) (a b : Z) :
  cond_Zopp s a + cond_Zopp (negb s) b = cond_Zopp s (a - b).
Proof. destruct s; cbn [cond_Zopp negb]; lia. Qed.

Lemma cond_Zopp_sub' (s : bool) (a b : Z) :
  cond_Zopp (negb s) a + cond_Zopp s b = cond_Zopp s (b - a).
Proof. destruct s; cbn [cond_Zopp negb]; lia. Qed.

(** Addition of two normal numbers agrees with [SFadd]. *)
Lemma fast_add_finite_ok (sa : bool) (ma ea : int) (sb : bool) (mb eb : int) :
  fast_wf (FNorm sa ma ea) -> fast_wf (FNorm sb mb eb) ->
  fast_add_finite sa ma ea sb mb eb <> FOther ->
  let Ea := Uint63.to_Z ea - 1024 in
  let Eb := Uint63.to_Z eb - 1024 in
  let Ez := Z.min Ea Eb in
  fast_wf (fast_add_finite sa ma ea sb mb eb) /\
  SF_of_fast (fast_add_finite sa ma ea sb mb eb) =
  binary_normalize 24 128
    (cond_Zopp sa (Z.pos (fst (shl_align (Z.to_pos (Uint63.to_Z ma)) Ea Ez))) +
     cond_Zopp sb (Z.pos (fst (shl_align (Z.to_pos (Uint63.to_Z mb)) Eb Ez))))
    Ez false.
Proof.
  intros Ha Hb Hok Ea Eb Ez.
  pose proof (fast_wf_pos _ _ _ Ha) as Pa. pose proof (fast_wf_pos _ _ _ Hb) as Pb.
  destruct Ha as [Hma Hea], Hb as [Hmb Heb].
  rewrite !shl_align_fst, Pa, Pb by (subst Ez; lia).
  unfold fast_add_finite in *.
  set (ez := if (ea <=? eb)%uint63 then ea else eb) in *.
  assert (Hez : Uint63.to_Z ez - 1024 = Ez /\
                 Uint63.to_Z ez <= Uint63.to_Z ea /\ Uint63.to_Z ez <= Uint63.to_Z eb).
  { subst ez Ez Ea Eb. rewrite leb_to_Z.
    destruct (Z.leb_spec (Uint63.to_Z ea) (Uint63.to_Z eb)); lia. }
  destruct Hez as (Hez & Hza & Hzb).
  set (da := (ea - ez)%uint63) in *. set (db := (eb - ez)%uint63) in *.
  assert (Hda : Uint63.to_Z da = Ea - Ez)
    by (subst da; rewrite to_Z_sub_small by lia; subst Ea; lia).
  assert (Hdb : Uint63.to_Z db = Eb - Ez)
    by (subst db; rewrite to_Z_sub_small by lia; subst Eb; lia).
  rewrite !ltb_to_Z, Hda, Hdb in *. change (Uint63.to_Z 37) with 37 in *.
  destruct (Z.ltb_spec 37 (Ea - Ez)) as [?|Hga]; [cbn in Hok; congruence|].
  destruct (Z.ltb_spec 37 (Eb - Ez)) as [?|Hgb]; [cbn in Hok; congruence|].
  cbn [orb] in *.
  assert (Hpa : 0 < 2 ^ (Ea - Ez) <= 2 ^ 37)
    by (split; [apply Z.pow_pos_nonneg | apply Z.pow_le_mono_r]; lia).
  assert (Hpb : 0 < 2 ^ (Eb - Ez) <= 2 ^ 37)
    by (split; [apply Z.pow_pos_nonneg | apply Z.pow_le_mono_r]; lia).
  change (2 ^ 37) with 137438953472 in *.
  set (a := (ma << da)%uint63) in *. set (b := (mb << db)%uint63) in *.
  assert (Hva : Uint63.to_Z a = Uint63.to_Z ma * 2 ^ (Ea - Ez))
    by (subst a; rewrite to_Z_lsl_small; rewrite Hda; [reflexivity | nia]).
  assert (Hvb : Uint63.to_Z b = Uint63.to_Z mb * 2 ^ (Eb - Ez))
    by (subst b; rewrite to_Z_lsl_small; rewrite Hdb; [reflexivity | nia]).
  rewrite <- Hva, <- Hvb.
  assert (Hab : 0 < Uint63.to_Z a < 2305843009213693952 /\
                0 < Uint63.to_Z b < 2305843009213693952) by (rewrite Hva, Hvb; nia).
  pose proof (Uint63.to_Z_bounded ez) as Hez0.
  assert (Hez31 : Uint63.to_Z ez < 2 ^ 31)
    by (change (2 ^ 31) with 2147483648; lia).
  destruct (Bool.eqb sa sb) eqn:Es.
  - apply Bool.eqb_prop in Es. subst sb.
    assert (Hs : Uint63.to_Z (a + b) = Uint63.to_Z a + Uint63.to_Z b)
      by (apply to_Z_add_small; lia).
    destruct (fast_normalize_ok sa (a + b)%uint63 ez) as [Hwf Hsf];
      [rewrite Hs; change (2 ^ 62) with 4611686018427387904; lia
      | exact Hez31 | exact Hok |].
    split; [exact Hwf|].
    rewrite Hsf, cond_Zopp_add, binary_normalize_signed, Hs, Hez by lia.
    reflexivity.
  - assert (Hsb : sb = negb sa)
      by (destruct sa, sb; cbn in Es; (reflexivity || discriminate Es)).
    destruct (Z.ltb_spec (Uint63.to_Z b) (Uint63.to_Z a)) as [Hlt|Hge].
    + assert (Hs : Uint63.to_Z (a - b) = Uint63.to_Z a - Uint63.to_Z b)
        by (apply to_Z_sub_small; lia).
      destruct (fast_normalize_ok sa (a - b)%uint63 ez) as [Hwf Hsf];
        [rewrite Hs; change (2 ^ 62) with 4611686018427387904; lia
        | exact Hez31 | exact Hok |].
      split; [exact Hwf|].
      rewrite Hsf, Hsb, cond_Zopp_sub, binary_normalize_signed, Hs, Hez by lia.
      reflexivity.
    + destruct (Z.ltb_spec (Uint63.to_Z a) (Uint63.to_Z b)) as [Hlt|Hge'].
      * assert (Hs : Uint63.to_Z (b - a) = Uint63.to_Z b - Uint63.to_Z a)
          by (apply to_Z_sub_small; lia).
        destruct (fast_normalize_ok sb (b - a)%uint63 ez) as [Hwf Hsf];
          [rewrite Hs; change (2 ^ 62) with 4611686018427387904; lia
          | exact Hez31 | exact Hok |].
        split; [exact Hwf|].
        assert (Hsa : sa = negb sb) by (subst sb; destruct sa; reflexivity).
        rewrite Hsf. rewrite Hsa at 1.
        rewrite cond_Zopp_sub', binary_normalize_signed, Hs, Hez by lia.
        reflexivity.
      * split; [exact I|].
        replace (Uint63.to_Z b) with (Uint63.to_Z a) by lia.
        rewrite Hsb, cond_Zopp_sub, Z.sub_diag. destruct sa; reflexivity.
Qed.

(** Addition agrees with [SFadd]. *)
Lemma fast_add_ok (a b : fast_float) :
  fast_wf a -> fast_wf b -> fast_add a b <> FOther ->
  fast_wf (fast_add a b) /\
  SF_of_fast (fast_add a b) = SFadd 24 128 (SF_of_fast a) (SF_of_fast b).
Proof.
  intros Ha Hb Hok.
  destruct a as [sa|sa ma ea|], b as [sb|sb mb eb|]; try contradiction.
  - cbn [fast_add]. destruct sa, sb; split; (exact I || reflexivity).
  - split; [exact Hb | reflexivity].
  - split; [exact Ha | reflexivity].
  - cbn [fast_add] in *. exact (fast_add_finite_ok sa ma ea sb mb eb Ha Hb Hok).
Qed.

(** Subtraction agrees with [SFsub]. *)
Lemma fast_sub_ok (a b : fast_float) :
  fast_wf a -> fast_wf b -> fast_sub a b <> FOther ->
  fast_wf (fast_sub a b) /\
  SF_of_fast (fast_sub a b) = SFsub 24 128 (SF_of_fast a) (SF_of_fast b).
Proof.
  intros Ha Hb Hok.
  destruct a as [sa|sa ma ea|], b as [sb|sb mb eb|]; try contradiction.
  - cbn [fast_sub]. destruct sa, sb; split; (exact I || reflexivity).
  - split; [exact Hb | reflexivity].
  - split; [exact Ha | reflexivity].
  - cbn [fast_sub] in *.
    destruct (fast_add_finite_ok sa ma ea (negb sb) mb eb Ha Hb Hok) as [Hwf Hsf].
    split; [exact Hwf|]. rewrite Hsf. cbn [SF_of_fast SFsub]. f_equal.
    destruct sb; cbn [cond_Zopp negb]; lia.
Qed.

(** Comparison agrees with [SFleb]. *)
Lemma fast_leb_ok (a b : fast_float) :
  fast_wf a -> fast_wf b -> fast_leb a b = true ->
  SFleb (SF_of_fast a) (SF_of_fast b) = true.
Proof.
  intros Ha Hb H.
  destruct a as [sa|sa ma ea|], b as [sb|sb mb eb|]; try contradiction;
    try discriminate H.
  - destruct sb; [discriminate H | reflexivity].
  - destruct sa; discriminate H.
  - destruct sa, sb; try discriminate H. cbn [fast_leb] in H.
    pose proof (fast_wf_pos _ _ _ Ha) as Pa. pose proof (fast_wf_pos _ _ _ Hb) as Pb.
    rewrite ltb_to_Z, eqb_to_Z, leb_to_Z in H.
    unfold SFleb, SFcompare. cbn [SF_of_fast].
    destruct (Z.compare_spec (Uint63.to_Z ea - 1024) (Uint63.to_Z eb - 1024))
      as [He|He|He].
    + rewrite Pos.compare_cont_spec. cbn [Pos.switch_Eq].
      rewrite Pos2Z.inj_compare, Pa, Pb. cbn [Pos.switch_Eq].
      destruct (Z.ltb_spec (Uint63.to_Z ea) (Uint63.to_Z eb)); [lia|].
      destruct (Z.eqb_spec (Uint63.to_Z ea) (Uint63.to_Z eb)); [|lia].
      cbn [orb andb] in H. apply Z.leb_le in H.
      destruct (Z.compare_spec (Uint63.to_Z ma) (Uint63.to_Z mb)); (reflexivity || lia).
    + reflexivity.
    + destruct (Z.ltb_spec (Uint63.to_Z ea) (Uint63.to_Z eb)); [lia|].
      destruct (Z.eqb_spec (Uint63.to_Z ea) (Uint63.to_Z eb)); [lia|].
      discriminate H.
Qed.

(* ------------------------------------------------------------------------- *)
(** ** Bit patterns of the fast floats

    [fast_rep f v]: unless [f] is [FOther], the binary32 bit pattern [v] is
    the number [f] stands for.  The relation follows the [f32_] operations of
    the model. *)

(** Encoding a fast float as a bit pattern and decoding it gives the float
    back. *)
Lemma SF_of_bits_of_fast (f : fast_float) :
  fast_wf f ->
  SF_of_bits (bits_of_SF (SF_of_fast f)) = SF_of_fast f /\
  isfinite (bits_of_SF (SF_of_fast f)) = true.
Proof.
  intros Hf. destruct f as [s|s m e|]; [| |contradiction].
  - destruct s; split; reflexivity.
  - pose proof (fast_wf_pos _ _ _ Hf) as Pm. destruct Hf as [Hm He].
    cbn [SF_of_fast]. unfold bits_of_SF. rewrite Pm.
    destruct (Z.ltb_spec (Uint63.to_Z m) (2 ^ 23)) as [Hlt|_];
      [change (2 ^ 23) with 8388608 in Hlt; lia|].
    change (UINT32_MOD - 1) with (Z.ones 32). rewrite Z.land_ones by lia.
    set (M := Uint63.to_Z m) in *. set (E := Uint63.to_Z e) in *.
    set (S := if s then 2 ^ 31 else 0).
    assert (HS : S = 0 /\ s = false \/ S = 2147483648 /\ s = true)
      by (subst S; destruct s; [right | left]; split; reflexivity).
    change (2 ^ 23) with 8388608. change (2 ^ 32) with 4294967296.
    set (X := (S + (E - 1024 + 150) * 8388608 + (M - 8388608)) mod 4294967296).
    assert (HX : X = S + (E - 874) * 8388608 + (M - 8388608)).
    { subst X. rewrite Z.mod_small by lia. lia. }
    unfold SF_of_bits, isfinite, f32_sign, f32_exponent, f32_mantissa.
    rewrite Z.shiftr_div_pow2 by lia.
    change 255 with (Z.ones 8). change (2 ^ 23 - 1) with (Z.ones 23).
    rewrite !Z.land_ones by lia.
    change (2 ^ 23) with 8388608. change (2 ^ 8) with 256.
    assert (Hexp : (X / 8388608) mod 256 = E - 874).
    { rewrite HX. clear HX X. Z.div_mod_to_equations. lia. }
    assert (Hman : X mod 8388608 = M - 8388608).
    { rewrite HX. clear HX Hexp X. Z.div_mod_to_equations. lia. }
    assert (Hsign : Z.testbit X 31 = s).
    { rewrite Z.testbit_odd, Z.shiftr_div_pow2 by lia.
      change (2 ^ 31) with 2147483648.
      assert (X / 2147483648 = if s then 1 else 0).
      { rewrite HX. clear HX Hexp Hman X.
        destruct HS as [[-> ->] | [-> ->]]; Z.div_mod_to_equations; lia. }
      rewrite H. destruct s; reflexivity. }
    rewrite Hexp, Hman, Hsign.
    destruct (Z.eqb_spec (E - 874) 0); [lia|].
    destruct (Z.eqb_spec (E - 874) (Z.ones 8)) as [H255|_];
      [change (Z.ones 8) with 255 in H255; lia|].
    split; [|reflexivity].
    replace (M - 8388608 + 8388608) with M by lia.
    destruct M as [|p|p] eqn:EM; try lia.
    cbn [Z.to_pos]. f_equal. lia.
Qed.

(** A binary operation that agrees with its [SpecFloat] counterpart carries
    the relation from its arguments to its result. *)
Lemma fast_rep_lift2
    (fop : fast_float -> fast_float -> fast_float)
    (sop : Z -> Z -> spec_float -> spec_float -> spec_float)
    (a b : fast_float) (x y : float32) :
  (forall a b, fast_wf a -> fast_wf b -> fop a b <> FOther ->
               fast_wf (fop a b) /\
               SF_of_fast (fop a b) = sop 24 128 (SF_of_fast a) (SF_of_fast b)) ->
  (forall b, fop FOther b = FOther) ->
  (forall a, fop a FOther = FOther) ->
  fast_rep a x -> fast_rep b y -> fast_rep (fop a b) (f32_lift2 sop x y).
Proof.
  intros Hop Hl Hr Ha Hb Hok.
  assert (Hna : a <> FOther) by (intros ->; apply Hok, Hl).
  assert (Hnb : b <> FOther) by (intros ->; apply Hok, Hr).
  destruct (Ha Hna) as [Wa ->]. destruct (Hb Hnb) as [Wb ->].
  destruct (Hop a b Wa Wb Hok) as [Wr Hr'].
  split; [exact Wr|].
  unfold f32_lift2, prec32, emax32.
  rewrite (proj1 (SF_of_bits_of_fast a Wa)), (proj1 (SF_of_bits_of_fast b Wb)), Hr'.
  reflexivity.
Qed.

Lemma fast_rep_mul (a b : fast_float) (x y : float32) :
  fast_rep a x -> fast_rep b y -> fast_rep (fast_mul a b) (f32_mul x y).
Proof.
  apply (fast_rep_lift2 fast_mul SFmul); [exact fast_mul_ok | reflexivity |].
  intros [| |]; reflexivity.
Qed.

Lemma fast_rep_div (a b : fast_float) (x y : float32) :
  fast_rep a x -> fast_rep b y -> fast_rep (fast_div a b) (f32_div x y).
Proof.
  apply (fast_rep_lift2 fast_div SFdiv); [exact fast_div_ok | reflexivity |].
  intros [| |]; reflexivity.
Qed.

Lemma fast_rep_add (a b : fast_float) (x y : float32) :
  fast_rep a x -> fast_rep b y -> fast_rep (fast_add a b) (f32_add x y).
Proof.
  apply (fast_rep_lift2 fast_add SFadd); [exact fast_add_ok | reflexivity |].
  intros [| |]; reflexivity.
Qed.

Lemma fast_rep_sub (a b : fast_float) (x y : float32) :
  fast_rep a x -> fast_rep b y -> fast_rep (fast_sub a b) (f32_sub x y).
Proof.
  apply (fast_rep_lift2 fast_sub SFsub); [exact fast_sub_ok | reflexivity |].
  intros [| |]; reflexivity.
Qed.

Lemma fast_rep_sqrt (a : fast_float) (x : float32) :
  fast_rep a x -> fast_rep (fast_sqrt a) (f32_sqrt x).
Proof.
  intros Ha Hok.
  assert (Hna : a <> FOther) by (intros ->; apply Hok; reflexivity).
  destruct (Ha Hna) as [Wa ->].
  destruct (fast_sqrt_ok a Wa Hok) as [Wr Hr].
  split; [exact Wr|].
  unfold f32_sqrt, prec32, emax32.
  rewrite (proj1 (SF_of_bits_of_fast a Wa)), Hr. reflexivity.
Qed.

Lemma fast_rep_of_Z (v : int) :
  Uint63.to_Z v < 2 ^ 62 -> fast_rep (fast_of_Z v) (f32_of_Z (Uint63.to_Z v)).
Proof.
  intros Hv Hok. destruct (fast_of_Z_ok v Hv Hok) as [Wr Hr].
  split; [exact Wr|]. unfold f32_of_Z, prec32, emax32. rewrite Hr. reflexivity.
Qed.

Lemma fast_rep_abs (a : fast_float) (x : float32) :
  fast_rep a x -> fast_rep (fast_abs a) (f32_abs x).
Proof.
  intros Ha Hok.
  assert (Hna : a <> FOther) by (intros ->; apply Hok; reflexivity).
  destruct (Ha Hna) as [Wa ->].
  split; [destruct a; [exact I | exact Wa | contradiction]|].
  unfold f32_abs. change (2 ^ 31 - 1) with (Z.ones 31).
  rewrite Z.land_ones by lia.
  destruct a as [s|s m e|]; [destruct s; reflexivity | | contradiction].
  pose proof (fast_wf_pos _ _ _ Wa) as Pm. destruct Wa as [Hm He].
  cbn [fast_abs SF_of_fast]. unfold bits_of_SF. rewrite Pm.
  destruct (Z.ltb_spec (Uint63.to_Z m) (2 ^ 23)) as [Hlt|_];
    [change (2 ^ 23) with 8388608 in Hlt; lia|].
  change (UINT32_MOD - 1) with (Z.ones 32). rewrite !Z.land_ones by lia.
  change (2 ^ 23) with 8388608. change (2 ^ 32) with 4294967296.
  change (2 ^ 31) with 2147483648.
  destruct s; Z.div_mod_to_equations; lia.
Qed.

Lemma fast_rep_leb (a b : fast_float) (x y : float32) :
  fast_rep a x -> fast_rep b y -> fast_leb a b = true -> f32_leb x y = true.
Proof.
  intros Ha Hb H.
  assert (Hna : a <> FOther) by (intros ->; discriminate H).
  assert (Hnb : b <> FOther) by (intros ->; destruct a as [|[|]|]; discriminate H).
  destruct (Ha Hna) as [Wa ->]. destruct (Hb Hnb) as [Wb ->].
  unfold f32_leb.
  rewrite (proj1 (SF_of_bits_of_fast a Wa)), (proj1 (SF_of_bits_of_fast b Wb)).
  apply fast_leb_ok; assumption.
Qed.

Lemma fast_rep_finite (a : fast_float) (x : float32) :
  fast_rep a x -> a <> FOther -> isfinite x = true.
Proof.
  intros Ha Hna. destruct (Ha Hna) as [Wa ->].
  apply (proj2 (SF_of_bits_of_fast a Wa)).
Qed.

Lemma fast_rep_nonzero (m e : int) (x : float32) :
  fast_rep (FNorm false m e) x -> f32_eqb x (f32_of_Z 0) = false.
Proof.
  intros Ha. destruct (Ha ltac:(discriminate)) as [Wa ->].
  unfold f32_eqb. rewrite (proj1 (SF_of_bits_of_fast _ Wa)). reflexivity.
Qed.

(* ------------------------------------------------------------------------- *)
(** ** The key derivation on the low 16 bits of the seed *)

(** The key derivation passes the check on every value of the low 16 bits,
    by evaluation on machine integers. *)
Lemma fast_keys_ok_all : fast_keys_ok (Z.to_nat 65536) 0 = true.
Proof. vm_compute. reflexivity. Qed.

(** The low 16 bits of the next LCG state depend on the low 16 bits of the
    state only. *)
Lemma lcg16_spec (v : int) (s : Z) :
  s mod 65536 = Uint63.to_Z v ->
  lcg_step s mod 65536 = Uint63.to_Z (lcg16 v) /\ Uint63.to_Z (lcg16 v) < 65536.
Proof.
  intros H.
  assert (Hv : 0 <= Uint63.to_Z v < 65536)
    by (rewrite <- H; apply Z.mod_pos_bound; lia).
  unfold lcg16. rewrite Uint63.land_spec'.
  change (Uint63.to_Z 65535) with (Z.ones 16). rewrite Z.land_ones by lia.
  change (2 ^ 16) with 65536.
  assert (Hm : Uint63.to_Z (v * 1103515245) = Uint63.to_Z v * 1103515245)
    by (rewrite to_Z_mul_small; change (Uint63.to_Z 1103515245) with 1103515245; lia).
  assert (Ha : Uint63.to_Z (v * 1103515245 + 12345) =
               Uint63.to_Z v * 1103515245 + 12345)
    by (rewrite to_Z_add_small; rewrite Hm; change (Uint63.to_Z 12345) with 12345; lia).
  rewrite Ha. split; [|apply Z.mod_pos_bound; lia].
  rewrite (lcg_step_low16 s (Uint63.to_Z v))
    by (rewrite H; symmetry; apply Z.mod_small; lia).
  unfold lcg_step, SIZE_MOD.
  apply Z.mod_mod_divide. exists (2 ^ 48). reflexivity.
Qed.

(** A raw key component, computed from the low 16 bits of the state. *)
Lemma fast_rep_component (v : int) (s : Z) :
  s mod 65536 = Uint63.to_Z v ->
  fast_rep (fast_component v) (lcg_component s).
Proof.
  intros H.
  assert (Hv : 0 <= Uint63.to_Z v < 65536)
    by (rewrite <- H; apply Z.mod_pos_bound; lia).
  unfold lcg_component, fast_component. rewrite land_65535_mod, H.
  apply fast_rep_sub; [apply fast_rep_mul; [apply fast_rep_div|]|].
  - apply fast_rep_of_Z. change (2 ^ 62) with 4611686018427387904. lia.
  - exact (fast_rep_of_Z 65535%uint63 eq_refl).
  - exact (fast_rep_of_Z 2%uint63 eq_refl).
  - exact (fast_rep_of_Z 1%uint63 eq_refl).
Qed.

Lemma fast_rep_norm (a b c d : fast_float) (q : quaternion_t) :
  fast_rep a (w q) -> fast_rep b (x q) -> fast_rep c (y q) -> fast_rep d (z q) ->
  fast_rep (fast_norm a b c d) (quaternion_norm q).
Proof.
  intros Ha Hb Hc Hd. unfold fast_norm, quaternion_norm.
  apply fast_rep_sqrt.
  repeat apply fast_rep_add; apply fast_rep_mul; assumption.
Qed.

Lemma is_fast_true (f : fast_float) : is_fast f = true -> f <> FOther.
Proof. intros H ->. discriminate H. Qed.

(** A seed whose low 16 bits pass [fast_key_ok] yields a key on which
    Normalize succeeds, finite and of unit norm. *)
Lemma fast_key_ok_sound (v0 : int) (seed : Z) :
  seed mod 65536 = Uint63.to_Z v0 ->
  fast_key_ok v0 = true ->
  exists k,
    quaternion_normalize (Some (raw_key seed)) (Some (raw_key seed)) =
    (HC_SUCCESS, Some k) /\
    quaternion_is_valid (Some k) = 1 /\
    quaternion_is_unit k = true.
Proof.
  intros H0 Hok. unfold fast_key_ok in Hok. cbv zeta in Hok.
  destruct (lcg16_spec v0 seed H0) as [H1 _].
  destruct (lcg16_spec _ _ H1) as [H2 _].
  destruct (lcg16_spec _ _ H2) as [H3 _].
  destruct (lcg16_spec _ _ H3) as [H4 _].
  pose proof (fast_rep_component _ _ H1) as Ra.
  pose proof (fast_rep_component _ _ H2) as Rb.
  pose proof (fast_rep_component _ _ H3) as Rc.
  pose proof (fast_rep_component _ _ H4) as Rd.
  rewrite quaternion_normalize_cases.
  set (a := fast_component (lcg16 v0)) in *.
  set (b := fast_component (lcg16 (lcg16 v0))) in *.
  set (c := fast_component (lcg16 (lcg16 (lcg16 v0)))) in *.
  set (d := fast_component (lcg16 (lcg16 (lcg16 (lcg16 v0))))) in *.
  clearbody a b c d.
  assert (Ra' : fast_rep a (w (raw_key seed))) by exact Ra.
  assert (Rb' : fast_rep b (x (raw_key seed))) by exact Rb.
  assert (Rc' : fast_rep c (y (raw_key seed))) by exact Rc.
  assert (Rd' : fast_rep d (z (raw_key seed))) by exact Rd.
  clear Ra Rb Rc Rd H1 H2 H3 H4 H0.
  set (raw := raw_key seed) in *. clearbody raw.
  pose proof (fast_rep_norm a b c d raw Ra' Rb' Rc' Rd') as Rn.
  set (nb := quaternion_norm raw) in *. clearbody nb.
  destruct (fast_norm a b c d) as [|[|] m e|]; try discriminate Hok.
  rewrite (fast_rep_nonzero m e nb Rn).
  eexists. split; [reflexivity|].
  apply andb_prop in Hok as [Hok Hunit].
  apply andb_prop in Hok as [Hok Hkd].
  apply andb_prop in Hok as [Hok Hkc].
  apply andb_prop in Hok as [Hka Hkb].
  pose proof (fast_rep_div _ _ _ _ Ra' Rn) as Rka.
  pose proof (fast_rep_div _ _ _ _ Rb' Rn) as Rkb.
  pose proof (fast_rep_div _ _ _ _ Rc' Rn) as Rkc.
  pose proof (fast_rep_div _ _ _ _ Rd' Rn) as Rkd.
  split.
  - unfold quaternion_is_valid. cbn [w x y z].
    rewrite (fast_rep_finite _ _ Rka (is_fast_true _ Hka)),
      (fast_rep_finite _ _ Rkb (is_fast_true _ Hkb)),
      (fast_rep_finite _ _ Rkc (is_fast_true _ Hkc)),
      (fast_rep_finite _ _ Rkd (is_fast_true _ Hkd)).
    reflexivity.
  - unfold quaternion_is_unit.
    refine (fast_rep_leb _ _ _ _ _ _ Hunit).
    + apply fast_rep_abs, fast_rep_sub.
      * exact (fast_rep_of_Z 1%uint63 eq_refl).
      * apply fast_rep_norm; assumption.
    + unfold f32_tolerance.
      exact (fast_rep_div _ _ _ _ (fast_rep_of_Z 1%uint63 eq_refl)
               (fast_rep_of_Z 1000000%uint63 eq_refl)).
Qed.

Lemma fast_keys_ok_nth (n : nat) :
  forall (v : int) (k : nat),
    fast_keys_ok n v = true -> (k < n)%nat ->
    fast_key_ok (v + Uint63.of_Z (Z.of_nat k))%uint63 = true.
Proof.
  induction n as [|n IH]; intros v k H Hk; [lia|].
  cbn [fast_keys_ok] in H. apply andb_prop in H as [Hv Hrest].
  destruct k as [|k].
  - replace (v + Uint63.of_Z (Z.of_nat 0))%uint63 with v; [exact Hv|].
    apply Uint63.to_Z_inj. rewrite Uint63.add_spec.
    change (Uint63.to_Z (Uint63.of_Z (Z.of_nat 0))) with 0.
    rewrite Z.add_0_r. symmetry. apply Z.mod_small, Uint63.to_Z_bounded.
  - specialize (IH (v + 1)%uint63 k Hrest ltac:(lia)).
    replace (v + Uint63.of_Z (Z.of_nat (S k)))%uint63
      with (v + 1 + Uint63.of_Z (Z.of_nat k))%uint63; [exact IH|].
    apply Uint63.to_Z_inj.
    rewrite !Uint63.add_spec, !Uint63.of_Z_spec. change (Uint63.to_Z 1) with 1.
    rewrite Nat2Z.inj_succ. unfold Z.succ.
    rewrite Zplus_mod_idemp_l, Zplus_mod_idemp_r, Zplus_mod_idemp_r.
    f_equal. lia.
Qed.

(** Every seed yields a key that is finite and of unit norm. *)
Lemma generated_key_valid_unit (seed : Z) :
  exists k,
    quaternion_normalize (Some (raw_key seed)) (Some (raw_key seed)) =
    (HC_SUCCESS, Some k) /\
    quaternion_is_valid (Some k) = 1 /\
    quaternion_is_unit k = true.
Proof.
  pose proof (Z.mod_pos_bound seed 65536 ltac:(lia)) as Hr.
  apply (fast_key_ok_sound (Uint63.of_Z (seed mod 65536))).
  - rewrite Uint63.of_Z_spec. symmetry. apply Z.mod_small.
    rewrite wB_value. lia.
  - pose proof (fast_keys_ok_nth (Z.to_nat 65536) 0%uint63
                  (Z.to_nat (seed mod 65536)) fast_keys_ok_all ltac:(lia)) as H.
    rewrite Z2Nat.id in H by lia.
    replace (0 + Uint63.of_Z (seed mod 65536))%uint63
      with (Uint63.of_Z (seed mod 65536)) in H; [exact H|].
    apply Uint63.to_Z_inj. rewrite Uint63.add_spec.
    change (Uint63.to_Z 0) with 0. rewrite Z.add_0_l. symmetry.
    apply Z.mod_small, Uint63.to_Z_bounded.
Qed.

(* ------------------------------------------------------------------------- *)
(** ** Key derivation: every seed *)

(** For every seed, Normalize succeeds on the raw components and the key
    [quaternion_generate_key] leaves is made of 32-bit words, finite and of
    unit norm. *)
Lemma generate_key_normalized (k0 : quaternion_t) (seed : Z) :
  exists key,
    quaternion_normalize (Some (raw_key seed)) (Some (raw_key seed)) =
    (HC_SUCCESS, Some key) /\
    quaternion_generate_key (Some k0) seed = (RetVoid, Some key) /\
    quaternion_wf key /\
    quaternion_is_valid (Some key) = 1 /\
    quaternion_is_unit key = true.
Proof.
  destruct (generated_key_valid_unit seed) as (key & Hn & Hv & Hu).
  assert (Hg : quaternion_generate_key (Some k0) seed = (RetVoid, Some key)).
  { unfold quaternion_generate_key. cbv zeta. rewrite Hn. reflexivity. }
  exists key. repeat split; try assumption.
  all: destruct (generate_key_wf k0 seed key Hg) as (H1 & H2 & H3 & H4); lia.
Qed.

(** C2, as stated, fails: key generation has no failure for its caller to
    observe.  No seed gives raw components of zero norm, so the case the
    claim speaks of never arises.  The one call that does fail, with a null
    key location (here with seed 12345), returns without a status, and no
    call of [quaternion_generate_key] hands any return code to its caller. *)
Lemma key_generation_is_not_fallible :
  ~ (exists seed : Z,
        f32_eqb (quaternion_norm (raw_key seed)) (f32_of_Z 0) = true) /\
  quaternion_generate_key None 12345 = (RetVoid, None) /\
  ~ (exists (key : option quaternion_t) (seed code : Z),
        fst (quaternion_generate_key key seed) = RetInt code).
Proof.
  split; [|split].
  - intros [seed H].
    destruct (generated_key_valid_unit seed) as (key & Hn & _).
    rewrite quaternion_normalize_cases, H in Hn. discriminate Hn.
  - reflexivity.
  - intros (key & seed & code & H). unfold quaternion_generate_key in H.
    destruct key as [k|]; [|discriminate H].
    destruct (quaternion_normalize (Some (raw_key seed)) (Some (raw_key seed))).
    discriminate H.
Qed.

(** C2, as the code has it.  For every seed the norm of the four raw
    components is not zero and the call of Normalize inside
    [quaternion_generate_key] returns [HC_SUCCESS]; the function is [void],
    hands its caller no status and leaves the normalized key. *)
Theorem generate_key_never_fails (k0 : quaternion_t) (seed : Z) :
  exists key,
    f32_eqb (quaternion_norm (raw_key seed)) (f32_of_Z 0) = false /\
    quaternion_normalize (Some (raw_key seed)) (Some (raw_key seed)) =
    (HC_SUCCESS, Some key) /\
    quaternion_generate_key (Some k0) seed = (RetVoid, Some key).
Proof.
  destruct (generate_key_normalized k0 seed) as (key & Hn & Hg & _).
  exists key. split; [|split; assumption].
  rewrite quaternion_normalize_cases in Hn.
  destruct (f32_eqb (quaternion_norm (raw_key seed)) (f32_of_Z 0));
    [discriminate Hn | reflexivity].
Qed.

(* ------------------------------------------------------------------------- *)
(** ** Round trip under the generated key *)

(** Past the guards, an output object shorter than the payload is written
    out of bounds. *)
Lemma decrypt_data_overrun
    (transform : list byte -> quaternion_t -> Z * list byte)
    (ct : list byte) (k : quaternion_t) (pt : list byte) (pl : Z) :
  Z.of_nat sizeof_header <= Z.of_nat (length ct) < SIZE_MOD ->
  h_magic (header_of ct) = HEADER_MAGIC ->
  h_length (header_of ct) <= pl ->
  (length pt < length ct - sizeof_header)%nat ->
  hypercomplex_decrypt_data transform (Some ct) (Some k) (Some pt) (Some pl) = None.
Proof.
  intros Hlen Hm Hpl Hshort.
  rewrite decrypt_data_with_header by lia. cbv zeta.
  rewrite Hm, Z.eqb_refl. cbn [negb].
  destruct (Z.ltb_spec pl (h_length (header_of ct))); [lia|].
  destruct (decrypt_recover transform ct (header_of ct) pt) as [[r pt']|] eqn:E;
    [|reflexivity].
  apply decrypt_recover_inv in E as [Hb _]; [lia | exact Hlen].
Qed.

(** C1.  Encode under the key of any seed, then Decode.  Let the transform
    meet its contract.  For every plaintext and every seed, Encode under the
    key [quaternion_generate_key] leaves returns [HC_SUCCESS] with a
    container of [sizeof_header + padded] bytes.  Decode of that container,
    with any key argument and a capacity of at least the plaintext length,
    returns [HC_SUCCESS], the original length and the original bytes when the
    output object has room for the padded payload; when it has not, Decode
    writes outside the output object, although its capacity check has
    passed. *)
Theorem roundtrip_with_generated_key
    (transform : list byte -> quaternion_t -> Z * list byte)
    (pt : list byte) (seed : Z) (k0 : quaternion_t) (ct : list byte) (cl : Z)
    (k2 : quaternion_t) (outbuf : list byte) (pl : Z) :
  let len := Z.of_nat (length pt) in
  let padded := padded_length_of len in
  let total := Z.of_nat sizeof_header + padded in
  transform_contract transform ->
  len + 15 + Z.of_nat sizeof_header < SIZE_MOD ->
  total <= cl ->
  total <= Z.of_nat (length ct) ->
  len <= pl ->
  exists key ct',
    quaternion_generate_key (Some k0) seed = (RetVoid, Some key) /\
    hypercomplex_encrypt_data transform (Some pt) (Some key) (Some ct) (Some cl) =
    Some (HC_SUCCESS, Some ct', Some total) /\
    (padded <= Z.of_nat (length outbuf) ->
     hypercomplex_decrypt_data transform
       (Some (firstn (Z.to_nat total) ct')) (Some k2) (Some outbuf) (Some pl) =
     Some (HC_SUCCESS,
           Some (pt ++ repeat x00 (Z.to_nat (padded - len))
                   ++ skipn (Z.to_nat padded) outbuf),
           Some len)) /\
    (Z.of_nat (length outbuf) < padded ->
     hypercomplex_decrypt_data transform
       (Some (firstn (Z.to_nat total) ct')) (Some k2) (Some outbuf) (Some pl) =
     None).
Proof.
  intros len padded total Hcontract Hwrap Hcl Hct Hpl.
  destruct (generate_key_normalized k0 seed) as (key & _ & Hgen & Hwf & Hvalid & Hunit).
  destruct (encrypt_under_contract transform pt key ct cl Hcontract Hvalid Hunit
              Hwrap Hcl Hct)
    as (out & Hout & Hback & Henc & Hcont).
  fold len padded total in Hout, Hback, Henc, Hcont.
  destruct (encoded_container_facts pt key ct out Hwf Hwrap Hct Hout)
    as (Hlc & Hhdr & Hpay).
  fold len padded in Hlc, Hhdr, Hpay.
  exists key. eexists. split; [exact Hgen|]. split; [exact Henc|].
  rewrite Hcont. split.
  - intros Hob.
    destruct (decrypt_container transform _ k2 outbuf pl pt Hwrap Hlc) as [Hdec _];
      try assumption.
    + rewrite Hhdr. reflexivity.
    + rewrite Hhdr. reflexivity.
    + rewrite Hhdr, Hpay. exact Hback.
    + rewrite Hdec, Hhdr. cbn [h_checksum]. rewrite Z.eqb_refl.
      unfold zero_padded. fold len. rewrite <- app_assoc. reflexivity.
  - intros Hshort.
    assert (Hpad : len <= padded < len + 16).
    { apply padded_length_bounds; [subst len; lia|].
      change (Z.of_nat sizeof_header) with 40 in Hwrap. lia. }
    apply decrypt_data_overrun.
    + rewrite Hlc. change (Z.of_nat sizeof_header) with 40 in *.
      change SIZE_MOD with 18446744073709551616 in *.
      subst len. lia.
    + rewrite Hhdr. reflexivity.
    + rewrite Hhdr. exact Hpl.
    + change (Z.of_nat sizeof_header) with 40 in Hlc. unfold sizeof_header. lia.
Qed.

(** The three-byte plaintext under the key of seed 12345, a zeroed 56-byte
    container buffer and capacity 3: decoded into an output object of 16
    bytes, and into one of exactly three bytes, which is overrun. *)
Lemma roundtrip_with_generated_key_witness :
  exists key ct',
    quaternion_generate_key (Some (mkQuaternion 0 0 0 0)) 12345 = (RetVoid, Some key) /\
    hypercomplex_encrypt_data xor_transform (Some example_plaintext) (Some key)
      (Some (repeat x00 56)) (Some 56)
    = Some (HC_SUCCESS, Some ct', Some 56) /\
    hypercomplex_decrypt_data xor_transform (Some (firstn 56 ct'))
      (Some example_key) (Some (repeat xff 16)) (Some 3)
    = Some (HC_SUCCESS, Some (example_plaintext ++ repeat x00 13), Some 3) /\
    hypercomplex_decrypt_data xor_transform (Some (firstn 56 ct'))
      (Some example_key) (Some (repeat xff 3)) (Some 3)
    = None.
Proof.
  destruct (roundtrip_with_generated_key xor_transform example_plaintext 12345
              (mkQuaternion 0 0 0 0) (repeat x00 56) 56 example_key (repeat xff 16) 3
              xor_transform_contract)
    as (key & ct' & Hgen & Henc & Hfit & _);
    [ vm_compute; reflexivity | vm_compute; discriminate | vm_compute; discriminate
    | vm_compute; discriminate | ].
  destruct (roundtrip_with_generated_key xor_transform example_plaintext 12345
              (mkQuaternion 0 0 0 0) (repeat x00 56) 56 example_key (repeat xff 3) 3
              xor_transform_contract)
    as (key2 & ct2 & Hgen2 & Henc2 & _ & Hshort);
    [ vm_compute; reflexivity | vm_compute; discriminate | vm_compute; discriminate
    | vm_compute; discriminate | ].
  assert (Hk : key2 = key) by congruence. subst key2.
  assert (Hc : ct2 = ct') by congruence. subst ct2.
  exists key, ct'.
  split; [exact Hgen|]. split; [exact Henc|]. split.
  - apply Hfit. vm_compute. discriminate.
  - apply Hshort. vm_compute. reflexivity.
Defined.
